(** * audio-file-tools: a WAV reader / writer and its sample conversions

    A shallow embedding of [WavUtils.cpp], [WavConfiguration.h],
    [WavReader.h] / [WavReader.cpp] and [WavWriter.h] / [WavWriter.cpp].

    Conventions of the embedding:
    - a fixed-width integer is a [Z] together with the wrap-around of its
      type ([uint8_t], [int16_t], [int32_t], [uint16_t], [uint32_t]);
    - a [float] is the [Z] holding its 32 IEEE-754 bits; arithmetic goes
      through [SpecFloat] at precision 24 and maximal exponent 128;
    - a byte is a [Z] in [0, 256); a file is a list of bytes;
    - [std::vector] is a list, indexed with stdpp's lookup and insert; an
      index outside the vector is undefined behaviour and is reported as
      such instead of being silently dropped;
    - every float operation is rounded to [float]; the one expression an
      implementation may contract into a fused multiply-add, in
      [convert_float_to_uint8], is given in both evaluations;
    - a frame count is a natural number and sizes are products of
      naturals: they are the [size_t] values of the source as long as
      these do not wrap ([request_fits]), and allocations succeed;
    - [assert] is compiled in (no [NDEBUG]). *)

From Stdlib Require Import ZArith List String Ascii Bool Lia SpecFloat.
From stdpp Require Import list.

Local Open Scope Z_scope.

(* ================================================================== *)
(** * Fixed-width integers *)
(* ================================================================== *)

Module CInt.

(** Value of a [w]-bit unsigned object holding [z] modulo [2^w]. *)
Definition uwrap (w z : Z) : Z := z mod 2 ^ w.

(** Value of a [w]-bit two's complement object holding [z] modulo [2^w]. *)
Definition swrap (w z : Z) : Z := (z + 2 ^ (w - 1)) mod 2 ^ w - 2 ^ (w - 1).

Definition to_uint8  : Z -> Z := uwrap 8.
Definition to_uint16 : Z -> Z := uwrap 16.
Definition to_uint32 : Z -> Z := uwrap 32.
Definition to_int16  : Z -> Z := swrap 16.
Definition to_int32  : Z -> Z := swrap 32.

Definition is_uint8  (z : Z) : Prop := 0 <= z < 256.
Definition is_int16  (z : Z) : Prop := -32768 <= z < 32768.
Definition is_int32  (z : Z) : Prop := -2147483648 <= z < 2147483648.
Definition is_uint32 (z : Z) : Prop := 0 <= z < 4294967296.

(** The operators of [int] after integer promotion.  [>>] on a negative
    left operand is the arithmetic shift and [<<] yields the value
    congruent to [a * 2^n] modulo [2^32] (C++20). *)
Definition int_shr (a n : Z) : Z := Z.shiftr a n.
Definition int_shl (a n : Z) : Z := to_int32 (Z.shiftl a n).
Definition int_and (a b : Z) : Z := Z.land a b.
Definition int_or  (a b : Z) : Z := Z.lor a b.
Definition int_add (a b : Z) : Z := to_int32 (a + b).
Definition int_sub (a b : Z) : Z := to_int32 (a - b).
Definition int_mul (a b : Z) : Z := to_int32 (a * b).

End CInt.
Import CInt.

(* ================================================================== *)
(** * WavUtils.cpp: integer conversions *)
(* ================================================================== *)

(** [static_cast<uint8_t>(((sample >> 8) + 128) & 0xFF)] *)
Definition convert_int16_to_uint8 (sample : Z) : Z :=
  to_uint8 (int_and (int_add (int_shr sample 8) 128) 255).

(** [static_cast<uint8_t>(((sample >> 24) + 128) & 0xFF)] *)
Definition convert_int32_to_uint8 (sample : Z) : Z :=
  to_uint8 (int_and (int_add (int_shr sample 24) 128) 255).

(** [static_cast<int16_t>((sample - 128) * 256)] *)
Definition convert_uint8_to_int16 (sample : Z) : Z :=
  to_int16 (int_mul (int_sub sample 128) 256).

(** [static_cast<int16_t>(sample >> 16)] *)
Definition convert_int32_to_int16 (sample : Z) : Z :=
  to_int16 (int_shr sample 16).

(** [static_cast<int32_t>((sample - 128) * 65536)] *)
Definition convert_uint8_to_int24 (sample : Z) : Z :=
  to_int32 (int_mul (int_sub sample 128) 65536).

(** [static_cast<int32_t>(sample << 8)] *)
Definition convert_int16_to_int24 (sample : Z) : Z :=
  to_int32 (int_shl sample 8).

(** [static_cast<int32_t>(sample >> 8)] *)
Definition convert_int32_to_int24 (sample : Z) : Z :=
  to_int32 (int_shr sample 8).

(** [static_cast<int32_t>((sample - 128) << 24)] *)
Definition convert_uint8_to_int32 (sample : Z) : Z :=
  to_int32 (int_shl (int_sub sample 128) 24).

(** [static_cast<int32_t>(sample) << 16] *)
Definition convert_int16_to_int32 (sample : Z) : Z :=
  int_shl (to_int32 sample) 16.

(** ** The formulas of the conversion table, over the mathematical
    integers: [>>] is the flooring shift, [<<] the multiplication by a
    power of two, [&] the bitwise and. *)
Module Formula.
Definition int16_to_uint8 (x : Z) : Z := Z.land (Z.shiftr x 8 + 128) 255.
Definition int32_to_uint8 (x : Z) : Z := Z.land (Z.shiftr x 24 + 128) 255.
Definition uint8_to_int16 (x : Z) : Z := (x - 128) * 256.
Definition int32_to_int16 (x : Z) : Z := Z.shiftr x 16.
Definition uint8_to_int24 (x : Z) : Z := (x - 128) * 65536.
Definition int16_to_int24 (x : Z) : Z := Z.shiftl x 8.
Definition int32_to_int24 (x : Z) : Z := Z.shiftr x 8.
Definition uint8_to_int32 (x : Z) : Z := Z.shiftl (x - 128) 24.
Definition int16_to_int32 (x : Z) : Z := Z.shiftl x 16.
End Formula.

(* ================================================================== *)
(** * Outcomes of a C++ computation *)
(* ================================================================== *)

(** A call either returns, stops the process on a failed [assert], or
    runs into undefined behaviour (index outside a vector, division by
    zero, a float-to-integer cast whose value does not fit). *)
Inductive res (A : Type) : Type :=
| Ret (a : A)
| AssertFail
| Undefined.
Arguments Ret {A} a.
Arguments AssertFail {A}.
Arguments Undefined {A}.

Definition res_bind {A B} (m : res A) (k : A -> res B) : res B :=
  match m with
  | Ret a => k a
  | AssertFail => AssertFail
  | Undefined => Undefined
  end.

#[export] Instance res_ret : MRet res := fun _ a => Ret a.
#[export] Instance res_mbind : MBind res := fun _ _ k m => res_bind m k.

(** [for (auto i : l) body(i)] over a state [S]. *)
Fixpoint for_each {S : Type} (l : list nat) (body : nat -> S -> res S) (s : S)
  : res S :=
  match l with
  | [] => Ret s
  | i :: l' => s' ← body i s; for_each l' body s'
  end.

(** [for (size_t i = 0; i < n; ++i) body(i)] *)
Definition for_upto {S : Type} (n : nat) (body : nat -> S -> res S) (s : S)
  : res S :=
  for_each (seq 0 n) body s.

(** [l'] collects [f x] for the elements of [l], in order; the first
    element whose [f] does not return decides the outcome. *)
Fixpoint res_map {A B : Type} (f : A -> res B) (l : list A) : res (list B) :=
  match l with
  | [] => Ret []
  | x :: l' => y ← f x; ys ← res_map f l'; Ret (y :: ys)
  end.

(** [v[i]] of a [std::vector]: undefined outside the vector. *)
Definition vec_get {A : Type} (v : list A) (i : nat) : res A :=
  match v !! i with
  | Some x => Ret x
  | None => Undefined
  end.

(** [v[i] = x] of a [std::vector]: undefined outside the vector. *)
Definition vec_set {A : Type} (v : list A) (i : nat) (x : A) : res (list A) :=
  if (i <? length v)%nat then Ret (<[i := x]> v) else Undefined.

(* ================================================================== *)
(** * Bytes *)
(* ================================================================== *)

(** Little-endian value of a byte sequence. *)
Fixpoint le_combine (bs : list Z) : Z :=
  match bs with
  | [] => 0
  | b :: bs' => b + 256 * le_combine bs'
  end.

(** The [n] little-endian bytes of the object representation of [v]. *)
Fixpoint le_split (n : nat) (v : Z) : list Z :=
  match n with
  | O => []
  | S n' => v mod 256 :: le_split n' (v / 256)
  end.

(** The bytes of a string literal, without its terminator. *)
Definition chars (s : string) : list Z :=
  map (fun a => Z.of_N (N_of_ascii a)) (list_ascii_of_string s).

(** [std::strncmp(a, lit, n) == 0], [lit] a string literal: the
    comparison stops at the first difference, at a terminator, or after
    [n] characters. *)
Fixpoint strncmp_eq_aux (n : nat) (a b : list Z) : bool :=
  match n with
  | O => true
  | S n' =>
      match a, b with
      | x :: a', y :: b' =>
          if x =? y then (if x =? 0 then true else strncmp_eq_aux n' a' b')
          else false
      | _, _ => false
      end
  end.

Definition strncmp_eq (a : list Z) (lit : string) (n : nat) : bool :=
  strncmp_eq_aux n a (chars lit ++ [0]).

(** A zero-initialised [std::array<char, 4>] after [bs] was read into it. *)
Definition array4 (bs : list Z) : list Z := take 4 (bs ++ [0; 0; 0; 0]).

(* ================================================================== *)
(** * float: IEEE-754 binary32 on its bit pattern *)
(* ================================================================== *)

Module Float32.

Definition prec : Z := 24.
Definition emax : Z := 128.

Definition sign_bit (s : bool) : Z := if s then 2147483648 else 0.

Definition of_bits (b : Z) : spec_float :=
  let s := Z.testbit b 31 in
  let e := Z.land (Z.shiftr b 23) 255 in
  let m := Z.land b 8388607 in
  if e =? 0 then
    match m with
    | Zpos p => S754_finite s p (-149)
    | _ => S754_zero s
    end
  else if e =? 255 then
    (if m =? 0 then S754_infinity s else S754_nan)
  else
    match m + 8388608 with
    | Zpos p => S754_finite s p (e - 150)
    | _ => S754_zero s
    end.

Definition to_bits (f : spec_float) : Z :=
  match f with
  | S754_zero s => sign_bit s
  | S754_infinity s => sign_bit s + 2139095040
  | S754_nan => 2143289344
  | S754_finite s m e =>
      if Zpos m <? 8388608 then sign_bit s + Zpos m
      else sign_bit s + (e + 150) * 8388608 + (Zpos m - 8388608)
  end.

Definition add (a b : Z) : Z := to_bits (SFadd prec emax (of_bits a) (of_bits b)).
Definition sub (a b : Z) : Z := to_bits (SFsub prec emax (of_bits a) (of_bits b)).
Definition mul (a b : Z) : Z := to_bits (SFmul prec emax (of_bits a) (of_bits b)).
Definition div (a b : Z) : Z := to_bits (SFdiv prec emax (of_bits a) (of_bits b)).

(** [a * b + c] rounded once, as a fused multiply-add computes it: the
    product of two finite floats is kept exact and added to [c] before
    the only rounding; a product that is zero, infinite or NaN is exact
    as [SFmul] gives it. *)
Definition SFfma (x y z : spec_float) : spec_float :=
  match x, y with
  | S754_finite sx mx ex, S754_finite sy my ey =>
      match z with
      | S754_nan => S754_nan
      | S754_infinity _ => z
      | S754_zero _ => SFmul prec emax x y
      | S754_finite sz mz ez =>
          let ep := ex + ey in
          let e := Z.min ep ez in
          binary_normalize prec emax
            (cond_Zopp (xorb sx sy) (Zpos (fst (shl_align (mx * my) ep e)))
             + cond_Zopp sz (Zpos (fst (shl_align mz ez e))))
            e false
      end
  | _, _ => SFadd prec emax (SFmul prec emax x y) z
  end.

Definition fma (a b c : Z) : Z :=
  to_bits (SFfma (of_bits a) (of_bits b) (of_bits c)).

(** The float nearest to [m * 2^e] (ties to even). *)
Definition nearest (m e : Z) : Z := to_bits (binary_normalize prec emax m e false).

(** [static_cast<float>(z)] of an integer. *)
Definition of_int (z : Z) : Z := nearest z 0.

(** The integer part of a float, towards zero; none for infinities and
    NaN. *)
Definition truncate (a : Z) : option Z :=
  match of_bits a with
  | S754_zero _ => Some 0
  | S754_finite s m e =>
      let mag := if 0 <=? e then Zpos m * 2 ^ e else Zpos m / 2 ^ (- e) in
      Some (if s then - mag else mag)
  | _ => None
  end.

(** [static_cast<I>(a)] for an integer type [I] with values in
    [[lo, hi]]: undefined unless the truncated value fits. *)
Definition to_integer (lo hi : Z) (a : Z) : res Z :=
  match truncate a with
  | Some z => if (lo <=? z) && (z <=? hi) then Ret z else Undefined
  | None => Undefined
  end.

Definition to_uint8 : Z -> res Z := to_integer 0 255.
Definition to_int16 : Z -> res Z := to_integer (-32768) 32767.
Definition to_int32 : Z -> res Z := to_integer (-2147483648) 2147483647.

(** The literals of [WavUtils.cpp]. *)
Definition lit_127_5 : Z := nearest 255 (-1).
Definition lit_32767 : Z := nearest 32767 0.
Definition lit_8388607 : Z := nearest 8388607 0.
Definition lit_2147483647 : Z := nearest 2147483647 0.

End Float32.

(* ================================================================== *)
(** * WavUtils.cpp: conversions through float *)
(* ================================================================== *)

(** [(static_cast<float>(sample) - 127.5f) / 127.5f] *)
Definition convert_uint8_to_float (sample : Z) : Z :=
  Float32.div (Float32.sub (Float32.of_int sample) Float32.lit_127_5)
    Float32.lit_127_5.

(** [static_cast<float>(sample) / 32767.0f] *)
Definition convert_int16_to_float (sample : Z) : Z :=
  Float32.div (Float32.of_int sample) Float32.lit_32767.

(** [static_cast<float>(sample) / 2147483647.0f] *)
Definition convert_int32_to_float (sample : Z) : Z :=
  Float32.div (Float32.of_int sample) Float32.lit_2147483647.

(** [static_cast<uint8_t>(sample * 127.5f + 127.5f)], with the product
    and the sum each rounded to [float], as the expression is written. *)
Definition convert_float_to_uint8 (sample : Z) : res Z :=
  Float32.to_uint8
    (Float32.add (Float32.mul sample Float32.lit_127_5) Float32.lit_127_5).

(** The same expression when the implementation contracts
    [sample * 127.5f + 127.5f] into one fused multiply-add, which the
    language allows for a single expression: one rounding instead of
    two.  No other converter of [WavUtils.cpp] has a product followed by
    a sum or difference, so this is the only one with two evaluations. *)
Definition convert_float_to_uint8_contracted (sample : Z) : res Z :=
  Float32.to_uint8 (Float32.fma sample Float32.lit_127_5 Float32.lit_127_5).

(** [static_cast<int16_t>(sample * 32767.0f)] *)
Definition convert_float_to_int16 (sample : Z) : res Z :=
  Float32.to_int16 (Float32.mul sample Float32.lit_32767).

(** [static_cast<int32_t>(sample * 8388607.0f)] *)
Definition convert_float_to_int24 (sample : Z) : res Z :=
  Float32.to_int32 (Float32.mul sample Float32.lit_8388607).

(** [static_cast<int32_t>(sample * 2147483647.0f)] *)
Definition convert_float_to_int32 (sample : Z) : res Z :=
  Float32.to_int32 (Float32.mul sample Float32.lit_2147483647).

(* ================================================================== *)
(** * WavConfiguration.h *)
(* ================================================================== *)

Inductive WavFormat := PCM | FLOAT.

Definition WavFormat_value (f : WavFormat) : Z :=
  match f with PCM => 1 | FLOAT => 3 end.

Inductive WavSampleRate :=
| SAMPLE_RATE_8000 | SAMPLE_RATE_11025 | SAMPLE_RATE_16000
| SAMPLE_RATE_22050 | SAMPLE_RATE_32000 | SAMPLE_RATE_44100
| SAMPLE_RATE_48000 | SAMPLE_RATE_96000 | SAMPLE_RATE_176400
| SAMPLE_RATE_192000 | SAMPLE_RATE_352800 | SAMPLE_RATE_384000.

Definition WavSampleRate_value (r : WavSampleRate) : Z :=
  match r with
  | SAMPLE_RATE_8000 => 8000 | SAMPLE_RATE_11025 => 11025
  | SAMPLE_RATE_16000 => 16000 | SAMPLE_RATE_22050 => 22050
  | SAMPLE_RATE_32000 => 32000 | SAMPLE_RATE_44100 => 44100
  | SAMPLE_RATE_48000 => 48000 | SAMPLE_RATE_96000 => 96000
  | SAMPLE_RATE_176400 => 176400 | SAMPLE_RATE_192000 => 192000
  | SAMPLE_RATE_352800 => 352800 | SAMPLE_RATE_384000 => 384000
  end.

Inductive WavBitDepth :=
| BIT_DEPTH_8 | BIT_DEPTH_16 | BIT_DEPTH_24 | BIT_DEPTH_32.

Definition WavBitDepth_value (d : WavBitDepth) : Z :=
  match d with
  | BIT_DEPTH_8 => 8 | BIT_DEPTH_16 => 16
  | BIT_DEPTH_24 => 24 | BIT_DEPTH_32 => 32
  end.

Definition WavBitDepth_eqb (a b : WavBitDepth) : bool :=
  WavBitDepth_value a =? WavBitDepth_value b.

Record WavFileConfiguration := mkConfig {
  filename : string;
  sampleRate : WavSampleRate;
  numChannels : Z;         (* uint8_t *)
  bitDepth : WavBitDepth;
  format : WavFormat;
  blockAlign : Z;          (* uint16_t *)
  dataChunkSize : Z        (* uint32_t *)
}.

(** The member initialisers of the struct. *)
Definition default_configuration : WavFileConfiguration :=
  mkConfig "" SAMPLE_RATE_16000 1 BIT_DEPTH_32 FLOAT 0 0.

Definition num_samples (c : WavFileConfiguration) : Z :=
  if blockAlign c =? 0 then 0 else dataChunkSize c / blockAlign c.

(** The four element types accepted by [AllowedAudioDataType]. *)
Inductive SampleType := T_float | T_uint8 | T_int16 | T_int32.

Definition sizeof (T : SampleType) : nat :=
  match T with
  | T_float => 4 | T_uint8 => 1 | T_int16 => 2 | T_int32 => 4
  end%nat.

(** The value of type [T] stored in the bytes [bs] of an object. *)
Definition load (T : SampleType) (bs : list Z) : Z :=
  match T with
  | T_float => le_combine bs
  | T_uint8 => le_combine bs
  | T_int16 => to_int16 (le_combine bs)
  | T_int32 => to_int32 (le_combine bs)
  end.

(** The object representation of a value of type [T]. *)
Definition store (T : SampleType) (v : Z) : list Z :=
  le_split (sizeof T) v.

(** The bytes of a [std::vector<T>] seen as values of [T]: element [k]
    occupies bytes [k * sizeof T .. (k + 1) * sizeof T - 1]. *)
Definition element (T : SampleType) (bytes : list Z) (k : nat) : Z :=
  load T (take (sizeof T) (drop (k * sizeof T) bytes)).

(* ================================================================== *)
(** * std::ifstream *)
(* ================================================================== *)

(** The unread part of the file from the get position, [failbit] and
    the count of the last unformatted read.  [eofbit] is only ever set
    together with [failbit] by [read], so [good()] is [!fail()] here.
    The reader only moves forward: every [seekg] is relative to the
    current position with a non-negative offset. *)
Record ifstream := mkIfstream {
  in_buf : list Z;
  in_fail : bool;
  in_gcount : nat
}.

(** [s.read(p, n)]: the characters stored and the stream afterwards.  On
    a stream that is not good nothing is extracted; a read that meets the
    end of the file stores what is there and sets [failbit]. *)
Definition ifs_read (n : nat) (s : ifstream) : list Z * ifstream :=
  if in_fail s then ([], mkIfstream (in_buf s) true 0)
  else
    let got := take n (in_buf s) in
    (got, mkIfstream (drop n (in_buf s)) (length got <? n)%nat (length got)).

(** [s.seekg(off, std::ios::cur)], [off >= 0]: nothing on a failed
    stream; a file position past the end is allowed, reading there
    extracts nothing. [gcount] is kept. *)
Definition ifs_seekg_cur (off : Z) (s : ifstream) : ifstream :=
  if in_fail s then s
  else mkIfstream (drop (Z.to_nat off) (in_buf s)) false (in_gcount s).

(** A file system: the content of the file at a path, if it can be
    opened for reading. *)
Definition filesystem := string -> option (list Z).

(* ================================================================== *)
(** * WavReader *)
(* ================================================================== *)

Module Reader.

Record WavReader := mkReader {
  r_config : WavFileConfiguration;
  r_fileStream : ifstream
}.

Definition with_stream (r : WavReader) (s : ifstream) : WavReader :=
  mkReader (r_config r) s.

(** The guard of [static_cast<WavFormat>(audioFormat)]. *)
Definition WavFormat_of (audioFormat : Z) : option WavFormat :=
  if (audioFormat =? 1) then Some PCM
  else if (audioFormat =? 3) then Some FLOAT
  else None.

(** The guard of [static_cast<WavBitDepth>(bitDepth)]. *)
Definition WavBitDepth_of (bitDepth : Z) : option WavBitDepth :=
  if bitDepth =? 8 then Some BIT_DEPTH_8
  else if bitDepth =? 16 then Some BIT_DEPTH_16
  else if bitDepth =? 24 then Some BIT_DEPTH_24
  else if bitDepth =? 32 then Some BIT_DEPTH_32
  else None.

(** The guard of [static_cast<WavSampleRate>(sampleRate)]. *)
Definition WavSampleRate_of (sampleRate : Z) : option WavSampleRate :=
  if sampleRate =? 8000 then Some SAMPLE_RATE_8000
  else if sampleRate =? 11025 then Some SAMPLE_RATE_11025
  else if sampleRate =? 16000 then Some SAMPLE_RATE_16000
  else if sampleRate =? 22050 then Some SAMPLE_RATE_22050
  else if sampleRate =? 32000 then Some SAMPLE_RATE_32000
  else if sampleRate =? 44100 then Some SAMPLE_RATE_44100
  else if sampleRate =? 48000 then Some SAMPLE_RATE_48000
  else if sampleRate =? 96000 then Some SAMPLE_RATE_96000
  else if sampleRate =? 176400 then Some SAMPLE_RATE_176400
  else if sampleRate =? 192000 then Some SAMPLE_RATE_192000
  else if sampleRate =? 352800 then Some SAMPLE_RATE_352800
  else if sampleRate =? 384000 then Some SAMPLE_RATE_384000
  else None.

(** The four assignments to [m_config] in the [fmt ] branch, each
    guarded; [None] is [return false].  [numChannels] is a [uint16_t]
    stored into the [uint8_t] member. *)
Definition assign_fmt (c : WavFileConfiguration)
    (audioFormat numChannels' sampleRate' blockAlign' bitDepth' : Z)
  : option WavFileConfiguration :=
  match WavFormat_of audioFormat with
  | None => None
  | Some f =>
      if negb (0 <? numChannels') then None
      else
        match WavBitDepth_of bitDepth' with
        | None => None
        | Some d =>
            match WavSampleRate_of sampleRate' with
            | None => None
            | Some sr =>
                let c' := mkConfig (filename c) sr (to_uint8 numChannels') d f
                            blockAlign' (dataChunkSize c) in
                match f, d with
                | FLOAT, BIT_DEPTH_32 => Some c'
                | FLOAT, _ => None
                | PCM, _ => Some c'
                end
            end
        end
  end.

(** [(subchunkSize + 1) & ~1] in [uint32_t]. *)
Definition skip_amount (subchunkSize : Z) : Z :=
  Z.land (to_uint32 (subchunkSize + 1)) (to_uint32 (Z.lnot 1)).

(** How the header scan ends. *)
Inductive scan_result :=
| OutOfFuel
| Returned (ok : bool) (r : WavReader).

(** The [while] loop of [read_header]; one unit of fuel per iteration. *)
Fixpoint scan_chunks (fuel : nat) (foundFmt foundData : bool) (r : WavReader)
  : scan_result :=
  match fuel with
  | O => OutOfFuel
  | S fuel' =>
    let fs := r_fileStream r in
    if negb (in_fail fs) && (negb foundFmt || negb foundData) then
      let '(subchunkId, fs1) := ifs_read 4 fs in
      let subchunkId := array4 subchunkId in
      if negb (in_gcount fs1 =? 4)%nat then
        Returned (foundFmt && foundData) (with_stream r fs1)
      else
        let '(sizeBytes, fs2) := ifs_read 4 fs1 in
        let subchunkSize := le_combine sizeBytes in
        if strncmp_eq subchunkId "fmt " 4 then
          let '(b, fs3) := ifs_read 2 fs2 in let audioFormat := le_combine b in
          let '(b, fs4) := ifs_read 2 fs3 in let numChannels' := le_combine b in
          let '(b, fs5) := ifs_read 4 fs4 in let sampleRate' := le_combine b in
          let '(b, fs6) := ifs_read 4 fs5 in
          let '(b, fs7) := ifs_read 2 fs6 in let blockAlign' := le_combine b in
          let '(b, fs8) := ifs_read 2 fs7 in let bitDepth' := le_combine b in
          let fmtExtraBytes := subchunkSize - 16 in
          let fs9 := if 0 <? fmtExtraBytes then ifs_seekg_cur fmtExtraBytes fs8
                     else fs8 in
          match assign_fmt (r_config r) audioFormat numChannels' sampleRate'
                  blockAlign' bitDepth' with
          | None => Returned false (with_stream r fs9)
          | Some c =>
              if in_fail fs9 then Returned false (mkReader c fs9)
              else scan_chunks fuel' true foundData (mkReader c fs9)
          end
        else if strncmp_eq subchunkId "data" 4 then
          let c := r_config r in
          let c' := mkConfig (filename c) (sampleRate c) (numChannels c)
                      (bitDepth c) (format c) (blockAlign c) subchunkSize in
          if in_fail fs2 then Returned false (mkReader c' fs2)
          else scan_chunks fuel' foundFmt true (mkReader c' fs2)
        else
          let fs3 := ifs_seekg_cur (skip_amount subchunkSize) fs2 in
          if in_fail fs3 then Returned false (with_stream r fs3)
          else scan_chunks fuel' foundFmt foundData (with_stream r fs3)
    else Returned (foundFmt && foundData) r
  end.

(** [WavReader::read_header].  Every iteration of the loop that goes on
    has extracted a 4-byte id, so one more unit of fuel than there are
    unread bytes is enough. *)
Definition read_header (r : WavReader) : scan_result :=
  let '(chunkId, fs1) := ifs_read 4 (r_fileStream r) in
  if negb (strncmp_eq (array4 chunkId) "RIFF" 4) then
    Returned false (with_stream r fs1)
  else
    let '(_, fs2) := ifs_read 4 fs1 in
    let '(format', fs3) := ifs_read 4 fs2 in
    if negb (strncmp_eq (array4 format') "WAVE" 4) then
      Returned false (with_stream r fs3)
    else
      scan_chunks (S (length (in_buf fs3))) false false (with_stream r fs3).

(** [WavReader::open_file] on the file system [fs]. *)
Definition open_file (fs : filesystem) (r : WavReader) : scan_result :=
  match fs (filename (r_config r)) with
  | None => Returned false r
  | Some content => read_header (with_stream r (mkIfstream content false 0))
  end.

(** [WavReader::create]: [None] is [std::nullopt]. *)
Definition create (fs : filesystem) (name : string) : option WavReader :=
  let c := default_configuration in
  let obj := mkReader
               (mkConfig name (sampleRate c) (numChannels c) (bitDepth c)
                  (format c) (blockAlign c) (dataChunkSize c))
               (mkIfstream [] true 0) in
  match open_file fs obj with
  | Returned true r => Some r
  | _ => None
  end.

(** ** Typed reads *)

(** The planar buffers filled by
    [for i < frames, for j < nc: out[j][i] = interleaved[i * nc + j]];
    every cell is assigned once, at its own index. *)
Definition deinterleave (nc frames : nat) (interleaved : nat -> Z)
  : list (list Z) :=
  map (fun j => map (fun i => interleaved (i * nc + j)%nat) (seq 0 frames))
    (seq 0 nc).

(** A zero-initialised buffer of [n] bytes after [got] was read into it. *)
Definition filled (n : nat) (got : list Z) : list Z :=
  got ++ replicate (n - length got) 0.

(** [WavReader::read_samples<T>]. Dividing by a channel count of zero is
    undefined.  [count * nc] and the byte count are the products the
    source computes in [size_t] as long as they do not wrap, which is the
    case for every request that [request_fits] below admits; the
    statements about requests of any size carry that bound. *)
Definition read_samples (T : SampleType) (count : nat) (r : WavReader)
  : res (list (list Z) * WavReader) :=
  let nc := Z.to_nat (numChannels (r_config r)) in
  let bytes := (count * nc * sizeof T)%nat in
  let '(got, fs') := ifs_read bytes (r_fileStream r) in
  let interleavedSamples := filled bytes got in
  let samplesRead := (in_gcount fs' / sizeof T)%nat in
  if (nc =? 0)%nat then Undefined
  else
    let framesRead := (samplesRead / nc)%nat in
    Ret (deinterleave nc framesRead (element T interleavedSamples),
         with_stream r fs').

(** [WavReader::read_raw_samples]: the whole buffer is returned, read or
    not. *)
Definition read_raw_samples (byteCount : nat) (r : WavReader)
  : list Z * WavReader :=
  let '(got, fs') := ifs_read byteCount (r_fileStream r) in
  (filled byteCount got, with_stream r fs').

(** [WavReader::convert_samples<From, To>]: [input[0]] of an empty vector
    is undefined; every channel is walked over the length of the first. *)
Definition convert_samples (converter : Z -> res Z) (input : list (list Z))
  : res (list (list Z)) :=
  match input with
  | [] => Undefined
  | first :: _ =>
      let count := length first in
      res_map
        (fun channel =>
           res_map (fun i => x ← vec_get channel i; converter x)
             (seq 0 count))
        input
  end.

(** A converter that always returns. *)
Definition total (f : Z -> Z) : Z -> res Z := fun x => Ret (f x).

(** The implicit conversion of a [float] to the element type [T] in
    [output[j][i] = converter(input[j][i])]. *)
Definition float_as (T : SampleType) (x : Z) : res Z :=
  match T with
  | T_float => Ret x
  | T_uint8 => Float32.to_uint8 x
  | T_int16 => Float32.to_int16 x
  | T_int32 => Float32.to_int32 x
  end.

(** The 24-bit sample of three bytes, sign-extended:
    [(b0 & 0xFF) | ((b1 & 0xFF) << 8) | ((b2 & 0xFF) << 16)], then
    [(sample & 0x800000) ? static_cast<int32_t>(sample | 0xFF000000)
                         : sample]. *)
Definition assemble24 (b0 b1 b2 : Z) : Z :=
  let sample :=
    int_or (int_or (int_and b0 255) (int_shl (int_and b1 255) 8))
      (int_shl (int_and b2 255) 16) in
  if negb (int_and sample 8388608 =? 0)
  then to_int32 (Z.lor (to_uint32 sample) 4278190080)
  else sample.

(** The converter each branch of [read<T>] hands to [convert_samples];
    [None] where the branch returns the samples as they are. *)
Definition from_float (T : SampleType) : option (Z -> res Z) :=
  match T with
  | T_float => None
  | T_uint8 => Some convert_float_to_uint8
  | T_int16 => Some convert_float_to_int16
  | T_int32 => Some convert_float_to_int32
  end.

Definition from_uint8 (T : SampleType) : option (Z -> res Z) :=
  match T with
  | T_float => Some (total convert_uint8_to_float)
  | T_uint8 => None
  | T_int16 => Some (total convert_uint8_to_int16)
  | T_int32 => Some (total convert_uint8_to_int32)
  end.

Definition from_int16 (T : SampleType) : option (Z -> res Z) :=
  match T with
  | T_float => Some (total convert_int16_to_float)
  | T_uint8 => Some (total convert_int16_to_uint8)
  | T_int16 => None
  | T_int32 => Some (total convert_int16_to_int32)
  end.

Definition from_int32 (T : SampleType) : option (Z -> res Z) :=
  match T with
  | T_float => Some (total convert_int32_to_float)
  | T_uint8 => Some (total convert_int32_to_uint8)
  | T_int16 => Some (total convert_int32_to_int16)
  | T_int32 => None
  end.

Definition converted (conv : option (Z -> res Z))
    (sr : list (list Z) * WavReader) : res (list (list Z) * WavReader) :=
  match conv with
  | None => Ret sr
  | Some f => out ← convert_samples f (fst sr); Ret (out, snd sr)
  end.

(** [WavReader::read<T>]. *)
Definition read (T : SampleType) (count : nat) (r : WavReader)
  : res (list (list Z) * WavReader) :=
  match format (r_config r) with
  | FLOAT => sr ← read_samples T_float count r; converted (from_float T) sr
  | PCM =>
      match bitDepth (r_config r) with
      | BIT_DEPTH_8 =>
          sr ← read_samples T_uint8 count r; converted (from_uint8 T) sr
      | BIT_DEPTH_16 =>
          sr ← read_samples T_int16 count r; converted (from_int16 T) sr
      | BIT_DEPTH_24 =>
          let nc := Z.to_nat (numChannels (r_config r)) in
          let '(interleavedSamples, r') :=
            read_raw_samples (count * nc * 3) r in
          let samples :=
            deinterleave nc count
              (fun k => assemble24 (nth (k * 3) interleavedSamples 0)
                          (nth (k * 3 + 1) interleavedSamples 0)
                          (nth (k * 3 + 2) interleavedSamples 0)) in
          converted
            (Some (fun x => float_as T (convert_int32_to_float x)))
            (samples, r')
      | BIT_DEPTH_32 =>
          sr ← read_samples T_int32 count r; converted (from_int32 T) sr
      end
  end.

End Reader.

(* ================================================================== *)
(** * std::ofstream *)
(* ================================================================== *)

(** The file behind the stream, the put position and whether the stream
    is open.  Output on a stream that is not open leaves the file as it
    is.  Failures of the device are not modelled. *)
Record ofstream := mkOfstream {
  out_open : bool;
  out_data : list Z;
  out_pos : nat
}.

(** The file [data] after [bytes] were stored from offset [pos] on. *)
Definition overwrite (data : list Z) (pos : nat) (bytes : list Z) : list Z :=
  take pos data ++ replicate (pos - length data) 0 ++ bytes
    ++ drop (pos + length bytes) data.

Definition ofs_write (bytes : list Z) (s : ofstream) : ofstream :=
  if out_open s
  then mkOfstream true (overwrite (out_data s) (out_pos s) bytes)
         (out_pos s + length bytes)
  else s.

(** [s.seekp(pos, std::ios::beg)] *)
Definition ofs_seekp (pos : nat) (s : ofstream) : ofstream :=
  if out_open s then mkOfstream true (out_data s) pos else s.

Definition ofs_close (s : ofstream) : ofstream :=
  mkOfstream false (out_data s) (out_pos s).

(** The unsigned 32-bit little-endian field at byte offset [off]. *)
Definition u32_at (off : nat) (data : list Z) : Z :=
  le_combine (take 4 (drop off data)).

(* ================================================================== *)
(** * WavWriter *)
(* ================================================================== *)

Module Writer.

Record WavWriter := mkWriter {
  m_config : WavFileConfiguration;
  m_fileStream : ofstream;
  m_totalFileSize : Z      (* uint32_t *)
}.

Definition with_stream (w : WavWriter) (s : ofstream) : WavWriter :=
  mkWriter (m_config w) s (m_totalFileSize w).

(** [WavWriter::write_header] *)
Definition write_header (w : WavWriter) : WavWriter :=
  let c := m_config w in
  let sampleRate := to_uint32 (WavSampleRate_value (sampleRate c)) in
  let numChannels := to_uint16 (numChannels c) in
  let bitDepth := to_uint16 (WavBitDepth_value (bitDepth c)) in
  let chunkSize := 0 in
  let subchunk1Size := 16 in
  let audioFormat := to_uint16 (WavFormat_value (format c)) in
  let byteRate := to_uint32 (sampleRate * numChannels * (bitDepth / 8)) in
  let blockAlign := to_uint16 (numChannels * (bitDepth / 8)) in
  let subchunk2Size := 0 in
  let s := m_fileStream w in
  let s := ofs_write (chars "RIFF") s in
  let s := ofs_write (le_split 4 chunkSize) s in
  let s := ofs_write (chars "WAVE") s in
  let s := ofs_write (chars "fmt ") s in
  let s := ofs_write (le_split 4 subchunk1Size) s in
  let s := ofs_write (le_split 2 audioFormat) s in
  let s := ofs_write (le_split 2 numChannels) s in
  let s := ofs_write (le_split 4 sampleRate) s in
  let s := ofs_write (le_split 4 byteRate) s in
  let s := ofs_write (le_split 2 blockAlign) s in
  let s := ofs_write (le_split 2 bitDepth) s in
  let s := ofs_write (chars "data") s in
  let s := ofs_write (le_split 4 subchunk2Size) s in
  with_stream w s.

(** [WavWriter::finalize_header] *)
Definition finalize_header (w : WavWriter) : WavWriter :=
  let chunkSize := to_uint32 (36 + m_totalFileSize w) in
  let s := m_fileStream w in
  let s := ofs_seekp 4 s in
  let s := ofs_write (le_split 4 chunkSize) s in
  let s := ofs_seekp 40 s in
  let s := ofs_write (le_split 4 (m_totalFileSize w)) s in
  with_stream w s.

(** [WavWriter::close_file] *)
Definition close_file (w : WavWriter) : WavWriter :=
  if negb (out_open (m_fileStream w)) then w
  else
    let w := finalize_header w in
    with_stream w (ofs_close (m_fileStream w)).

(** [WavWriter::~WavWriter] *)
Definition destructor (w : WavWriter) : WavWriter :=
  if out_open (m_fileStream w) then close_file w else w.

(** [WavWriter(WavWriter &&other)]: the configuration and the stream are
    moved from [other]; [m_totalFileSize] is not in the initializer list
    and takes its default member initializer, 0.  The moved-from stream
    is not open, so the destructor of [other] does nothing. *)
Definition move_constructor (other : WavWriter) : WavWriter :=
  mkWriter (m_config other) (m_fileStream other) 0.

(** [operator=(WavWriter &&other)] on a different object [this]: the
    configuration and the stream are moved from [other], and
    [m_totalFileSize] of [this] is left as it is. *)
Definition move_assignment (this other : WavWriter) : WavWriter :=
  mkWriter (m_config other) (m_fileStream other) (m_totalFileSize this).

(** [WavWriter::open_file]; [openable] tells whether the path can be
    opened for writing, which truncates the file. *)
Definition open_file (openable : bool) (w : WavWriter) : bool * WavWriter :=
  if negb openable then (false, w)
  else (true, write_header (with_stream w (mkOfstream true [] 0))).

(** [WavWriter::create]: [None] is [std::nullopt]. *)
Definition create (openable : bool) (configuration : WavFileConfiguration)
  : option WavWriter :=
  let obj := mkWriter configuration (mkOfstream false [] 0) 0 in
  let '(ok, obj) := open_file openable obj in
  if negb ok then None else Some obj.

(** [WavWriter::write_samples<T>] *)
Definition write_samples (T : SampleType) (formattedSamples : list Z)
    (ignoreSize : bool) (w : WavWriter) : WavWriter :=
  let s := ofs_write (concat (map (store T) formattedSamples))
             (m_fileStream w) in
  let size := Z.of_nat (length formattedSamples) in
  let added := if ignoreSize then size else size * Z.of_nat (sizeof T) in
  mkWriter (m_config w) s (to_uint32 (m_totalFileSize w + added)).

(** The [if constexpr] chains: the converter from the caller's element
    type to the representation on disk. *)
Definition to_float32 (DataType : SampleType) : Z -> res Z :=
  match DataType with
  | T_float => Ret
  | T_uint8 => fun x => Ret (convert_uint8_to_float x)
  | T_int16 => fun x => Ret (convert_int16_to_float x)
  | T_int32 => fun x => Ret (convert_int32_to_float x)
  end.

Definition to_pcm8 (DataType : SampleType) : Z -> res Z :=
  match DataType with
  | T_float => convert_float_to_uint8
  | T_uint8 => Ret
  | T_int16 => fun x => Ret (convert_int16_to_uint8 x)
  | T_int32 => fun x => Ret (convert_int32_to_uint8 x)
  end.

Definition to_pcm16 (DataType : SampleType) : Z -> res Z :=
  match DataType with
  | T_float => convert_float_to_int16
  | T_uint8 => fun x => Ret (convert_uint8_to_int16 x)
  | T_int16 => Ret
  | T_int32 => fun x => Ret (convert_int32_to_int16 x)
  end.

Definition to_pcm24 (DataType : SampleType) : Z -> res Z :=
  match DataType with
  | T_float => convert_float_to_int24
  | T_uint8 => fun x => Ret (convert_uint8_to_int24 x)
  | T_int16 => fun x => Ret (convert_int16_to_int24 x)
  | T_int32 => fun x => Ret (convert_int32_to_int24 x)
  end.

Definition to_pcm32 (DataType : SampleType) : Z -> res Z :=
  match DataType with
  | T_float => convert_float_to_int32
  | T_uint8 => fun x => Ret (convert_uint8_to_int32 x)
  | T_int16 => fun x => Ret (convert_int16_to_int32 x)
  | T_int32 => Ret
  end.

(** [sampleArrays[ch][i]] *)
Definition sample_of (sampleArrays : list (list Z)) (ch i : nat) : res Z :=
  arr ← vec_get sampleArrays ch; vec_get arr i.

(** The loop shared, up to the converter, by [write_to_float32],
    [write_to_pcm8], [write_to_pcm16] and [write_to_pcm32]:
    [interleavedSamples[i * numChannels + ch] = conv(sampleArrays[ch][i])]. *)
Definition interleave (conv : Z -> res Z) (sampleArrays : list (list Z))
    (count nc : nat) : res (list Z) :=
  for_upto count
    (fun i buf =>
       for_upto nc
         (fun ch buf =>
            x ← sample_of sampleArrays ch i;
            y ← conv x;
            vec_set buf (i * nc + ch)%nat y)
         buf)
    (replicate (count * nc) 0).

Definition channels (w : WavWriter) : nat :=
  Z.to_nat (numChannels (m_config w)).

Definition write_to_float32 (DataType : SampleType)
    (sampleArrays : list (list Z)) (count : nat) (w : WavWriter)
  : res WavWriter :=
  if negb (WavBitDepth_eqb (bitDepth (m_config w)) BIT_DEPTH_32)
  then AssertFail
  else
    buf ← interleave (to_float32 DataType) sampleArrays count (channels w);
    Ret (write_samples T_float buf false w).

Definition write_to_pcm8 (DataType : SampleType)
    (sampleArrays : list (list Z)) (count : nat) (w : WavWriter)
  : res WavWriter :=
  buf ← interleave (to_pcm8 DataType) sampleArrays count (channels w);
  Ret (write_samples T_uint8 buf false w).

Definition write_to_pcm16 (DataType : SampleType)
    (sampleArrays : list (list Z)) (count : nat) (w : WavWriter)
  : res WavWriter :=
  buf ← interleave (to_pcm16 DataType) sampleArrays count (channels w);
  Ret (write_samples T_int16 buf false w).

(** The byte index used by [write_to_pcm24] for byte [k] of the sample of
    frame [i], channel [ch]:
    [((i * numChannels + ch) * 3 + k) * numChannels + ch]. *)
Definition pcm24_index (nc i ch k : nat) : nat :=
  (((i * nc + ch) * 3 + k) * nc + ch)%nat.

(** The body of the inner loop of [write_to_pcm24]. *)
Definition pcm24_store (DataType : SampleType) (sampleArrays : list (list Z))
    (nc i ch : nat) (buf : list Z) : res (list Z) :=
  x ← sample_of sampleArrays ch i;
  sample ← to_pcm24 DataType x;
  buf ← vec_set buf (pcm24_index nc i ch 0)
          (to_uint8 (int_and sample 255));
  buf ← vec_set buf (pcm24_index nc i ch 1)
          (to_uint8 (int_and (int_shr sample 8) 255));
  vec_set buf (pcm24_index nc i ch 2)
    (to_uint8 (int_and (int_shr sample 16) 255)).

Definition write_to_pcm24 (DataType : SampleType)
    (sampleArrays : list (list Z)) (count : nat) (w : WavWriter)
  : res WavWriter :=
  let nc := channels w in
  buf ← for_upto count
    (fun i buf => for_upto nc (pcm24_store DataType sampleArrays nc i) buf)
    (replicate (count * nc * 3) 0);
  Ret (write_samples T_uint8 buf true w).

Definition write_to_pcm32 (DataType : SampleType)
    (sampleArrays : list (list Z)) (count : nat) (w : WavWriter)
  : res WavWriter :=
  buf ← interleave (to_pcm32 DataType) sampleArrays count (channels w);
  Ret (write_samples T_int32 buf false w).

(** [WavWriter::write_buffer] *)
Definition write_buffer (DataType : SampleType)
    (sampleArrays : list (list Z)) (count : nat) (w : WavWriter)
  : res WavWriter :=
  match format (m_config w) with
  | FLOAT => write_to_float32 DataType sampleArrays count w
  | PCM =>
      match bitDepth (m_config w) with
      | BIT_DEPTH_8 => write_to_pcm8 DataType sampleArrays count w
      | BIT_DEPTH_16 => write_to_pcm16 DataType sampleArrays count w
      | BIT_DEPTH_24 => write_to_pcm24 DataType sampleArrays count w
      | BIT_DEPTH_32 => write_to_pcm32 DataType sampleArrays count w
      end
  end.

(** [WavWriter::write<T>(count, samples, rest...)]; [sampleArrays] holds
    the channel arrays the pointers [samples, rest...] point to. *)
Definition write (DataType : SampleType) (count : nat)
    (sampleArrays : list (list Z)) (w : WavWriter) : res WavWriter :=
  let num_arrays := Z.of_nat (length sampleArrays) in
  if negb (num_arrays =? numChannels (m_config w)) then AssertFail
  else write_buffer DataType sampleArrays count w.

End Writer.

(* ================================================================== *)
(** * File layouts named in the statements *)
(* ================================================================== *)

Definition is_uint16 (z : Z) : Prop := 0 <= z < 65536.

(** The bytes of a chunk header. *)
Definition chunk_header (id : list Z) (size : Z) : list Z :=
  id ++ le_split 4 size.

(** The sixteen canonical bytes of a [fmt ] chunk. *)
Definition fmt_fields (audioFormat nch rate byteRate align depth : Z)
  : list Z :=
  le_split 2 audioFormat ++ le_split 2 nch ++ le_split 4 rate
    ++ le_split 4 byteRate ++ le_split 2 align ++ le_split 2 depth.

(** An id that is neither [fmt ] nor [data]. *)
Definition other_id (id : list Z) : Prop :=
  length id = 4%nat /\ strncmp_eq id "fmt " 4 = false
  /\ strncmp_eq id "data" 4 = false.

(** What the scan can walk over before it meets a [fmt ] chunk: a chunk
    of another kind, laid out with as many bytes after its header as the
    reader skips for it, or the header of a data chunk. *)
Inductive scanned :=
| Skipped (id : list Z) (size : Z) (payload : list Z)
| DataHeader (size : Z).

Definition scanned_bytes (x : scanned) : list Z :=
  match x with
  | Skipped id size payload => chunk_header id size ++ payload
  | DataHeader size => chunk_header (chars "data") size
  end.

Definition scanned_ok (x : scanned) : Prop :=
  match x with
  | Skipped id size payload =>
      other_id id /\ is_uint32 size
      /\ length payload = Z.to_nat (Reader.skip_amount size)
  | DataHeader size => is_uint32 size
  end.

Definition is_skipped (x : scanned) : Prop :=
  match x with Skipped _ _ _ => True | DataHeader _ => False end.

(** [gcount] once the scan has walked over [xs]: the four bytes of the
    last size field, or what it was before. *)
Definition gcount_after (xs : list scanned) (g : nat) : nat :=
  match xs with [] => g | _ => 4%nat end.



(** The beginning of every RIFF/WAVE file; the four bytes of the RIFF
    size are not looked at. *)
Definition riff_wave (riffSize : list Z) : list Z :=
  chars "RIFF" ++ riffSize ++ chars "WAVE".

(** The canonical 44-byte header followed by the payload. *)
Definition wav_file (audioFormat nch rate depth : Z) (payload : list Z)
  : list Z :=
  riff_wave (le_split 4 (36 + Z.of_nat (length payload)))
    ++ chunk_header (chars "fmt ") 16
    ++ fmt_fields audioFormat nch rate (rate * nch * (depth / 8))
         (nch * (depth / 8)) depth
    ++ chunk_header (chars "data") (Z.of_nat (length payload))
    ++ payload.

(** A file system with one file. *)
Definition single_file (content : list Z) : filesystem :=
  fun _ => Some content.

(** A header in which a chunk of another kind declares the largest
    32-bit size and is directly followed by the [fmt ] and data chunks. *)
Definition largest_size_file : list Z :=
  riff_wave [0; 0; 0; 0]
    ++ chunk_header (chars "JUNK") 4294967295
    ++ chunk_header (chars "fmt ") 16
    ++ fmt_fields 1 1 44100 88200 2 16
    ++ chunk_header (chars "data") 2
    ++ [1; 0].

(** The element type that holds a sample of the file as it is stored. *)
Definition native_type (c : WavFileConfiguration) : SampleType :=
  match format c, bitDepth c with
  | FLOAT, _ => T_float
  | PCM, BIT_DEPTH_8 => T_uint8
  | PCM, BIT_DEPTH_16 => T_int16
  | PCM, BIT_DEPTH_24 => T_int32
  | PCM, BIT_DEPTH_32 => T_int32
  end.

Definition is_pcm24 (c : WavFileConfiguration) : bool :=
  match format c, bitDepth c with
  | PCM, BIT_DEPTH_24 => true
  | _, _ => false
  end.

(** The entry of the conversion table from the element type [S] to the
    element type [T]; the diagonal is the identity. *)
Definition matrix (S T : SampleType) : Z -> res Z :=
  match S, T with
  | T_float, T_float => Ret
  | T_float, T_uint8 => convert_float_to_uint8
  | T_float, T_int16 => convert_float_to_int16
  | T_float, T_int32 => convert_float_to_int32
  | T_uint8, T_float => fun x => Ret (convert_uint8_to_float x)
  | T_uint8, T_uint8 => Ret
  | T_uint8, T_int16 => fun x => Ret (convert_uint8_to_int16 x)
  | T_uint8, T_int32 => fun x => Ret (convert_uint8_to_int32 x)
  | T_int16, T_float => fun x => Ret (convert_int16_to_float x)
  | T_int16, T_uint8 => fun x => Ret (convert_int16_to_uint8 x)
  | T_int16, T_int16 => Ret
  | T_int16, T_int32 => fun x => Ret (convert_int16_to_int32 x)
  | T_int32, T_float => fun x => Ret (convert_int32_to_float x)
  | T_int32, T_uint8 => fun x => Ret (convert_int32_to_uint8 x)
  | T_int32, T_int16 => fun x => Ret (convert_int32_to_int16 x)
  | T_int32, T_int32 => Ret
  end.

(** Whole frames among [avail] unread bytes, at most [count]. *)
Definition frames_available (c : WavFileConfiguration) (T : SampleType)
    (count avail : nat) : nat :=
  (count `min` (avail / (Z.to_nat (numChannels c) * sizeof T)))%nat.

(** Bytes one sample takes on disk: three for 24-bit PCM, the size of the
    element type written otherwise. *)
Definition disk_sample_bytes (c : WavFileConfiguration) : Z :=
  match format c, bitDepth c with
  | FLOAT, _ => 4
  | PCM, BIT_DEPTH_8 => 1
  | PCM, BIT_DEPTH_16 => 2
  | PCM, BIT_DEPTH_24 => 3
  | PCM, BIT_DEPTH_32 => 4
  end.

(** One call [write<T>(count, arrays...)]. *)
Record write_call := mkCall {
  call_type : SampleType;
  call_count : nat;
  call_arrays : list (list Z)
}.

(** A sequence of calls on one writer. *)
Fixpoint run_writes (calls : list write_call) (w : Writer.WavWriter)
  : res Writer.WavWriter :=
  match calls with
  | [] => Ret w
  | call :: calls' =>
      w' ← Writer.write (call_type call) (call_count call)
             (call_arrays call) w;
      run_writes calls' w'
  end.

(** Bytes of payload of a sequence of calls under a configuration. *)
Fixpoint payload_bytes (c : WavFileConfiguration) (calls : list write_call)
  : Z :=
  match calls with
  | [] => 0
  | call :: calls' =>
      Z.of_nat (call_count call) * numChannels c * disk_sample_bytes c
      + payload_bytes c calls'
  end.

(** The file of a writer. *)
Definition file_of (w : Writer.WavWriter) : list Z :=
  out_data (Writer.m_fileStream w).

Definition float16_configuration : WavFileConfiguration :=
  mkConfig "float16.wav" SAMPLE_RATE_44100 1 BIT_DEPTH_16 FLOAT 0 0.

Definition stereo24_configuration : WavFileConfiguration :=
  mkConfig "stereo24.wav" SAMPLE_RATE_44100 2 BIT_DEPTH_24 PCM 0 0.

Definition mono24_configuration : WavFileConfiguration :=
  mkConfig "mono24.wav" SAMPLE_RATE_44100 1 BIT_DEPTH_24 PCM 0 0.

(** The offset the interleaved layout gives byte [k] of the sample of
    frame [i], channel [ch]: three bytes a sample, frame after frame. *)
Definition packed_offset (nc i ch k : nat) : nat :=
  ((i * nc + ch) * 3 + k)%nat.

(** The three little-endian bytes of a 24-bit carrier. *)
Definition bytes24 (sample : Z) : list Z :=
  [Z.land sample 255; Z.land (Z.shiftr sample 8) 255;
   Z.land (Z.shiftr sample 16) 255].

(** The payload of 24-bit samples laid out one after the other. *)
Definition packed24 (samples : list Z) : list Z :=
  concat (map bytes24 samples).

(** The input element types whose conversion to a 24-bit carrier is an
    integer computation. *)
Definition integer_type (T : SampleType) : Prop := T <> T_float.

(** [convert_*_to_int24] for the integer element types. *)
Definition int24_of (T : SampleType) (x : Z) : Z :=
  match T with
  | T_uint8 => convert_uint8_to_int24 x
  | T_int16 => convert_int16_to_int24 x
  | _ => convert_int32_to_int24 x
  end.

(** The three bytes [write_to_pcm24] computes for a sample [x] of the
    integer element type [T]. *)
Definition stored24 (T : SampleType) (x : Z) : list Z :=
  [to_uint8 (int_and (int24_of T x) 255);
   to_uint8 (int_and (int_shr (int24_of T x) 8) 255);
   to_uint8 (int_and (int_shr (int24_of T x) 16) 255)].

(** The invariant of a configuration: FLOAT samples are 32 bits wide. *)
Definition float_is_32bit (c : WavFileConfiguration) : Prop :=
  format c = FLOAT -> bitDepth c = BIT_DEPTH_32.

(* ================================================================== *)
(** * Further notions used in the statements *)
(* ================================================================== *)

(** The values a 24-bit two's complement sample can take. *)
Definition is_int24 (z : Z) : Prop := -8388608 <= z < 8388608.

(** [f x] returns [x], as a test. *)
Definition returns_itself (f : Z -> res Z) (x : Z) : bool :=
  match f x with
  | Ret y => y =? x
  | _ => false
  end.

(** [f x] is undefined, as a test. *)
Definition is_undefined (f : Z -> res Z) (x : Z) : bool :=
  match f x with
  | Undefined => true
  | _ => false
  end.

(** [test] holds of the [n] integers from [lo] on. *)
Definition holds_on (test : Z -> bool) (lo : Z) (n : nat) : bool :=
  forallb (fun k => test (lo + Z.of_nat k)) (seq 0 n).

Definition uint8_through_float (x : Z) : res Z :=
  convert_float_to_uint8 (convert_uint8_to_float x).

Definition int32_through_float (x : Z) : res Z :=
  convert_float_to_int32 (convert_int32_to_float x).

(** The round trip of an 8-bit sample when the way back is evaluated
    with one fused multiply-add. *)
Definition uint8_through_float_contracted (x : Z) : res Z :=
  convert_float_to_uint8_contracted (convert_uint8_to_float x).

(** [f x] returns [g x], as a test. *)
Definition returns_as (f : Z -> res Z) (g : Z -> Z) (x : Z) : bool :=
  match f x with
  | Ret y => y =? g x
  | _ => false
  end.

(** One less for the samples from 1 to 63, the sample itself otherwise. *)
Definition one_lower_up_to_63 (x : Z) : Z :=
  if (1 <=? x) && (x <=? 63) then x - 1 else x.

(** The range of [size_t], and of the sizes a vector or a
    [streamsize] can take. *)
Definition size_t_range : Z := 2 ^ 64.
Definition ptrdiff_max : Z := 2 ^ 63 - 1.

(** [a * b] as computed in [size_t]. *)
Definition size_t_mul (a b : Z) : Z := (a * b) mod size_t_range.

(** A request of [count] frames on [nc] channels of elements of type
    [T] whose sizes the source computes without wrapping: the vector of
    [count * nc] elements takes no more bytes than the largest object,
    so the products in [size_t], the size of the vector and the
    [streamsize] passed to [read] are the mathematical ones. *)
Definition request_fits (T : SampleType) (count nc : nat) : Prop :=
  Z.of_nat count * Z.of_nat nc * Z.of_nat (sizeof T) <= ptrdiff_max.

(** Bytes every accepted header needs after the twelve bytes of
    [RIFF....WAVE]: 24 for a [fmt ] chunk not yet found, 8 for the header
    of a data chunk not yet found. *)
Definition bytes_needed (foundFmt foundData : bool) : nat :=
  ((if foundFmt then 0 else 24) + (if foundData then 0 else 8))%nat.

(** A header with nothing but the [fmt ] chunk, of declared size [size]
    and with [extension] after its sixteen fields, and the data chunk. *)
Definition plain_file (riffSize : list Z) (size : Z)
    (f : WavFormat) (nch : Z) (sr : WavSampleRate) (byteRate align : Z)
    (d : WavBitDepth) (extension : list Z) (dataSize : Z) (payload : list Z)
  : list Z :=
  riff_wave riffSize
    ++ chunk_header (chars "fmt ") size
    ++ fmt_fields (WavFormat_value f) nch (WavSampleRate_value sr) byteRate
         align (WavBitDepth_value d)
    ++ extension
    ++ chunk_header (chars "data") dataSize
    ++ payload.

(** [WavReader::num_samples]: the same computation as the one of the
    configuration. *)
Definition reader_num_samples (r : Reader.WavReader) : Z :=
  if blockAlign (Reader.r_config r) =? 0 then 0
  else dataChunkSize (Reader.r_config r) / blockAlign (Reader.r_config r).

(** Frames asked to be written by a sequence of calls. *)
Fixpoint frames_written (calls : list write_call) : Z :=
  match calls with
  | [] => 0
  | call :: calls' => Z.of_nat (call_count call) + frames_written calls'
  end.

(** The canonical header of a configuration with [riff] and [total] in
    its two size fields, followed by [payload]. *)
Definition header_file (c : WavFileConfiguration) (riff total : Z)
    (payload : list Z) : list Z :=
  plain_file (le_split 4 riff) 16 (format c)
    (numChannels c) (sampleRate c)
    (to_uint32 (WavSampleRate_value (sampleRate c) * numChannels c
                * (WavBitDepth_value (bitDepth c) / 8)))
    (numChannels c * (WavBitDepth_value (bitDepth c) / 8))
    (bitDepth c) [] total payload.

(** The file a writer leaves for a configuration once closed, with
    [total] bytes counted and [payload] after the header. *)
Definition written_file (c : WavFileConfiguration) (total : Z)
    (payload : list Z) : list Z :=
  header_file c (to_uint32 (36 + total)) total payload.

(** The state of an open writer: the header as first written, with both
    size fields 0, then the payload, with the put position at the end. *)
Definition appending (c : WavFileConfiguration) (w : Writer.WavWriter)
    (payload : list Z) : Prop :=
  Writer.m_config w = c
  /\ Writer.m_fileStream w
     = mkOfstream true (header_file c 0 0 payload)
         (length (header_file c 0 0 payload)).

(** The values an object of element type [T] can hold; a float is any
    pattern of 32 bits. *)
Definition in_range (T : SampleType) (v : Z) : Prop :=
  match T with
  | T_float => is_uint32 v
  | T_uint8 => is_uint8 v
  | T_int16 => is_int16 v
  | T_int32 => is_int32 v
  end.

(** Sample [i] of channel [ch] of planar buffers. *)
Definition sample_at (arrays : list (list Z)) (ch i : nat) : Z :=
  nth i (nth ch arrays []) 0.

(** The frame-major order of the first [count] frames of [nc] channels:
    channel 0 of frame 0, channel 1 of frame 0, and so on. *)
Definition interleaved (f : Z -> Z) (arrays : list (list Z))
    (count nc : nat) : list Z :=
  flat_map (fun i => map (fun ch => f (sample_at arrays ch i)) (seq 0 nc))
    (seq 0 count).

(** Planar buffers that hold [count] frames of values of type [T]. *)
Definition holds_frames (T : SampleType) (count : nat)
    (arrays : list (list Z)) : Prop :=
  Forall (fun a => (count <= length a)%nat /\ Forall (in_range T) a) arrays.

Definition stereo16_configuration : WavFileConfiguration :=
  mkConfig "stereo16.wav" SAMPLE_RATE_48000 2 BIT_DEPTH_16 PCM 0 0.

(* ================================================================== *)
(** * Theorems *)
(* ================================================================== *)

Section WrapFacts.

Lemma uwrap_small w z : 0 <= z < 2 ^ w -> uwrap w z = z.
Proof. intros H. unfold uwrap. apply Z.mod_small. exact H. Qed.

Lemma swrap_small w z :
  0 < w -> - 2 ^ (w - 1) <= z < 2 ^ (w - 1) -> swrap w z = z.
Proof.
  intros Hw H. unfold swrap.
  assert (E : 2 ^ w = 2 * 2 ^ (w - 1)).
  { replace w with (Z.succ (w - 1)) at 1 by lia. apply Z.pow_succ_r. lia. }
  rewrite Z.mod_small; lia.
Qed.

Lemma to_uint8_small z : 0 <= z < 256 -> to_uint8 z = z.
Proof. intros. apply uwrap_small. simpl. lia. Qed.

Lemma to_int16_small z : -32768 <= z < 32768 -> to_int16 z = z.
Proof. intros. apply swrap_small; simpl; lia. Qed.

Lemma to_int32_small z : -2147483648 <= z < 2147483648 -> to_int32 z = z.
Proof. intros. apply swrap_small; simpl; lia. Qed.

Lemma shiftr_bounds x n lo hi :
  0 <= n -> lo * 2 ^ n <= x < hi * 2 ^ n -> lo <= Z.shiftr x n < hi.
Proof.
  intros Hn [Hl Hh]. rewrite Z.shiftr_div_pow2 by exact Hn.
  assert (0 < 2 ^ n) by (apply Z.pow_pos_nonneg; lia).
  split.
  - apply Z.div_le_lower_bound; lia.
  - apply Z.div_lt_upper_bound; lia.
Qed.

Lemma land_255_small z : 0 <= z < 256 -> Z.land z 255 = z.
Proof.
  intros H. change 255 with (Z.ones 8).
  rewrite Z.land_ones by lia. apply Z.mod_small. simpl. lia.
Qed.

End WrapFacts.

(* ------------------------------------------------------------------ *)
(** ** Integer conversions against the conversion table *)
(* ------------------------------------------------------------------ *)

Section IntegerConversions.

Ltac unfold_conv :=
  unfold convert_int16_to_uint8, convert_int32_to_uint8,
    convert_uint8_to_int16, convert_int32_to_int16,
    convert_uint8_to_int24, convert_int16_to_int24,
    convert_int32_to_int24, convert_uint8_to_int32,
    convert_int16_to_int32,
    Formula.int16_to_uint8, Formula.int32_to_uint8,
    Formula.uint8_to_int16, Formula.int32_to_int16,
    Formula.uint8_to_int24, Formula.int16_to_int24,
    Formula.int32_to_int24, Formula.uint8_to_int32,
    Formula.int16_to_int32,
    int_shr, int_shl, int_and, int_add, int_sub, int_mul,
    is_uint8, is_int16, is_int32 in *.

Lemma int16_to_uint8_formula x :
  is_int16 x -> convert_int16_to_uint8 x = Formula.int16_to_uint8 x.
Proof.
  unfold_conv. intros H.
  assert (B : -128 <= Z.shiftr x 8 < 128)
    by (apply shiftr_bounds; simpl; lia).
  rewrite (to_int32_small (Z.shiftr x 8 + 128)) by lia.
  rewrite land_255_small by lia.
  apply to_uint8_small. lia.
Qed.

Lemma int32_to_uint8_formula x :
  is_int32 x -> convert_int32_to_uint8 x = Formula.int32_to_uint8 x.
Proof.
  unfold_conv. intros H.
  assert (B : -128 <= Z.shiftr x 24 < 128)
    by (apply shiftr_bounds; simpl; lia).
  rewrite (to_int32_small (Z.shiftr x 24 + 128)) by lia.
  rewrite land_255_small by lia.
  apply to_uint8_small. lia.
Qed.

Lemma uint8_to_int16_formula x :
  is_uint8 x -> convert_uint8_to_int16 x = Formula.uint8_to_int16 x.
Proof.
  unfold_conv. intros H.
  rewrite (to_int32_small (x - 128)) by lia.
  rewrite (to_int32_small ((x - 128) * 256)) by lia.
  apply to_int16_small. lia.
Qed.

Lemma int32_to_int16_formula x :
  is_int32 x -> convert_int32_to_int16 x = Formula.int32_to_int16 x.
Proof.
  unfold_conv. intros H.
  assert (B : -32768 <= Z.shiftr x 16 < 32768)
    by (apply shiftr_bounds; simpl; lia).
  apply to_int16_small. lia.
Qed.

Lemma uint8_to_int24_formula x :
  is_uint8 x -> convert_uint8_to_int24 x = Formula.uint8_to_int24 x.
Proof.
  unfold_conv. intros H.
  rewrite (to_int32_small (x - 128)) by lia.
  rewrite (to_int32_small ((x - 128) * 65536)) by lia.
  apply to_int32_small. lia.
Qed.

Lemma int16_to_int24_formula x :
  is_int16 x -> convert_int16_to_int24 x = Formula.int16_to_int24 x.
Proof.
  unfold_conv. intros H.
  rewrite Z.shiftl_mul_pow2 by lia. change (2 ^ 8) with 256.
  rewrite (to_int32_small (x * 256)) by lia.
  apply to_int32_small. lia.
Qed.

Lemma int32_to_int24_formula x :
  is_int32 x -> convert_int32_to_int24 x = Formula.int32_to_int24 x.
Proof.
  unfold_conv. intros H.
  assert (B : -8388608 <= Z.shiftr x 8 < 8388608)
    by (apply shiftr_bounds; simpl; lia).
  apply to_int32_small. lia.
Qed.

Lemma uint8_to_int32_formula x :
  is_uint8 x -> convert_uint8_to_int32 x = Formula.uint8_to_int32 x.
Proof.
  unfold_conv. intros H.
  rewrite (to_int32_small (x - 128)) by lia.
  rewrite Z.shiftl_mul_pow2 by lia. change (2 ^ 24) with 16777216.
  rewrite (to_int32_small ((x - 128) * 16777216)) by lia.
  apply to_int32_small. lia.
Qed.

Lemma int16_to_int32_formula x :
  is_int16 x -> convert_int16_to_int32 x = Formula.int16_to_int32 x.
Proof.
  unfold_conv. intros H.
  rewrite (to_int32_small x) by lia.
  rewrite Z.shiftl_mul_pow2 by lia. change (2 ^ 16) with 65536.
  apply to_int32_small. lia.
Qed.

End IntegerConversions.

(** C4. Each of the nine integer-to-integer converters of [WavUtils.cpp],
    with its integer promotions and narrowing casts, computes the formula
    of the conversion table on every value of its source type. *)
Theorem integer_conversions_match_table (u8 i16 i32 : Z) :
  is_uint8 u8 -> is_int16 i16 -> is_int32 i32 ->
  convert_int16_to_uint8 i16 = Formula.int16_to_uint8 i16
  /\ convert_int32_to_uint8 i32 = Formula.int32_to_uint8 i32
  /\ convert_uint8_to_int16 u8 = Formula.uint8_to_int16 u8
  /\ convert_int32_to_int16 i32 = Formula.int32_to_int16 i32
  /\ convert_uint8_to_int24 u8 = Formula.uint8_to_int24 u8
  /\ convert_int16_to_int24 i16 = Formula.int16_to_int24 i16
  /\ convert_int32_to_int24 i32 = Formula.int32_to_int24 i32
  /\ convert_uint8_to_int32 u8 = Formula.uint8_to_int32 u8
  /\ convert_int16_to_int32 i16 = Formula.int16_to_int32 i16.
Proof.
  intros H8 H16 H32. repeat split.
  - now apply int16_to_uint8_formula.
  - now apply int32_to_uint8_formula.
  - now apply uint8_to_int16_formula.
  - now apply int32_to_int16_formula.
  - now apply uint8_to_int24_formula.
  - now apply int16_to_int24_formula.
  - now apply int32_to_int24_formula.
  - now apply uint8_to_int32_formula.
  - now apply int16_to_int32_formula.
Qed.

(** C10. Widening and narrowing back along the same path gives the
    original sample: uint8 through int16, uint8 through int32, and int16
    through int32. *)
Theorem widen_then_narrow_identity (u8 i16 : Z) :
  is_uint8 u8 -> is_int16 i16 ->
  convert_int16_to_uint8 (convert_uint8_to_int16 u8) = u8
  /\ convert_int32_to_uint8 (convert_uint8_to_int32 u8) = u8
  /\ convert_int32_to_int16 (convert_int16_to_int32 i16) = i16.
Proof.
  intros H8 H16. split; [| split].
  - rewrite uint8_to_int16_formula by exact H8.
    unfold Formula.uint8_to_int16, is_uint8 in *.
    rewrite int16_to_uint8_formula by (unfold is_int16; lia).
    unfold Formula.int16_to_uint8.
    rewrite Z.shiftr_div_pow2 by lia. change (2 ^ 8) with 256.
    rewrite Z.div_mul by lia.
    replace (u8 - 128 + 128) with u8 by lia.
    apply land_255_small. lia.
  - rewrite uint8_to_int32_formula by exact H8.
    unfold Formula.uint8_to_int32, is_uint8 in *.
    rewrite Z.shiftl_mul_pow2 by lia. change (2 ^ 24) with 16777216.
    rewrite int32_to_uint8_formula by (unfold is_int32; lia).
    unfold Formula.int32_to_uint8.
    rewrite Z.shiftr_div_pow2 by lia. change (2 ^ 24) with 16777216.
    rewrite Z.div_mul by lia.
    replace (u8 - 128 + 128) with u8 by lia.
    apply land_255_small. lia.
  - rewrite int16_to_int32_formula by exact H16.
    unfold Formula.int16_to_int32, is_int16 in *.
    rewrite Z.shiftl_mul_pow2 by lia. change (2 ^ 16) with 65536.
    rewrite int32_to_int16_formula by (unfold is_int32; lia).
    unfold Formula.int32_to_int16.
    rewrite Z.shiftr_div_pow2 by lia. change (2 ^ 16) with 65536.
    apply Z.div_mul. lia.
Qed.

(* ------------------------------------------------------------------ *)
(** ** Bytes, literals and the input stream *)
(* ------------------------------------------------------------------ *)

(** The float literals of [WavUtils.cpp] as bit patterns; 2147483647
    is not a float and the literal is 2^31. *)
Example float_literals :
  Float32.lit_127_5 = 0x42FF0000 /\ Float32.lit_32767 = 0x46FFFE00
  /\ Float32.lit_8388607 = 0x4AFFFFFE /\ Float32.lit_2147483647 = 0x4F000000.
Proof. vm_compute. auto. Qed.

(** Full scale in and out of float: 255 and 32767 are 1.0, 0 is -1.0. *)
Example float_full_scale :
  convert_uint8_to_float 255 = 0x3F800000
  /\ convert_uint8_to_float 0 = 0xBF800000
  /\ convert_int16_to_float 32767 = 0x3F800000
  /\ convert_float_to_uint8 0x3F800000 = Ret 255
  /\ convert_float_to_int16 0xBF800000 = Ret (-32767).
Proof. vm_compute. auto 6. Qed.

Section Bytes.

Lemma length_le_split n v : length (le_split n v) = n.
Proof. revert v. induction n as [|n IH]; intros v; simpl; [|rewrite IH]; reflexivity. Qed.

Lemma le_combine_split n v :
  0 <= v < 2 ^ (8 * Z.of_nat n) -> le_combine (le_split n v) = v.
Proof.
  revert v. induction n as [|n IH]; intros v Hv.
  - simpl in *. lia.
  - cbn [le_split le_combine].
    replace (8 * Z.of_nat (S n)) with (8 + 8 * Z.of_nat n) in Hv by lia.
    rewrite Z.pow_add_r in Hv by lia. change (2 ^ 8) with 256 in Hv.
    rewrite IH.
    + pose proof (Z.div_mod v 256). lia.
    + split.
      * apply Z.div_pos; lia.
      * apply Z.div_lt_upper_bound; lia.
Qed.

Lemma le_combine_split2 v : 0 <= v < 65536 -> le_combine (le_split 2 v) = v.
Proof. intros H. apply le_combine_split. simpl. lia. Qed.

Lemma le_combine_split4 v :
  0 <= v < 4294967296 -> le_combine (le_split 4 v) = v.
Proof. intros H. apply le_combine_split. simpl. lia. Qed.

Lemma array4_full (bs : list Z) : length bs = 4%nat -> array4 bs = bs.
Proof.
  intros H. do 5 (destruct bs as [|? bs]; try discriminate H).
  reflexivity.
Qed.

End Bytes.

Section InputStream.

Lemma ifs_read_app (a rest : list Z) g :
  ifs_read (length a) (mkIfstream (a ++ rest) false g)
  = (a, mkIfstream rest false (length a)).
Proof.
  unfold ifs_read. cbn [in_fail in_buf].
  rewrite take_app_length, drop_app_length, Nat.ltb_irrefl. reflexivity.
Qed.

Lemma ifs_read_app_n n (a rest : list Z) g :
  length a = n ->
  ifs_read n (mkIfstream (a ++ rest) false g) = (a, mkIfstream rest false n).
Proof. intros <-. apply ifs_read_app. Qed.

Lemma ifs_seekg_cur_app off (a rest : list Z) g :
  length a = Z.to_nat off ->
  ifs_seekg_cur off (mkIfstream (a ++ rest) false g) = mkIfstream rest false g.
Proof.
  intros H. unfold ifs_seekg_cur. cbn [in_fail in_buf in_gcount].
  rewrite <- H, drop_app_length. reflexivity.
Qed.


End InputStream.

(* ------------------------------------------------------------------ *)
(** ** The header scan, one chunk at a time *)
(* ------------------------------------------------------------------ *)

Section HeaderScan.
Import Reader.

Lemma scan_other fuel ff fd c id size payload rest g :
  other_id id -> is_uint32 size -> ff && fd = false ->
  length payload = Z.to_nat (skip_amount size) ->
  scan_chunks (S fuel) ff fd
    (mkReader c (mkIfstream (chunk_header id size ++ payload ++ rest) false g))
  = scan_chunks fuel ff fd (mkReader c (mkIfstream rest false 4)).
Proof.
  intros (Hid & Hf & Hd) Hs Hff Hp. unfold chunk_header.
  cbn [scan_chunks r_fileStream in_fail negb andb].
  replace (negb ff || negb fd) with true
    by (destruct ff, fd; simpl in *; congruence).
  rewrite <- !app_assoc.
  rewrite (ifs_read_app_n 4 id) by exact Hid.
  cbn [in_gcount Nat.eqb negb].
  rewrite (ifs_read_app_n 4 (le_split 4 size)) by apply length_le_split.
  rewrite le_combine_split4 by exact Hs.
  rewrite (array4_full id Hid), Hf, Hd.
  rewrite ifs_seekg_cur_app by exact Hp.
  reflexivity.
Qed.

Lemma scan_data fuel ff fd c size rest g :
  is_uint32 size -> ff && fd = false ->
  scan_chunks (S fuel) ff fd
    (mkReader c (mkIfstream (chunk_header (chars "data") size ++ rest) false g))
  = scan_chunks fuel ff true
      (mkReader
         (mkConfig (filename c) (sampleRate c) (numChannels c) (bitDepth c)
            (format c) (blockAlign c) size)
         (mkIfstream rest false 4)).
Proof.
  intros Hs Hff. unfold chunk_header.
  cbn [scan_chunks r_fileStream in_fail negb andb].
  replace (negb ff || negb fd) with true
    by (destruct ff, fd; simpl in *; congruence).
  rewrite <- !app_assoc.
  rewrite (ifs_read_app_n 4 (chars "data")) by reflexivity.
  cbn [in_gcount Nat.eqb negb].
  rewrite (ifs_read_app_n 4 (le_split 4 size)) by apply length_le_split.
  rewrite le_combine_split4 by exact Hs.
  replace (strncmp_eq (array4 (chars "data")) "fmt " 4) with false
    by reflexivity.
  replace (strncmp_eq (array4 (chars "data")) "data" 4) with true
    by reflexivity.
  reflexivity.
Qed.

(** What the [fmt ] branch does on a chunk whose sixteen bytes are all
    there: the stream after the optional skip, and the verdict of the
    guarded assignments. *)
Lemma scan_fmt fuel ff fd c size af nch rate br align depth rest g :
  is_uint32 size -> ff && fd = false ->
  is_uint16 af -> is_uint16 nch -> is_uint32 rate -> is_uint32 br ->
  is_uint16 align -> is_uint16 depth ->
  let fs := mkIfstream rest false 2 in
  let fs' := if 0 <? size - 16 then ifs_seekg_cur (size - 16) fs else fs in
  scan_chunks (S fuel) ff fd
    (mkReader c
       (mkIfstream
          (chunk_header (chars "fmt ") size
             ++ fmt_fields af nch rate br align depth ++ rest) false g))
  = match assign_fmt c af nch rate align depth with
    | None => Returned false (mkReader c fs')
    | Some c' =>
        if in_fail fs' then Returned false (mkReader c' fs')
        else scan_chunks fuel true fd (mkReader c' fs')
    end.
Proof.
  intros Hs Hff Haf Hnch Hrate Hbr Hal Hd fs fs'.
  unfold chunk_header, fmt_fields.
  cbn [scan_chunks r_fileStream r_config in_fail negb andb].
  replace (negb ff || negb fd) with true
    by (destruct ff, fd; simpl in *; congruence).
  rewrite <- !app_assoc.
  rewrite (ifs_read_app_n 4 (chars "fmt ")) by reflexivity.
  cbn [in_gcount Nat.eqb negb].
  rewrite (ifs_read_app_n 4 (le_split 4 size)) by apply length_le_split.
  replace (strncmp_eq (array4 (chars "fmt ")) "fmt " 4) with true
    by reflexivity.
  cbv iota.
  rewrite (ifs_read_app_n 2 (le_split 2 af)) by apply length_le_split.
  rewrite (ifs_read_app_n 2 (le_split 2 nch)) by apply length_le_split.
  rewrite (ifs_read_app_n 4 (le_split 4 rate)) by apply length_le_split.
  rewrite (ifs_read_app_n 4 (le_split 4 br)) by apply length_le_split.
  rewrite (ifs_read_app_n 2 (le_split 2 align)) by apply length_le_split.
  rewrite (ifs_read_app_n 2 (le_split 2 depth)) by apply length_le_split.
  rewrite !le_combine_split2 by assumption.
  rewrite !le_combine_split4 by assumption.
  reflexivity.
Qed.

End HeaderScan.

(* ------------------------------------------------------------------ *)
(** ** Validation of the [fmt ] chunk *)
(* ------------------------------------------------------------------ *)

Section FmtValidation.
Import Reader.






Lemma read_header_riff_wave c riffSize body g :
  length riffSize = 4%nat ->
  read_header (mkReader c (mkIfstream (riff_wave riffSize ++ body) false g))
  = scan_chunks (S (length body)) false false
      (mkReader c (mkIfstream body false 4)).
Proof.
  intros H. unfold read_header, riff_wave.
  cbn [r_fileStream]. rewrite <- !app_assoc.
  rewrite (ifs_read_app_n 4 (chars "RIFF")) by reflexivity.
  replace (strncmp_eq (array4 (chars "RIFF")) "RIFF" 4) with true
    by reflexivity.
  cbn [negb]. cbv iota.
  rewrite (ifs_read_app_n 4 riffSize) by exact H.
  rewrite (ifs_read_app_n 4 (chars "WAVE")) by reflexivity.
  replace (strncmp_eq (array4 (chars "WAVE")) "WAVE" 4) with true
    by reflexivity.
  reflexivity.
Qed.

End FmtValidation.


(* ------------------------------------------------------------------ *)
(** ** Chunks of other kinds are skipped and the scan goes on *)
(* ------------------------------------------------------------------ *)

Section SkippedChunks.
Import Reader.

(** X11. [(size + 1) & ~1] rounds up to the next even number as long as
    [size + 1] fits 32 bits. *)
Lemma skip_amount_rounds_up size :
  0 <= size < 4294967295 -> skip_amount size = size + size mod 2.
Proof.
  intros H. unfold skip_amount, to_uint32, uwrap.
  rewrite (Z.mod_small (size + 1)) by (simpl; lia).
  change (Z.lnot 1 mod 2 ^ 32) with (Z.shiftl (Z.ones 31) 1).
  assert (E : size + size mod 2 = Z.shiftl (Z.shiftr (size + 1) 1) 1).
  { rewrite Z.shiftl_mul_pow2, Z.shiftr_div_pow2 by lia.
    change (2 ^ 1) with 2.
    pose proof (Z.div_mod size 2 ltac:(lia)).
    pose proof (Z.div_mod (size + 1) 2 ltac:(lia)).
    pose proof (Z.mod_pos_bound size 2 ltac:(lia)).
    pose proof (Z.mod_pos_bound (size + 1) 2 ltac:(lia)).
    lia. }
  rewrite E. apply Z.bits_inj'. intros n Hn.
  rewrite Z.land_spec.
  destruct (Z.eq_dec n 0) as [->|Hn0].
  - rewrite !Z.shiftl_spec_low by lia. apply andb_false_r.
  - rewrite !Z.shiftl_spec by lia. rewrite Z.shiftr_spec by lia.
    replace (n - 1 + 1) with n by lia.
    destruct (Z_lt_ge_dec (n - 1) 31) as [Hlo|Hhi].
    + rewrite Z.ones_spec_low by lia. apply andb_true_r.
    + rewrite Z.ones_spec_high by lia. rewrite andb_false_r.
      symmetry. apply Z.bits_above_log2; [lia|].
      apply Z.log2_lt_pow2; [lia|].
      apply Z.lt_le_trans with (2 ^ 32); [simpl; lia|].
      apply Z.pow_le_mono_r; lia.
Qed.

(** At the largest size the sum wraps and nothing is skipped. *)
Lemma skip_amount_wraps : skip_amount 4294967295 = 0.
Proof. reflexivity. Qed.

(** Each skipped chunk costs one iteration and leaves the scan at the
    byte after it, with the flags and the configuration as they were. *)
Lemma scan_over_skipped xs :
  Forall scanned_ok xs -> Forall is_skipped xs ->
  forall fuel ff fd c g tail,
    ff && fd = false ->
    scan_chunks (length xs + fuel) ff fd
      (mkReader c (mkIfstream (concat (map scanned_bytes xs) ++ tail) false g))
    = scan_chunks fuel ff fd
        (mkReader c (mkIfstream tail false (gcount_after xs g))).
Proof.
  induction 1 as [|x xs Hx Hxs IH]; intros Hsk fuel ff fd c g tail Hff.
  - reflexivity.
  - inversion Hsk as [|? ? Hx' Hsk']; subst.
    destruct x as [id sz payload | sz]; [|contradiction].
    cbn [scanned_ok scanned_bytes map concat length Nat.add] in *.
    destruct Hx as (Hid & Hsz & Hp).
    rewrite <- !app_assoc.
    rewrite scan_other by assumption.
    rewrite IH by assumption.
    destruct xs; reflexivity.
Qed.

Lemma scan_done fuel c s :
  scan_chunks (S fuel) true true (mkReader c s) = Returned true (mkReader c s).
Proof.
  cbn [scan_chunks r_fileStream negb orb]. rewrite andb_false_r. reflexivity.
Qed.

(** More fuel does not change the verdict of a scan that ended. *)
Lemma scan_chunks_more_fuel fuel :
  forall ff fd r ok r' extra,
    scan_chunks fuel ff fd r = Returned ok r' ->
    scan_chunks (fuel + extra) ff fd r = Returned ok r'.
Proof.
  induction fuel as [|fuel IH]; intros ff fd r ok r' extra H.
  - discriminate H.
  - cbn [Nat.add]. cbn [scan_chunks] in *.
    repeat match type of H with
           | (if ?b then _ else _) = _ =>
               let E := fresh "E" in destruct b eqn:E
           | (let '(_, _) := ?p in _) = _ =>
               let E := fresh "E" in destruct p eqn:E
           | match ?o with Some _ => _ | None => _ end = _ =>
               let E := fresh "E" in destruct o eqn:E
           end;
      try exact H; apply IH; exact H.
Qed.

Lemma length_scanned_bytes_le xs :
  Forall scanned_ok xs -> Forall is_skipped xs ->
  (8 * length xs <= length (concat (map scanned_bytes xs)))%nat.
Proof.
  induction 1 as [|x xs Hx Hxs IH]; intros Hsk; [simpl; lia|].
  inversion Hsk as [|? ? Hx' Hsk']; subst.
  destruct x as [id sz payload | sz]; [|contradiction].
  destruct Hx as ((Hlen & _) & _).
  cbn [map concat scanned_bytes length]. unfold chunk_header.
  rewrite !length_app, length_le_split. specialize (IH Hsk'). lia.
Qed.

End SkippedChunks.

(** X10. A well-formed header is accepted with chunks of other kinds before
    the [fmt ] chunk and between it and the data chunk: the reader holds
    the fields of the [fmt ] chunk and the size of the data chunk, and
    stands at the first byte of the payload. *)
Theorem create_skips_other_chunks
    (fs : filesystem) (name : string) (riffSize : list Z)
    (pre mid : list scanned) (af nch rate br align depth dataSize : Z)
    (payload : list Z) (c : WavFileConfiguration) :
  length riffSize = 4%nat ->
  Forall scanned_ok pre -> Forall is_skipped pre ->
  Forall scanned_ok mid -> Forall is_skipped mid ->
  is_uint16 af -> is_uint16 nch -> is_uint32 rate ->
  is_uint32 br -> is_uint16 align -> is_uint16 depth -> is_uint32 dataSize ->
  fs name = Some (riff_wave riffSize ++ concat (map scanned_bytes pre)
                    ++ chunk_header (chars "fmt ") 16
                    ++ fmt_fields af nch rate br align depth
                    ++ concat (map scanned_bytes mid)
                    ++ chunk_header (chars "data") dataSize ++ payload) ->
  Reader.assign_fmt (mkConfig name SAMPLE_RATE_16000 1 BIT_DEPTH_32 FLOAT 0 0)
    af nch rate align depth = Some c ->
  Reader.create fs name
  = Some (Reader.mkReader
            (mkConfig (filename c) (sampleRate c) (numChannels c) (bitDepth c)
               (format c) (blockAlign c) dataSize)
            (mkIfstream payload false 4)).
Proof.
  intros Hriff Hpre Hpre' Hmid Hmid' Haf Hn Hr Hbr Hal Hd Hds Hfile Hc.
  unfold Reader.create, Reader.open_file. cbn [Reader.r_config filename].
  rewrite Hfile. unfold Reader.with_stream. cbn [Reader.r_config].
  rewrite read_header_riff_wave by exact Hriff.
  cbn [default_configuration sampleRate numChannels bitDepth format
         blockAlign dataChunkSize].
  pose proof (length_scanned_bytes_le pre Hpre Hpre') as Lpre.
  pose proof (length_scanned_bytes_le mid Hmid Hmid') as Lmid.
  match goal with
  | |- context [Reader.scan_chunks (S (length ?body))] =>
      assert (Hlen : exists extra,
                 S (length body)
                 = (length pre + (1 + (length mid + (1 + 1))) + extra)%nat)
  end.
  { unfold chunk_header, fmt_fields.
    rewrite !length_app, !length_le_split. cbn [length chars].
    eexists (_ : nat). 
    match goal with |- S ?a = (?b + ?x)%nat =>
      instantiate (1 := (S a - b)%nat) end.
    simpl. lia. }
  destruct Hlen as [extra ->].
  match goal with
  | |- match Reader.scan_chunks _ _ _ ?r with _ => _ end = Some ?r' =>
      assert (Hscan :
                Reader.scan_chunks
                  (length pre + (1 + (length mid + (1 + 1)))) false false r
                = Reader.Returned true r')
  end.
  { rewrite scan_over_skipped by (assumption || reflexivity).
    cbn [Nat.add].
    rewrite scan_fmt by (assumption || reflexivity || (unfold is_uint32; lia)).
    rewrite Hc. change (0 <? 16 - 16) with false. cbv iota. cbn [in_fail].
    rewrite scan_over_skipped by (assumption || reflexivity).
    cbn [Nat.add].
    rewrite scan_data by (assumption || reflexivity).
    apply scan_done. }
  rewrite (scan_chunks_more_fuel _ _ _ _ _ _ extra Hscan). reflexivity.
Qed.

(* ------------------------------------------------------------------ *)
(** ** The header scan always ends *)
(* ------------------------------------------------------------------ *)

Section ScanTerminates.
Import Reader.

Lemma ifs_read_shrinks n s got s' :
  ifs_read n s = (got, s') -> (length (in_buf s') <= length (in_buf s))%nat.
Proof.
  unfold ifs_read. destruct (in_fail s); intros [= <- <-]; cbn [in_buf].
  - lia.
  - rewrite length_drop. lia.
Qed.

Lemma ifs_read_full n s got s' :
  ifs_read n s = (got, s') -> in_fail s = false -> in_gcount s' = n ->
  (length (in_buf s') + n <= length (in_buf s))%nat.
Proof.
  unfold ifs_read. intros H Hf. rewrite Hf in H.
  injection H as <- <-. cbn [in_buf in_gcount].
  rewrite length_take, length_drop. lia.
Qed.

Lemma ifs_seekg_cur_shrinks off s :
  (length (in_buf (ifs_seekg_cur off s)) <= length (in_buf s))%nat.
Proof.
  unfold ifs_seekg_cur. destruct (in_fail s); cbn [in_buf].
  - lia.
  - rewrite length_drop. lia.
Qed.



End ScanTerminates.

(* ------------------------------------------------------------------ *)
(** ** Every reader that opens satisfies the FLOAT invariant *)
(* ------------------------------------------------------------------ *)

Section FloatInvariant.
Import Reader.

Lemma assign_fmt_float_is_32bit c af nch rate align depth c' :
  assign_fmt c af nch rate align depth = Some c' -> float_is_32bit c'.
Proof.
  unfold assign_fmt, float_is_32bit.
  destruct (WavFormat_of af) as [f|]; [|discriminate].
  destruct (negb (0 <? nch)); [discriminate|].
  destruct (WavBitDepth_of depth) as [d|]; [|discriminate].
  destruct (WavSampleRate_of rate) as [sr|]; [|discriminate].
  destruct f, d; intros [= <-]; cbn [format bitDepth];
    intros H; (reflexivity || discriminate H).
Qed.

Lemma scan_chunks_float_is_32bit fuel :
  forall ff fd r r',
    float_is_32bit (r_config r) ->
    scan_chunks fuel ff fd r = Returned true r' ->
    float_is_32bit (r_config r').
Proof.
  induction fuel as [|fuel IH]; intros ff fd r r' Hinv H; [discriminate H|].
  cbn [scan_chunks] in H.
  destruct (negb (in_fail (r_fileStream r)) && (negb ff || negb fd));
    [|injection H as _ <-; exact Hinv].
  destruct (ifs_read 4 (r_fileStream r)) as [id fs1].
  destruct (negb (in_gcount fs1 =? 4)%nat);
    [injection H as _ <-; exact Hinv|].
  destruct (ifs_read 4 fs1) as [sb fs2].
  destruct (strncmp_eq (array4 id) "fmt " 4).
  - destruct (ifs_read 2 fs2) as [b3 fs3].
    destruct (ifs_read 2 fs3) as [b4 fs4].
    destruct (ifs_read 4 fs4) as [b5 fs5].
    destruct (ifs_read 4 fs5) as [b6 fs6].
    destruct (ifs_read 2 fs6) as [b7 fs7].
    destruct (ifs_read 2 fs7) as [b8 fs8].
    destruct (assign_fmt _ _ _ _ _ _) as [c'|] eqn:E; [|discriminate H].
    apply assign_fmt_float_is_32bit in E.
    match type of H with
    | (if in_fail ?s then _ else _) = _ =>
        destruct (in_fail s); [discriminate H|]
    end.
    eapply IH; [|exact H]. exact E.
  - destruct (strncmp_eq (array4 id) "data" 4).
    + destruct (in_fail fs2); [discriminate H|].
      eapply IH; [|exact H]. exact Hinv.
    + destruct (in_fail (ifs_seekg_cur _ fs2)); [discriminate H|].
      eapply IH; [|exact H]. exact Hinv.
Qed.

End FloatInvariant.

(** X13. Whatever the bytes of the file, a reader that opens never pairs
    FLOAT with a bit depth other than 32. *)
Theorem create_float_is_32bit (fs : filesystem) (name : string)
    (r : Reader.WavReader) :
  Reader.create fs name = Some r -> float_is_32bit (Reader.r_config r).
Proof.
  unfold Reader.create, Reader.open_file. cbn [Reader.r_config filename].
  destruct (fs name) as [content|]; [|discriminate].
  unfold Reader.read_header, Reader.with_stream.
  cbn [Reader.r_fileStream Reader.r_config].
  destruct (ifs_read 4 _) as [a fs1].
  destruct (negb (strncmp_eq (array4 a) "RIFF" 4)); [discriminate|].
  destruct (ifs_read 4 fs1) as [b fs2].
  destruct (ifs_read 4 fs2) as [c fs3].
  destruct (negb (strncmp_eq (array4 c) "WAVE" 4)); [discriminate|].
  destruct (Reader.scan_chunks _ _ _ _) as [|ok r'] eqn:E; [discriminate|].
  destruct ok; [|discriminate]. intros [= <-].
  eapply scan_chunks_float_is_32bit; [|exact E].
  intros _. reflexivity.
Qed.

(** Closed statements are settled by evaluation, one conjunct at a
    time. *)
Ltac evaluate :=
  lazymatch goal with
  | |- exists _, _ => eexists; evaluate
  | |- _ /\ _ => split; [vm_compute; reflexivity | evaluate]
  | |- _ => vm_compute; reflexivity
  end.

(** C8. A chunk of another kind that declares the size 4294967295 is not
    skipped at all: [(size + 1) & ~1] wraps to 0 in 32 bits, the scan goes
    on at the very next byte and this header is accepted, although
    rounding the declared size up to the next even number would move 2^32
    bytes ahead, past the end of the 54-byte file. *)
Theorem largest_chunk_size_is_not_skipped :
  Reader.skip_amount 4294967295 = 0
  /\ 4294967295 + 4294967295 mod 2 = 4294967296
  /\ length largest_size_file = 54%nat
  /\ Reader.create (single_file largest_size_file) "junk.wav"
     = Some (Reader.mkReader
               (mkConfig "junk.wav" SAMPLE_RATE_44100 1 BIT_DEPTH_16 PCM 2 2)
               (mkIfstream [1; 0] false 4)).
Proof. evaluate. Qed.

(* ------------------------------------------------------------------ *)
(** ** Typed reads *)
(* ------------------------------------------------------------------ *)

Section TypedReads.
Import Reader.

Lemma length_deinterleave nc frames f :
  length (deinterleave nc frames f) = nc.
Proof. unfold deinterleave. rewrite length_map, length_seq. reflexivity. Qed.

Lemma deinterleave_frames nc frames f :
  Forall (fun ch => length ch = frames) (deinterleave nc frames f).
Proof.
  unfold deinterleave. apply Forall_map, Forall_forall. intros j _.
  cbn beta. rewrite length_map, length_seq. reflexivity.
Qed.

Lemma res_bind_ret {A} (m : res A) : res_bind m Ret = m.
Proof. destruct m; reflexivity. Qed.

Lemma vec_get_middle {A} (pre : list A) x post :
  vec_get (pre ++ x :: post) (length pre) = Ret x.
Proof.
  unfold vec_get. rewrite lookup_app_r by lia.
  rewrite Nat.sub_diag. reflexivity.
Qed.

(** Walking a channel over its own length never leaves it. *)
Lemma res_map_channel (f : Z -> Z) (pre ch : list Z) :
  res_map (fun i => x ← vec_get (pre ++ ch) i; total f x)
    (seq (length pre) (length ch))
  = Ret (map f ch).
Proof.
  revert pre. induction ch as [|x ch IH]; intros pre; [reflexivity|].
  cbn [length seq res_map map].
  rewrite vec_get_middle.
  unfold mbind at 1 2, res_mbind at 1 2, total at 1. cbn [res_bind].
  replace (pre ++ x :: ch) with ((pre ++ [x]) ++ ch)
    by (rewrite <- app_assoc; reflexivity).
  replace (S (length pre)) with (length (pre ++ [x]))
    by (rewrite length_app; simpl; lia).
  rewrite IH. reflexivity.
Qed.

Lemma convert_samples_total (f : Z -> Z) (input : list (list Z)) n :
  input <> [] -> Forall (fun ch => length ch = n) input ->
  convert_samples (total f) input = Ret (map (map f) input).
Proof.
  intros Hne Hall. unfold convert_samples.
  destruct input as [|first others]; [contradiction|].
  assert (Hn : length first = n) by (inversion Hall; assumption).
  rewrite Hn. clear Hne Hn.
  induction Hall as [|ch chs Hch Hchs IH]; [reflexivity|].
  cbn [res_map map].
  pose proof (res_map_channel f [] ch) as E.
  cbn [app length] in E. rewrite Hch in E. rewrite E.
  unfold mbind at 1 2, res_mbind at 1 2. cbn [res_bind].
  rewrite IH. reflexivity.
Qed.

(** [read_samples] returns the whole frames that are there, [count] at
    most, one buffer per channel, and leaves no error behind. *)
Lemma read_samples_frames T count r :
  0 < numChannels (r_config r) ->
  in_fail (r_fileStream r) = false ->
  exists out r',
    read_samples T count r = Ret (out, r')
    /\ length out = Z.to_nat (numChannels (r_config r))
    /\ Forall (fun ch =>
                 length ch
                 = frames_available (r_config r) T count
                     (length (in_buf (r_fileStream r)))) out.
Proof.
  intros Hnc Hfail. unfold read_samples, ifs_read. rewrite Hfail.
  cbn [in_gcount].
  set (nc := Z.to_nat (numChannels (r_config r))).
  assert (Hnc' : (0 < nc)%nat) by (unfold nc; lia).
  destruct (Nat.eqb_spec nc 0) as [E|_]; [lia|].
  eexists _, _. split; [reflexivity|]. split.
  - apply length_deinterleave.
  - match goal with
    | |- Forall _ (deinterleave _ ?k _) =>
        replace (frames_available (r_config r) T count
                   (length (in_buf (r_fileStream r)))) with k
    end; [apply deinterleave_frames|].
    unfold frames_available. fold nc.
    rewrite length_take.
    assert (Hsz : (0 < sizeof T)%nat) by (destruct T; simpl; lia).
    rewrite Nat.Div0.div_div.
    rewrite (Nat.mul_comm (sizeof T) nc).
    set (b := length (in_buf (r_fileStream r))).
    set (d := (nc * sizeof T)%nat).
    assert (Hd : (0 < d)%nat) by (unfold d; nia).
    replace (count * nc * sizeof T)%nat with (count * d)%nat
      by (unfold d; lia).
    destruct (Nat.le_gt_cases (count * d) b) as [Hle|Hgt].
    + rewrite Nat.min_l by exact Hle.
      rewrite Nat.div_mul by lia.
      rewrite Nat.min_l; [reflexivity|].
      apply Nat.div_le_lower_bound; lia.
    + rewrite (Nat.min_r (count * d) b) by lia.
      rewrite Nat.min_r; [reflexivity|].
      apply Nat.lt_le_incl, Nat.Div0.div_lt_upper_bound. lia.
Qed.

End TypedReads.

(** Reading a file that is not 24-bit PCM in its own element type hands
    back the deinterleaved samples as they are. *)
Lemma read_native_unconverted (count : nat) (r : Reader.WavReader) :
  is_pcm24 (Reader.r_config r) = false ->
  Reader.read (native_type (Reader.r_config r)) count r
  = Reader.read_samples (native_type (Reader.r_config r)) count r.
Proof.
  unfold Reader.read, native_type, is_pcm24.
  destruct (format (Reader.r_config r)), (bitDepth (Reader.r_config r));
    intros H; try discriminate H;
    cbn [Reader.from_float Reader.from_uint8 Reader.from_int16
           Reader.from_int32];
    apply res_bind_ret.
Qed.

(** Reading a file that is not 24-bit PCM converts with the entry of the
    conversion table for the element type of the file and the one asked
    for. *)
Lemma read_converts_by_matrix (T : SampleType) (count : nat)
    (r : Reader.WavReader) :
  is_pcm24 (Reader.r_config r) = false ->
  T <> native_type (Reader.r_config r) ->
  Reader.read T count r
  = (sr ← Reader.read_samples (native_type (Reader.r_config r)) count r;
     out ← Reader.convert_samples
             (matrix (native_type (Reader.r_config r)) T) (fst sr);
     Ret (out, snd sr)).
Proof.
  unfold Reader.read, native_type, is_pcm24.
  destruct (format (Reader.r_config r)), (bitDepth (Reader.r_config r));
    intros H HT; try discriminate H; destruct T; try contradiction;
    reflexivity.
Qed.

(** C2. A mono 24-bit PCM file holding the one sample 00 00 40, whose
    sign-extended carrier is 4194304, read as [int32_t]: the branch hands
    [convert_int32_to_float] to [convert_samples] for every [T], so the
    carrier is divided by 2^31 and truncated back to an integer, and the
    caller receives 0 instead of the carrier. *)
Theorem read_pcm24_as_int32_is_not_identity :
  exists r,
    Reader.create (single_file (wav_file 1 1 44100 24 [0; 0; 64])) "a.wav"
    = Some r
    /\ native_type (Reader.r_config r) = T_int32
    /\ Reader.assemble24 0 0 64 = 4194304
    /\ matrix T_int32 T_int32 4194304 = Ret 4194304
    /\ res_bind (Reader.read T_int32 1 r) (fun sr => Ret (fst sr))
       = Ret [[0]].
Proof. evaluate. Qed.

(** C3. A mono 24-bit PCM file with an empty data chunk, asked for two
    frames: the 24-bit branch sizes its buffers by the count asked for,
    not by what was read, and returns two frames of silence where no
    frame is left. *)
Theorem read_pcm24_past_the_end_returns_count_frames :
  exists r,
    Reader.create (single_file (wav_file 1 1 44100 24 [])) "a.wav" = Some r
    /\ in_buf (Reader.r_fileStream r) = []
    /\ frames_available (Reader.r_config r) T_int32 2 0 = 0%nat
    /\ res_bind (Reader.read T_float 2 r) (fun sr => Ret (fst sr))
       = Ret [[0; 0]].
Proof. evaluate. Qed.

(** For a request that fits, the products of [read_samples] in
    [size_t] are the products themselves, and the byte count is a
    [streamsize]. *)
Lemma request_fits_no_wrap (T : SampleType) (count nc : nat) :
  request_fits T count nc ->
  size_t_mul (Z.of_nat count) (Z.of_nat nc) = Z.of_nat (count * nc)
  /\ size_t_mul (Z.of_nat (count * nc)) (Z.of_nat (sizeof T))
     = Z.of_nat (count * nc * sizeof T)
  /\ Z.of_nat (count * nc * sizeof T) <= ptrdiff_max.
Proof.
  unfold request_fits, size_t_mul, size_t_range, ptrdiff_max. intros H.
  assert (Hs : (1 <= sizeof T)%nat) by (destruct T; simpl; lia).
  rewrite !Nat2Z.inj_mul.
  assert (H0 : 0 <= Z.of_nat count * Z.of_nat nc) by lia.
  assert (H1 : Z.of_nat count * Z.of_nat nc
               <= Z.of_nat count * Z.of_nat nc * Z.of_nat (sizeof T)) by nia.
  change (2 ^ 63) with 9223372036854775808 in *.
  change (2 ^ 64) with 18446744073709551616.
  rewrite !Z.mod_small by lia. repeat split; lia.
Qed.

(** X15. Outside the 24-bit branch, as long as no float has to be cast
    to an integer and for a request whose sizes do not wrap in [size_t],
    a read returns: one buffer per channel, each as long as the number
    of whole frames left, [count] at most. *)
Lemma read_returns_available_frames (T : SampleType) (count : nat)
    (r : Reader.WavReader) :
  is_pcm24 (Reader.r_config r) = false ->
  native_type (Reader.r_config r) <> T_float \/ T = T_float ->
  0 < numChannels (Reader.r_config r) ->
  in_fail (Reader.r_fileStream r) = false ->
  request_fits (native_type (Reader.r_config r)) count
    (Z.to_nat (numChannels (Reader.r_config r))) ->
  exists out r',
    Reader.read T count r = Ret (out, r')
    /\ length out = Z.to_nat (numChannels (Reader.r_config r))
    /\ Forall (fun ch =>
                 length ch
                 = frames_available (Reader.r_config r)
                     (native_type (Reader.r_config r)) count
                     (length (in_buf (Reader.r_fileStream r)))) out.
Proof.
  intros H24 Hfloat Hnc Hfail _.
  destruct (read_samples_frames (native_type (Reader.r_config r)) count r
              Hnc Hfail) as (out & r' & Hread & Hlen & Hall).
  assert (Hdec : T = native_type (Reader.r_config r)
                 \/ T <> native_type (Reader.r_config r)).
  { destruct T, (native_type (Reader.r_config r));
      (left; reflexivity) || (right; discriminate). }
  destruct Hdec as [-> | Hne].
  - rewrite read_native_unconverted by exact H24. eauto.
  - rewrite read_converts_by_matrix by assumption.
    rewrite Hread. unfold mbind at 1, res_mbind at 1. cbn [res_bind fst snd].
    assert (Hconv : exists f,
               matrix (native_type (Reader.r_config r)) T = Reader.total f).
    { destruct (native_type (Reader.r_config r)) eqn:E, T;
        try contradiction; try (destruct Hfloat; congruence);
        eexists; reflexivity. }
    destruct Hconv as [f ->].
    erewrite convert_samples_total; [| |exact Hall].
    + unfold mbind, res_mbind. cbn [res_bind].
      eexists _, _. split; [reflexivity|]. split.
      * rewrite length_map. exact Hlen.
      * apply Forall_map. eapply Forall_impl; [exact Hall|].
        intros ch Hch. cbn beta. rewrite length_map. exact Hch.
    + intros ->. simpl in Hlen. lia.
Qed.

(* ------------------------------------------------------------------ *)
(** ** The output stream *)
(* ------------------------------------------------------------------ *)

Section OutputStream.

Lemma length_overwrite_front (data : list Z) pos :
  length (take pos data ++ replicate (pos - length data) 0) = pos.
Proof. rewrite length_app, length_take, length_replicate. lia. Qed.

Lemma overwrite_read_back (data bytes : list Z) pos n :
  length bytes = n -> take n (drop pos (overwrite data pos bytes)) = bytes.
Proof.
  intros <-. unfold overwrite.
  rewrite (app_assoc (take pos data)).
  rewrite drop_app_length' by (symmetry; apply length_overwrite_front).
  apply take_app_length.
Qed.

Lemma length_overwrite (data bytes : list Z) pos :
  (pos + length bytes <= length (overwrite data pos bytes))%nat.
Proof.
  unfold overwrite.
  rewrite !length_app, length_take, length_replicate, length_drop. lia.
Qed.

Lemma overwrite_read_before (data bytes : list Z) pos p n :
  (p + n <= pos)%nat -> (p + n <= length data)%nat ->
  take n (drop p (overwrite data pos bytes)) = take n (drop p data).
Proof.
  intros Hp Hlen. unfold overwrite.
  rewrite !take_drop_commute. f_equal.
  rewrite take_app_le by (rewrite length_take; lia).
  rewrite take_take. f_equal. lia.
Qed.

Lemma u32_at_patched (data : list Z) a b :
  is_uint32 a -> is_uint32 b ->
  let data' := overwrite (overwrite data 4 (le_split 4 a)) 40 (le_split 4 b) in
  u32_at 4 data' = a /\ u32_at 40 data' = b.
Proof.
  intros Ha Hb data'. unfold u32_at, data'. split.
  - rewrite overwrite_read_before.
    + rewrite overwrite_read_back by apply length_le_split.
      apply le_combine_split4, Ha.
    + lia.
    + pose proof (length_overwrite data (le_split 4 a) 4) as L.
      rewrite length_le_split in L. lia.
  - rewrite overwrite_read_back by apply length_le_split.
    apply le_combine_split4, Hb.
Qed.

End OutputStream.

(* ------------------------------------------------------------------ *)
(** ** Loops over a buffer *)
(* ------------------------------------------------------------------ *)

Section Loops.

Context {S : Type}.

(** A property kept by every iteration that returns is kept by the
    loop. *)
Lemma for_each_invariant (P : S -> Prop) (body : nat -> S -> res S) l :
  (forall i s s', P s -> body i s = Ret s' -> P s') ->
  forall s s', P s -> for_each l body s = Ret s' -> P s'.
Proof.
  intros Hbody. induction l as [|i l IH]; intros s s' Hs H.
  - injection H as <-. exact Hs.
  - cbn [for_each] in H. unfold mbind, res_mbind in H.
    destruct (body i s) as [s1| |] eqn:E; try discriminate H.
    cbn [res_bind] in H. eapply IH; [|exact H]. eapply Hbody; eauto.
Qed.

(** A loop that returns has run its last iteration from a state the
    earlier iterations returned. *)
Lemma for_each_last (body : nat -> S -> res S) l i :
  forall s s',
    for_each (l ++ [i]) body s = Ret s' ->
    exists s1, for_each l body s = Ret s1 /\ body i s1 = Ret s'.
Proof.
  induction l as [|j l IH]; intros s s' H.
  - cbn [app for_each] in H. unfold mbind, res_mbind in H.
    destruct (body i s) as [s1| |] eqn:E; try discriminate H.
    cbn [res_bind for_each] in H. injection H as <-.
    exists s. split; [reflexivity | exact E].
  - cbn [app for_each] in *. unfold mbind, res_mbind in *.
    destruct (body j s) as [s1| |] eqn:E; try discriminate H.
    cbn [res_bind] in *. apply IH. exact H.
Qed.

End Loops.

Section BufferLength.

Lemma vec_set_length {A} (v v' : list A) i x :
  vec_set v i x = Ret v' -> length v' = length v.
Proof.
  unfold vec_set. destruct (i <? length v)%nat; [|discriminate].
  intros [= <-]. apply length_insert.
Qed.

Lemma vec_set_in_range {A} (v v' : list A) i x :
  vec_set v i x = Ret v' -> (i < length v)%nat.
Proof.
  unfold vec_set. destruct (Nat.ltb_spec i (length v)); [|discriminate].
  intros _. assumption.
Qed.

Lemma interleave_length conv arrays count nc buf :
  Writer.interleave conv arrays count nc = Ret buf ->
  length buf = (count * nc)%nat.
Proof.
  unfold Writer.interleave, for_upto. intros H.
  eapply (for_each_invariant (fun b => length b = (count * nc)%nat))
    in H; [exact H | | apply length_replicate].
  intros i s s' Hs Hi.
  eapply (for_each_invariant (fun b => length b = (count * nc)%nat));
    [|exact Hs|exact Hi].
  intros ch b b' Hb Hch. cbv beta in Hch.
  unfold mbind, res_mbind in Hch.
  destruct (Writer.sample_of arrays ch i); try discriminate Hch.
  cbn [res_bind] in Hch.
  destruct (conv a); try discriminate Hch. cbn [res_bind] in Hch.
  apply vec_set_length in Hch. lia.
Qed.

Lemma pcm24_store_length T arrays nc i ch buf buf' :
  Writer.pcm24_store T arrays nc i ch buf = Ret buf' ->
  length buf' = length buf
  /\ (Writer.pcm24_index nc i ch 2 < length buf)%nat.
Proof.
  unfold Writer.pcm24_store, mbind, res_mbind. intros H.
  destruct (Writer.sample_of arrays ch i); try discriminate H.
  cbn [res_bind] in H.
  destruct (Writer.to_pcm24 T a); try discriminate H.
  cbn [res_bind] in H.
  destruct (vec_set buf _ _) as [b1| |] eqn:E1; try discriminate H.
  cbn [res_bind] in H.
  destruct (vec_set b1 _ _) as [b2| |] eqn:E2; try discriminate H.
  cbn [res_bind] in H.
  pose proof (vec_set_in_range _ _ _ _ H) as Hlt.
  apply vec_set_length in E1, E2, H. split; lia.
Qed.

Lemma pcm24_frame_length T arrays nc i l buf buf' :
  for_each l (Writer.pcm24_store T arrays nc i) buf = Ret buf' ->
  length buf' = length buf.
Proof.
  intros H.
  eapply (for_each_invariant (fun b => length b = length buf));
    [|reflexivity|exact H].
  intros ch b b' Hb Hch. apply pcm24_store_length in Hch as [Hch _]. lia.
Qed.

Lemma pcm24_frames_length T arrays nc l buf buf' :
  for_each l
    (fun i b => for_upto nc (Writer.pcm24_store T arrays nc i) b) buf
  = Ret buf' ->
  length buf' = length buf.
Proof.
  intros H.
  eapply (for_each_invariant (fun b => length b = length buf));
    [|reflexivity|exact H].
  intros i b b' Hb Hi. apply pcm24_frame_length in Hi. lia.
Qed.

Lemma write_to_pcm24_buffer_length T arrays count w w' :
  Writer.write_to_pcm24 T arrays count w = Ret w' ->
  exists buf,
    length buf = (count * Writer.channels w * 3)%nat
    /\ w' = Writer.write_samples T_uint8 buf true w.
Proof.
  unfold Writer.write_to_pcm24, for_upto. intros H.
  unfold mbind at 1, res_mbind at 1 in H.
  match type of H with
  | res_bind ?loop _ = _ => destruct loop as [buf| |] eqn:E
  end; try discriminate H.
  cbn [res_bind] in H. injection H as <-.
  exists buf. split; [|reflexivity].
  apply pcm24_frames_length in E. rewrite E. apply length_replicate.
Qed.

End BufferLength.

(* ------------------------------------------------------------------ *)
(** ** The writer: what a call adds and what closing stores *)
(* ------------------------------------------------------------------ *)

Section WriterAccounting.
Import Writer.

Lemma ofs_write_open bytes s : out_open (ofs_write bytes s) = out_open s.
Proof. unfold ofs_write. destruct (out_open s) eqn:E; [reflexivity|exact E]. Qed.

Lemma write_header_state w :
  m_config (write_header w) = m_config w
  /\ out_open (m_fileStream (write_header w)) = out_open (m_fileStream w)
  /\ m_totalFileSize (write_header w) = m_totalFileSize w.
Proof.
  unfold write_header, with_stream.
  cbn [m_config m_fileStream m_totalFileSize].
  rewrite !ofs_write_open. auto.
Qed.

Lemma create_state openable cfg w :
  create openable cfg = Some w ->
  openable = true /\ m_config w = cfg
  /\ out_open (m_fileStream w) = true /\ m_totalFileSize w = 0.
Proof.
  unfold create, open_file. destruct openable; [|discriminate].
  cbn [negb]. intros [= <-].
  destruct (write_header_state
              (with_stream (mkWriter cfg (mkOfstream false [] 0) 0)
                 (mkOfstream true [] 0))) as (Hc & Ho & Ht).
  rewrite Hc, Ho, Ht. auto.
Qed.

Lemma write_samples_state T buf flag w :
  m_config (write_samples T buf flag w) = m_config w
  /\ out_open (m_fileStream (write_samples T buf flag w))
     = out_open (m_fileStream w)
  /\ m_totalFileSize (write_samples T buf flag w)
     = to_uint32 (m_totalFileSize w
                  + (if flag then Z.of_nat (length buf)
                     else Z.of_nat (length buf) * Z.of_nat (sizeof T))).
Proof.
  unfold write_samples. cbn [m_config m_fileStream m_totalFileSize].
  rewrite ofs_write_open. auto.
Qed.

Ltac interleaved H :=
  unfold mbind at 1, res_mbind at 1 in H;
  match type of H with
  | res_bind ?loop _ = _ =>
      let buf := fresh "buf" in
      let E := fresh "E" in
      destruct loop as [buf| |] eqn:E; try discriminate H;
      cbn [res_bind] in H; injection H as <-;
      apply interleave_length in E
  end.

(** A call that returns leaves the configuration and the stream open
    as they were and adds its samples, three bytes each for 24-bit PCM
    and the size of the element written otherwise, to the 32-bit
    total. *)
Lemma write_accounts T count arrays w w' :
  write T count arrays w = Ret w' ->
  m_config w' = m_config w
  /\ out_open (m_fileStream w') = out_open (m_fileStream w)
  /\ m_totalFileSize w'
     = to_uint32 (m_totalFileSize w
                  + Z.of_nat count * numChannels (m_config w)
                    * disk_sample_bytes (m_config w)).
Proof.
  unfold write.
  destruct (Z.eqb_spec (Z.of_nat (length arrays)) (numChannels (m_config w)))
    as [Hk|]; [|discriminate].
  cbn [negb]. intros H.
  assert (Hnc : Z.of_nat (channels w) = numChannels (m_config w))
    by (unfold channels; lia).
  unfold write_buffer, disk_sample_bytes in *.
  destruct (format (m_config w)) eqn:Ef.
  - destruct (bitDepth (m_config w)) eqn:Ed.
    + unfold write_to_pcm8 in H. interleaved H.
      destruct (write_samples_state T_uint8 buf false w) as (-> & -> & ->).
      rewrite E. repeat split. f_equal. cbn [sizeof]. nia.
    + unfold write_to_pcm16 in H. interleaved H.
      destruct (write_samples_state T_int16 buf false w) as (-> & -> & ->).
      rewrite E. repeat split. f_equal. cbn [sizeof]. nia.
    + apply write_to_pcm24_buffer_length in H as (buf & E & ->).
      destruct (write_samples_state T_uint8 buf true w) as (-> & -> & ->).
      rewrite E. repeat split. f_equal. nia.
    + unfold write_to_pcm32 in H. interleaved H.
      destruct (write_samples_state T_int32 buf false w) as (-> & -> & ->).
      rewrite E. repeat split. f_equal. cbn [sizeof]. nia.
  - unfold write_to_float32 in H.
    destruct (negb (WavBitDepth_eqb (bitDepth (m_config w)) BIT_DEPTH_32));
      [discriminate|].
    interleaved H.
    destruct (write_samples_state T_float buf false w) as (-> & -> & ->).
    rewrite E. repeat split. f_equal. cbn [sizeof]. nia.
Qed.

Lemma to_uint32_add_l a b : to_uint32 (to_uint32 a + b) = to_uint32 (a + b).
Proof. unfold to_uint32, uwrap. apply Zplus_mod_idemp_l. Qed.

Lemma to_uint32_range a : is_uint32 (to_uint32 a).
Proof.
  unfold is_uint32, to_uint32, uwrap.
  change 4294967296 with (2 ^ 32). apply Z.mod_pos_bound. lia.
Qed.

Lemma to_uint32_small z : is_uint32 z -> to_uint32 z = z.
Proof. intros H. apply uwrap_small. simpl. exact H. Qed.

Lemma run_writes_accounts calls :
  forall w w',
    is_uint32 (m_totalFileSize w) ->
    run_writes calls w = Ret w' ->
    m_config w' = m_config w
    /\ out_open (m_fileStream w') = out_open (m_fileStream w)
    /\ m_totalFileSize w'
       = to_uint32 (m_totalFileSize w + payload_bytes (m_config w) calls).
Proof.
  induction calls as [|call calls IH]; intros w w' Hw H.
  - injection H as <-. cbn [payload_bytes]. rewrite Z.add_0_r.
    rewrite to_uint32_small by exact Hw. auto.
  - cbn [run_writes] in H. unfold mbind, res_mbind in H.
    destruct (write _ _ _ w) as [w1| |] eqn:E; try discriminate H.
    cbn [res_bind] in H.
    apply write_accounts in E as (Hc1 & Ho1 & Ht1).
    apply IH in H as (Hc & Ho & Ht);
      [|rewrite Ht1; apply to_uint32_range].
    rewrite Hc, Ho, Ht, Hc1, Ho1, Ht1. repeat split.
    cbn [payload_bytes]. rewrite to_uint32_add_l. f_equal. lia.
Qed.

Lemma close_file_closed w :
  out_open (m_fileStream (close_file w)) = false.
Proof.
  unfold close_file. destruct (out_open (m_fileStream w)) eqn:E.
  - reflexivity.
  - exact E.
Qed.

(** Closing twice is closing once. *)
Lemma close_file_idempotent w : close_file (close_file w) = close_file w.
Proof.
  unfold close_file at 1. rewrite close_file_closed. reflexivity.
Qed.

Lemma close_file_patches w :
  out_open (m_fileStream w) = true -> is_uint32 (m_totalFileSize w) ->
  u32_at 4 (file_of (close_file w)) = to_uint32 (36 + m_totalFileSize w)
  /\ u32_at 40 (file_of (close_file w)) = m_totalFileSize w.
Proof.
  intros Ho Ht. unfold close_file, file_of. rewrite Ho. cbn [negb].
  unfold finalize_header, with_stream, ofs_close, ofs_seekp, ofs_write.
  cbn [m_fileStream m_totalFileSize out_data out_open out_pos].
  rewrite Ho. cbn [out_data out_open out_pos].
  apply u32_at_patched; [apply to_uint32_range | exact Ht].
Qed.

End WriterAccounting.

(** X25. For a writer obtained from [create], not moved since, and any
    sequence of calls to [write] that return: closing stores, as
    unsigned 32-bit fields, 36 plus the total at offset 4 and the total
    at offset 40, where the total is the sum over the calls of frames
    times channels times the bytes of a sample on disk (three for 24-bit
    PCM, the size of the element written otherwise), kept in 32 bits; a
    second close changes nothing; and the destructor of the open writer
    does what close does. *)
Theorem close_finalizes_header
    (cfg : WavFileConfiguration) (calls : list write_call)
    (w0 w : Writer.WavWriter) :
  Writer.create true cfg = Some w0 ->
  run_writes calls w0 = Ret w ->
  let total := to_uint32 (payload_bytes cfg calls) in
  let closed := Writer.close_file w in
  Writer.m_totalFileSize w = total
  /\ u32_at 4 (file_of closed) = to_uint32 (36 + total)
  /\ u32_at 40 (file_of closed) = total
  /\ out_open (Writer.m_fileStream closed) = false
  /\ Writer.close_file closed = closed
  /\ Writer.destructor w = closed.
Proof.
  intros Hcreate Hrun total closed.
  apply create_state in Hcreate as (_ & Hc0 & Ho0 & Ht0).
  apply run_writes_accounts in Hrun as (Hc & Ho & Ht);
    [|rewrite Ht0; unfold is_uint32; lia].
  rewrite Ht0, Hc0, Z.add_0_l in Ht. fold total in Ht.
  rewrite Ho0 in Ho.
  assert (Hsize : is_uint32 (Writer.m_totalFileSize w))
    by (rewrite Ht; apply to_uint32_range).
  destruct (close_file_patches w Ho Hsize) as (H4 & H40).
  fold closed in H4, H40. rewrite Ht in H4, H40.
  repeat split; try assumption.
  - apply close_file_closed.
  - apply close_file_idempotent.
  - unfold Writer.destructor. rewrite Ho. reflexivity.
Qed.

(** C5. A writer that is moved after its writes closes with the sizes of
    an empty file: the move constructor carries the configuration and
    the stream but not the byte total, so closing the new object (or
    destroying it) stores 36 at offset 4 and 0 at offset 40 whatever was
    written, and not 36 plus the total and the total as soon as the total
    is not 0.  After a move assignment the sizes stored are those of the
    total of the target, not of the writer whose stream it took. *)
Theorem close_after_move_forgets_the_total
    (cfg : WavFileConfiguration) (calls : list write_call)
    (w0 w : Writer.WavWriter) :
  Writer.create true cfg = Some w0 ->
  run_writes calls w0 = Ret w ->
  let total := to_uint32 (payload_bytes cfg calls) in
  let moved := Writer.move_constructor w in
  let closed := Writer.close_file moved in
  Writer.m_totalFileSize w = total
  /\ u32_at 4 (file_of closed) = 36
  /\ u32_at 40 (file_of closed) = 0
  /\ Writer.destructor moved = closed
  /\ (total <> 0 ->
      u32_at 4 (file_of closed) <> to_uint32 (36 + total)
      /\ u32_at 40 (file_of closed) <> total)
  /\ (forall target : Writer.WavWriter,
        is_uint32 (Writer.m_totalFileSize target) ->
        u32_at 40 (file_of (Writer.close_file
                              (Writer.move_assignment target w)))
        = Writer.m_totalFileSize target).
Proof.
  intros Hcreate Hrun total moved closed.
  apply create_state in Hcreate as (_ & Hc0 & Ho0 & Ht0).
  apply run_writes_accounts in Hrun as (Hc & Ho & Ht);
    [|rewrite Ht0; unfold is_uint32; lia].
  rewrite Ht0, Hc0, Z.add_0_l in Ht. fold total in Ht.
  rewrite Ho0 in Ho.
  assert (Hopen : out_open (Writer.m_fileStream moved) = true) by exact Ho.
  assert (Hzero : is_uint32 (Writer.m_totalFileSize moved))
    by (unfold moved, is_uint32; cbn [Writer.move_constructor
                                       Writer.m_totalFileSize]; lia).
  destruct (close_file_patches moved Hopen Hzero) as (H4 & H40).
  fold closed in H4, H40.
  change (Writer.m_totalFileSize moved) with 0 in H4, H40.
  change (to_uint32 (36 + 0)) with 36 in H4.
  assert (Hrange : is_uint32 total) by apply to_uint32_range.
  split; [exact Ht|]. split; [exact H4|]. split; [exact H40|].
  split; [|split].
  - unfold Writer.destructor. rewrite Hopen. reflexivity.
  - intros Hne. rewrite H4, H40. split; [|lia].
    unfold is_uint32 in Hrange. unfold to_uint32, uwrap.
    change (2 ^ 32) with 4294967296.
    destruct (Z_lt_ge_dec (36 + total) 4294967296) as [Hlo|Hhi].
    + rewrite Z.mod_small by lia. lia.
    + replace (36 + total) with (36 + total - 4294967296 + 1 * 4294967296)
        by lia.
      rewrite Z.mod_add by lia. rewrite Z.mod_small by lia. lia.
  - intros target Htarget.
    apply (close_file_patches (Writer.move_assignment target w)).
    + exact Ho.
    + exact Htarget.
Qed.


(** The writer checks that the file can be opened and nothing else. *)
Lemma writer_create_never_validates (cfg : WavFileConfiguration) :
  exists w, Writer.create true cfg = Some w /\ Writer.m_config w = cfg.
Proof.
  unfold Writer.create, Writer.open_file. cbn [negb].
  eexists. split; [reflexivity|].
  apply write_header_state.
Qed.

(** C7. [create] on a FLOAT configuration with 16 bits and a path that
    can be opened returns a writer: the header is written with format
    tag 3 and bit depth 16, and the reader of this repository refuses the
    file once it is closed. *)
Theorem writer_create_accepts_float_16bit :
  format float16_configuration = FLOAT
  /\ bitDepth float16_configuration = BIT_DEPTH_16
  /\ exists w,
       Writer.create true float16_configuration = Some w
       /\ out_open (Writer.m_fileStream w) = true
       /\ le_combine (take 2 (drop 20 (file_of w))) = 3
       /\ le_combine (take 2 (drop 34 (file_of w))) = 16
       /\ Reader.create (single_file (file_of (Writer.close_file w)))
            "float16.wav" = None.
Proof. evaluate. Qed.

(** C9. [write] compares the number of channel arrays it was given with
    the configured channel count before anything else: on a mismatch the
    assertion fails, whatever the arrays hold, and on a match the call
    is the call of [write_buffer]. *)
Theorem write_asserts_channel_count
    (T : SampleType) (count : nat) (arrays : list (list Z))
    (w : Writer.WavWriter) :
  (Z.of_nat (length arrays) <> numChannels (Writer.m_config w) ->
   Writer.write T count arrays w = AssertFail)
  /\ (Z.of_nat (length arrays) = numChannels (Writer.m_config w) ->
      Writer.write T count arrays w = Writer.write_buffer T arrays count w).
Proof.
  unfold Writer.write.
  destruct (Z.eqb_spec (Z.of_nat (length arrays))
              (numChannels (Writer.m_config w))) as [E|E]; cbn [negb];
    split; intros H; try reflexivity; contradiction.
Qed.

(** C1. One frame written to a two-channel 24-bit PCM writer: the byte
    index [((i * nc + ch) * 3 + k) * nc + ch] sends the first byte of
    channel 1 to index 7 of a buffer of 6 bytes, where the interleaved
    layout has it at offset 3, and the call runs out of the buffer. *)
Theorem write_pcm24_two_channels_overruns :
  exists w,
    Writer.create true stereo24_configuration = Some w
    /\ Writer.pcm24_index 2 0 1 0 = 7%nat
    /\ packed_offset 2 0 1 0 = 3%nat
    /\ length (replicate (1 * Writer.channels w * 3) 0) = 6%nat
    /\ Writer.write T_int32 1 [[256]; [512]] w = Undefined.
Proof. evaluate. Qed.

(* ------------------------------------------------------------------ *)
(** ** Instances *)
(* ------------------------------------------------------------------ *)

Lemma integer_conversions_match_table_witness :
  is_uint8 200 /\ is_int16 (-12345) /\ is_int32 (-1234567890)
  /\ convert_int16_to_uint8 (-12345) = Formula.int16_to_uint8 (-12345).
Proof.
  assert (H8 : is_uint8 200) by (unfold is_uint8; lia).
  assert (H16 : is_int16 (-12345)) by (unfold is_int16; lia).
  assert (H32 : is_int32 (-1234567890)) by (unfold is_int32; lia).
  split; [exact H8|]. split; [exact H16|]. split; [exact H32|].
  exact (proj1 (integer_conversions_match_table 200 (-12345) (-1234567890)
                  H8 H16 H32)).
Defined.

Lemma widen_then_narrow_identity_witness :
  is_uint8 7 /\ is_int16 (-32768)
  /\ convert_int16_to_uint8 (convert_uint8_to_int16 7) = 7.
Proof.
  assert (H8 : is_uint8 7) by (unfold is_uint8; lia).
  assert (H16 : is_int16 (-32768)) by (unfold is_int16; lia).
  split; [exact H8|]. split; [exact H16|].
  exact (proj1 (widen_then_narrow_identity 7 (-32768) H8 H16)).
Defined.


Lemma close_finalizes_header_witness :
  exists w0 w,
    Writer.create true mono24_configuration = Some w0
    /\ run_writes [mkCall T_int16 2 [[1; -2]]] w0 = Ret w
    /\ u32_at 4 (file_of (Writer.close_file w)) = 42
    /\ u32_at 40 (file_of (Writer.close_file w)) = 6.
Proof.
  let c := eval vm_compute in (Writer.create true mono24_configuration) in
  match c with
  | Some ?w0 =>
      let r := eval vm_compute in
                 (run_writes [mkCall T_int16 2 [[1; -2]]] w0) in
      match r with
      | Ret ?w =>
          exists w0, w;
          assert (H1 : Writer.create true mono24_configuration = Some w0)
            by (vm_compute; reflexivity);
          assert (H2 : run_writes [mkCall T_int16 2 [[1; -2]]] w0 = Ret w)
            by (vm_compute; reflexivity);
          destruct (close_finalizes_header mono24_configuration
                      [mkCall T_int16 2 [[1; -2]]] w0 w H1 H2)
            as (_ & H4 & H40 & _);
          split; [exact H1|]; split; [exact H2|]; split;
          [rewrite H4 | rewrite H40]; vm_compute; reflexivity
      end
  end.
Defined.

Lemma close_after_move_forgets_the_total_witness :
  exists w0 w,
    Writer.create true mono24_configuration = Some w0
    /\ run_writes [mkCall T_int16 2 [[1; -2]]] w0 = Ret w
    /\ Writer.m_totalFileSize w = 6
    /\ u32_at 4 (file_of (Writer.close_file (Writer.move_constructor w)))
       = 36
    /\ u32_at 40 (file_of (Writer.close_file (Writer.move_constructor w)))
       = 0.
Proof.
  let c := eval vm_compute in (Writer.create true mono24_configuration) in
  match c with
  | Some ?w0 =>
      let r := eval vm_compute in
                 (run_writes [mkCall T_int16 2 [[1; -2]]] w0) in
      match r with
      | Ret ?w =>
          exists w0, w;
          assert (H1 : Writer.create true mono24_configuration = Some w0)
            by (vm_compute; reflexivity);
          assert (H2 : run_writes [mkCall T_int16 2 [[1; -2]]] w0 = Ret w)
            by (vm_compute; reflexivity);
          destruct (close_after_move_forgets_the_total mono24_configuration
                      [mkCall T_int16 2 [[1; -2]]] w0 w H1 H2)
            as (Ht & H4 & H40 & _);
          split; [exact H1|]; split; [exact H2|]; split;
          [rewrite Ht; vm_compute; reflexivity|]; split;
          [exact H4 | exact H40]
      end
  end.
Defined.

Lemma write_asserts_channel_count_witness :
  exists w,
    Writer.create true stereo24_configuration = Some w
    /\ Writer.write T_int16 1 [[1]] w = AssertFail.
Proof.
  eexists. split; [vm_compute; reflexivity|].
  apply write_asserts_channel_count. vm_compute. discriminate.
Defined.

(* ------------------------------------------------------------------ *)
(** ** 24-bit PCM output: one channel is packed, more overrun *)
(* ------------------------------------------------------------------ *)

(** X22. The index of [write_to_pcm24] is the interleaved offset for a single
    channel, and for more channels only at the very first byte. *)
Lemma pcm24_index_packed_iff (nc i ch k : nat) :
  (ch < nc)%nat ->
  Writer.pcm24_index nc i ch k = packed_offset nc i ch k
  <-> nc = 1%nat \/ (i = 0%nat /\ ch = 0%nat /\ k = 0%nat).
Proof.
  unfold Writer.pcm24_index, packed_offset. intros Hch. split.
  - intros H. destruct (Nat.eq_dec nc 1%nat) as [|Hn]; [left; assumption|right].
    assert (Hz : ((i * nc + ch) * 3 + k = 0)%nat) by nia.
    assert (ch = 0%nat) by lia. assert (k = 0%nat) by lia.
    assert (i = 0%nat) by nia. auto.
  - intros [-> | (-> & -> & ->)]; lia.
Qed.

Section Pcm24Overrun.
Import Writer.

Lemma seq_last n : (0 < n)%nat -> seq 0 n = seq 0 (n - 1) ++ [(n - 1)%nat].
Proof.
  intros H. replace n with (S (n - 1)) at 1 by lia.
  rewrite seq_S. reflexivity.
Qed.

(** X23. With two channels or more the last store of the last frame lies
    outside the buffer, so a call for at least one frame never returns. *)
Lemma write_to_pcm24_never_returns T arrays count w w' :
  (2 <= channels w)%nat -> (1 <= count)%nat ->
  write_to_pcm24 T arrays count w <> Ret w'.
Proof.
  intros Hnc Hcount H. unfold write_to_pcm24, for_upto in H.
  unfold mbind at 1, res_mbind at 1 in H.
  match type of H with
  | res_bind ?loop _ = _ => destruct loop as [buf| |] eqn:E
  end; try discriminate H. clear H.
  set (nc := channels w) in *.
  rewrite (seq_last count) in E by lia.
  apply for_each_last in E as (s1 & E1 & Elast).
  apply pcm24_frames_length in E1. rewrite length_replicate in E1.
  rewrite (seq_last nc) in Elast by lia.
  apply for_each_last in Elast as (s2 & E2 & Estore).
  apply pcm24_frame_length in E2.
  apply pcm24_store_length in Estore as [_ Hlt].
  unfold pcm24_index in Hlt. nia.
Qed.

End Pcm24Overrun.

Section Pcm24Mono.
Import Writer.

Lemma vec_set_middle {A} (pre : list A) a x post :
  vec_set (pre ++ a :: post) (length pre) x = Ret (pre ++ x :: post).
Proof.
  unfold vec_set. rewrite length_app. cbn [length].
  destruct (Nat.ltb_spec (length pre) (length pre + S (length post)));
    [|lia].
  f_equal. replace (length pre) with (length pre + 0)%nat at 1 by lia.
  rewrite insert_app_r. reflexivity.
Qed.

Lemma to_pcm24_integer T x :
  integer_type T -> to_pcm24 T x = Ret (int24_of T x).
Proof. unfold integer_type. destruct T; [contradiction| | |]; reflexivity. Qed.

Lemma sample_of_mono (before : list Z) x after :
  sample_of [before ++ x :: after] 0 (length before) = Ret x.
Proof.
  unfold sample_of.
  change (vec_get [before ++ x :: after] 0) with (Ret (before ++ x :: after)).
  unfold mbind, res_mbind. cbn [res_bind]. apply vec_get_middle.
Qed.

(** The three stores of one frame of a single channel fill the next
    three bytes. *)
Lemma pcm24_store_mono T samples_before x samples_after done n :
  integer_type T ->
  length done = (length samples_before * 3)%nat ->
  pcm24_store T [samples_before ++ x :: samples_after] 1
    (length samples_before) 0 (done ++ replicate (S n * 3) 0)
  = Ret ((done ++ [to_uint8 (int_and (int24_of T x) 255);
                   to_uint8 (int_and (int_shr (int24_of T x) 8) 255);
                   to_uint8 (int_and (int_shr (int24_of T x) 16) 255)])
           ++ replicate (n * 3) 0).
Proof.
  intros HT Hdone. unfold pcm24_store.
  rewrite sample_of_mono.
  unfold mbind at 1, res_mbind at 1. cbn [res_bind].
  rewrite to_pcm24_integer by exact HT.
  unfold mbind at 1, res_mbind at 1. cbn [res_bind].
  assert (I0 : pcm24_index 1 (length samples_before) 0 0 = length done)
    by (unfold pcm24_index; lia).
  assert (I1 : pcm24_index 1 (length samples_before) 0 1
               = length (done ++ [to_uint8 (int_and (int24_of T x) 255)]))
    by (rewrite length_app; unfold pcm24_index; simpl; lia).
  assert (I2 : pcm24_index 1 (length samples_before) 0 2
               = length ((done ++ [to_uint8 (int_and (int24_of T x) 255)])
                           ++ [to_uint8
                                 (int_and (int_shr (int24_of T x) 8) 255)]))
    by (rewrite !length_app; unfold pcm24_index; simpl; lia).
  rewrite I0, I1, I2. clear I0 I1 I2.
  cbn [Nat.mul Nat.add replicate].
  rewrite vec_set_middle.
  unfold mbind at 1, res_mbind at 1. cbn [res_bind].
  replace (done ++ to_uint8 (int_and (int24_of T x) 255)
             :: 0 :: 0 :: replicate (n * 3) 0)
    with ((done ++ [to_uint8 (int_and (int24_of T x) 255)])
            ++ 0 :: 0 :: replicate (n * 3) 0)
    by (rewrite <- app_assoc; reflexivity).
  rewrite vec_set_middle.
  unfold mbind at 1, res_mbind at 1. cbn [res_bind].
  match goal with
  | |- vec_set (?p ++ ?b :: 0 :: ?r) _ _ = _ =>
      replace (p ++ b :: 0 :: r) with ((p ++ [b]) ++ 0 :: r)
        by (rewrite <- app_assoc; reflexivity)
  end.
  rewrite vec_set_middle.
  rewrite <- !app_assoc. reflexivity.
Qed.

Lemma for_upto_1 {S} (body : nat -> S -> res S) s :
  for_upto 1 body s = body 0%nat s.
Proof.
  unfold for_upto. cbn [seq for_each]. unfold mbind, res_mbind.
  destruct (body 0%nat s); reflexivity.
Qed.

Lemma pcm24_frames_mono T :
  integer_type T ->
  forall todo before after done,
    length done = (length before * 3)%nat ->
    for_each (seq (length before) (length todo))
      (fun i b => for_upto 1 (pcm24_store T [before ++ todo ++ after] 1 i) b)
      (done ++ replicate (length todo * 3) 0)
    = Ret (done ++ concat (map (stored24 T) todo)).
Proof.
  intros HT. induction todo as [|x todo IH]; intros before after done Hdone.
  - cbn [length seq for_each Nat.mul replicate map concat]. reflexivity.
  - cbn [length seq for_each]. rewrite for_upto_1.
    rewrite <- app_comm_cons.
    rewrite pcm24_store_mono by assumption.
    unfold mbind at 1, res_mbind at 1. cbn [res_bind].
    replace (before ++ x :: todo ++ after)
      with ((before ++ [x]) ++ todo ++ after)
      by (rewrite <- app_assoc; reflexivity).
    replace (S (length before)) with (length (before ++ [x]))
      by (rewrite length_app; simpl; lia).
    rewrite IH by (rewrite !length_app; simpl; lia).
    cbn [map concat]. rewrite <- !app_assoc. reflexivity.
Qed.

End Pcm24Mono.

Lemma land_255_range a : 0 <= Z.land a 255 < 256.
Proof.
  change 255 with (Z.ones 8). rewrite Z.land_ones by lia.
  apply Z.mod_pos_bound. reflexivity.
Qed.

Lemma stored24_bytes24 T x : stored24 T x = bytes24 (int24_of T x).
Proof.
  unfold stored24, bytes24, int_and, int_shr.
  rewrite !to_uint8_small by apply land_255_range. reflexivity.
Qed.

(** Byte [k] of sample [i] sits at offset [i * 3 + k] of the packed
    payload. *)
Lemma packed24_lookup (samples : list Z) (i k : nat) x :
  samples !! i = Some x -> (k < 3)%nat ->
  packed24 samples !! packed_offset 1 i 0 k = bytes24 x !! k.
Proof.
  unfold packed24, packed_offset. revert i.
  induction samples as [|y samples IH]; intros i Hi Hk; [discriminate Hi|].
  destruct i as [|i]; cbn [map concat].
  - injection Hi as ->. rewrite lookup_app_l by (simpl; lia).
    f_equal; lia.
  - rewrite lookup_app_r by (simpl; lia). cbn [bytes24 length].
    rewrite <- (IH i Hi Hk). f_equal; lia.
Qed.

(** X24. With one channel and an integer element type, [write] on a 24-bit
    PCM writer appends exactly three little-endian bytes per sample, one
    sample after the other: byte [k] of frame [i] at offset [i * 3 + k]. *)
Theorem write_pcm24_mono_is_packed
    (T : SampleType) (samples : list Z) (count : nat) (w : Writer.WavWriter) :
  integer_type T ->
  format (Writer.m_config w) = PCM ->
  bitDepth (Writer.m_config w) = BIT_DEPTH_24 ->
  numChannels (Writer.m_config w) = 1 ->
  (count <= length samples)%nat ->
  let payload := packed24 (map (int24_of T) (take count samples)) in
  Writer.write T count [samples] w
  = Ret (Writer.write_samples T_uint8 payload true w)
  /\ length payload = (count * 1 * 3)%nat.
Proof.
  intros HT Hf Hd Hnc Hcount payload. split.
  - unfold Writer.write. cbn [length]. rewrite Hnc. cbn [Z.of_nat Z.eqb negb].
    change (Z.pos (Pos.of_succ_nat 0) =? 1) with true. cbn [negb].
    unfold Writer.write_buffer. rewrite Hf, Hd.
    unfold Writer.write_to_pcm24, Writer.channels. rewrite Hnc.
    change (Z.to_nat 1) with 1%nat.
    pose proof (pcm24_frames_mono T HT (take count samples) []
                  (drop count samples) [] eq_refl) as E.
    rewrite take_drop in E. rewrite length_take_le in E by exact Hcount.
    cbn [app length] in E.
    unfold for_upto at 1.
    replace (count * 1 * 3)%nat with (count * 3)%nat by lia.
    rewrite E. unfold mbind, res_mbind. cbn [res_bind].
    unfold payload, packed24. rewrite map_map.
    do 3 f_equal. apply map_ext. intros x. apply stored24_bytes24.
  - unfold payload, packed24.
    assert (L : forall l : list Z, length (concat (map bytes24 l))
                                   = (length l * 3)%nat).
    { induction l as [|y l IH]; [reflexivity|].
      cbn [map concat]. rewrite length_app, IH. simpl. lia. }
    rewrite L, length_map, length_take_le by exact Hcount. lia.
Qed.

Lemma write_pcm24_mono_is_packed_witness :
  exists w,
    Writer.create true mono24_configuration = Some w
    /\ Writer.write T_int16 2 [[1; -2]] w
       = Ret (Writer.write_samples T_uint8 [0; 1; 0; 0; 254; 255] true w).
Proof.
  eexists. split; [vm_compute; reflexivity|].
  match goal with
  | |- Writer.write _ _ _ ?w = _ =>
      apply (proj1 (write_pcm24_mono_is_packed T_int16 [1; -2] 2 w
                      ltac:(discriminate) eq_refl eq_refl eq_refl
                      ltac:(simpl; lia)))
  end.
Defined.

(* ================================================================== *)
(** * Further properties of the conversions *)
(* ================================================================== *)

Section ConversionProperties.

Lemma holds_on_spec test lo n x :
  holds_on test lo n = true -> lo <= x < lo + Z.of_nat n -> test x = true.
Proof.
  unfold holds_on. intros H Hx.
  rewrite forallb_forall in H.
  replace x with (lo + Z.of_nat (Z.to_nat (x - lo))) by lia.
  apply H. apply in_seq. lia.
Qed.

Lemma returns_itself_spec f x : returns_itself f x = true -> f x = Ret x.
Proof.
  unfold returns_itself. destruct (f x) as [y| |]; try discriminate.
  intros H. apply Z.eqb_eq in H. congruence.
Qed.

Lemma returns_as_spec f g x : returns_as f g x = true -> f x = Ret (g x).
Proof.
  unfold returns_as. destruct (f x) as [y| |]; try discriminate.
  intros H. apply Z.eqb_eq in H. congruence.
Qed.

Lemma is_undefined_spec f x : is_undefined f x = true -> f x = Undefined.
Proof.
  unfold is_undefined. destruct (f x); try discriminate. reflexivity.
Qed.

End ConversionProperties.

(** X1. Every 24-bit carrier produced by an integer converter fits 24 bits,
    so the three bytes written for it lose nothing. *)
Theorem int24_carriers_fit_24_bits (u8 i16 i32 : Z) :
  is_uint8 u8 -> is_int16 i16 -> is_int32 i32 ->
  is_int24 (convert_uint8_to_int24 u8)
  /\ is_int24 (convert_int16_to_int24 i16)
  /\ is_int24 (convert_int32_to_int24 i32).
Proof.
  intros H8 H16 H32.
  rewrite uint8_to_int24_formula, int16_to_int24_formula,
    int32_to_int24_formula by assumption.
  unfold Formula.uint8_to_int24, Formula.int16_to_int24,
    Formula.int32_to_int24, is_int24, is_uint8, is_int16, is_int32 in *.
  rewrite Z.shiftl_mul_pow2 by lia. change (2 ^ 8) with 256.
  assert (-8388608 <= Z.shiftr i32 8 < 8388608)
    by (apply shiftr_bounds; simpl; lia).
  lia.
Qed.

Lemma int24_carriers_fit_24_bits_witness :
  is_int24 (convert_uint8_to_int24 255)
  /\ is_int24 (convert_int16_to_int24 (-32768))
  /\ is_int24 (convert_int32_to_int24 2147483647).
Proof.
  apply int24_carriers_fit_24_bits;
    unfold is_uint8, is_int16, is_int32; lia.
Defined.

(** X2. The integer conversions agree with each other: going from 8 bits to
    24 or 32 bits directly or through 16 bits is the same, narrowing 32
    bits to 8 directly or through 16 bits is the same, and widening 16
    bits to 32 and taking the 24-bit carrier of that is the 24-bit
    carrier of the 16-bit sample. *)
Theorem integer_conversions_commute (u8 i16 i32 : Z) :
  is_uint8 u8 -> is_int16 i16 -> is_int32 i32 ->
  convert_int16_to_int24 (convert_uint8_to_int16 u8)
  = convert_uint8_to_int24 u8
  /\ convert_int16_to_int32 (convert_uint8_to_int16 u8)
     = convert_uint8_to_int32 u8
  /\ convert_int16_to_uint8 (convert_int32_to_int16 i32)
     = convert_int32_to_uint8 i32
  /\ convert_int32_to_int24 (convert_int16_to_int32 i16)
     = convert_int16_to_int24 i16
  /\ convert_int32_to_int24 (convert_uint8_to_int32 u8)
     = convert_uint8_to_int24 u8.
Proof.
  intros H8 H16 H32.
  assert (B16 : is_int16 (convert_uint8_to_int16 u8)).
  { rewrite uint8_to_int16_formula by exact H8.
    unfold Formula.uint8_to_int16, is_int16, is_uint8 in *. lia. }
  assert (B32 : is_int16 (convert_int32_to_int16 i32)).
  { rewrite int32_to_int16_formula by exact H32.
    unfold Formula.int32_to_int16, is_int16, is_int32 in *.
    apply shiftr_bounds; simpl; lia. }
  assert (C32 : is_int32 (convert_int16_to_int32 i16)).
  { rewrite int16_to_int32_formula by exact H16.
    unfold Formula.int16_to_int32, is_int16, is_int32 in *.
    rewrite Z.shiftl_mul_pow2 by lia. change (2 ^ 16) with 65536. lia. }
  assert (D32 : is_int32 (convert_uint8_to_int32 u8)).
  { rewrite uint8_to_int32_formula by exact H8.
    unfold Formula.uint8_to_int32, is_uint8, is_int32 in *.
    rewrite Z.shiftl_mul_pow2 by lia. change (2 ^ 24) with 16777216. lia. }
  repeat match goal with |- _ /\ _ => split end.
  - rewrite int16_to_int24_formula by exact B16.
    rewrite uint8_to_int16_formula, uint8_to_int24_formula by exact H8.
    unfold Formula.int16_to_int24, Formula.uint8_to_int16,
      Formula.uint8_to_int24.
    rewrite Z.shiftl_mul_pow2 by lia. change (2 ^ 8) with 256. lia.
  - rewrite int16_to_int32_formula by exact B16.
    rewrite uint8_to_int16_formula, uint8_to_int32_formula by exact H8.
    unfold Formula.int16_to_int32, Formula.uint8_to_int16,
      Formula.uint8_to_int32.
    rewrite !Z.shiftl_mul_pow2 by lia.
    change (2 ^ 16) with 65536. change (2 ^ 24) with 16777216. lia.
  - rewrite int16_to_uint8_formula by exact B32.
    rewrite int32_to_int16_formula, int32_to_uint8_formula by exact H32.
    unfold Formula.int16_to_uint8, Formula.int32_to_int16,
      Formula.int32_to_uint8.
    rewrite Z.shiftr_shiftr by lia. reflexivity.
  - rewrite int32_to_int24_formula by exact C32.
    rewrite int16_to_int32_formula, int16_to_int24_formula by exact H16.
    unfold Formula.int32_to_int24, Formula.int16_to_int32,
      Formula.int16_to_int24.
    rewrite Z.shiftr_shiftl_l by lia. reflexivity.
  - rewrite int32_to_int24_formula by exact D32.
    rewrite uint8_to_int32_formula, uint8_to_int24_formula by exact H8.
    unfold Formula.int32_to_int24, Formula.uint8_to_int32,
      Formula.uint8_to_int24.
    rewrite Z.shiftr_shiftl_l by lia.
    rewrite Z.shiftl_mul_pow2 by lia. reflexivity.
Qed.

Lemma integer_conversions_commute_witness :
  convert_int16_to_int24 (convert_uint8_to_int16 0)
  = convert_uint8_to_int24 0
  /\ convert_int16_to_uint8 (convert_int32_to_int16 (-1))
     = convert_int32_to_uint8 (-1).
Proof.
  destruct (integer_conversions_commute 0 0 (-1)) as (H1 & _ & H3 & _);
    [unfold is_uint8; lia | unfold is_int16; lia | unfold is_int32; lia |].
  split; [exact H1 | exact H3].
Defined.

(** X4. An 8-bit sample converted to float and back comes back
    unchanged when [convert_float_to_uint8] rounds its product and its
    sum separately.  When the two are contracted into one fused
    multiply-add, the samples from 1 to 63 come back one lower and all
    others unchanged: either way the result is the sample or the
    sample minus one, and never undefined. *)
Theorem uint8_through_float_either_evaluation (x : Z) :
  is_uint8 x ->
  uint8_through_float x = Ret x
  /\ uint8_through_float_contracted x = Ret (one_lower_up_to_63 x)
  /\ x - 1 <= one_lower_up_to_63 x <= x.
Proof.
  intros H. unfold is_uint8 in H. split; [|split].
  - apply returns_itself_spec.
    apply (holds_on_spec _ 0 256); [vm_compute; reflexivity | lia].
  - apply returns_as_spec.
    apply (holds_on_spec _ 0 256); [vm_compute; reflexivity | lia].
  - unfold one_lower_up_to_63.
    destruct ((1 <=? x) && (x <=? 63)); lia.
Qed.

Lemma uint8_through_float_either_evaluation_witness :
  (uint8_through_float 200 = Ret 200
   /\ uint8_through_float_contracted 200 = Ret 200)
  /\ (uint8_through_float 63 = Ret 63
      /\ uint8_through_float_contracted 63 = Ret 62).
Proof.
  split.
  - destruct (uint8_through_float_either_evaluation 200) as (H1 & H2 & _);
      [unfold is_uint8; lia|].
    split; [exact H1 | exact H2].
  - destruct (uint8_through_float_either_evaluation 63) as (H1 & H2 & _);
      [unfold is_uint8; lia|].
    split; [exact H1 | exact H2].
Defined.

(** X5. The 64 largest 32-bit samples become 1.0 as floats, and 1.0 times
    the literal 2147483647.0f, which is 2^31, is not an [int32_t]:
    converting them to float and back is undefined. *)
Theorem int32_through_float_undefined_at_the_top (x : Z) :
  2147483584 <= x <= 2147483647 -> int32_through_float x = Undefined.
Proof.
  intros H. apply is_undefined_spec.
  apply (holds_on_spec _ 2147483584 64); [vm_compute; reflexivity|].
  lia.
Qed.

Lemma int32_through_float_undefined_at_the_top_witness :
  int32_through_float 2147483647 = Undefined.
Proof. apply int32_through_float_undefined_at_the_top. lia. Defined.

(* ================================================================== *)
(** * 24-bit samples: three bytes out, three bytes in *)
(* ================================================================== *)

Section Bits24.

Lemma land_low_shifted a b k :
  0 <= k -> 0 <= a < 2 ^ k -> Z.land a (Z.shiftl b k) = 0.
Proof.
  intros Hk Ha. apply Z.bits_inj'. intros n Hn.
  rewrite Z.land_spec, Z.bits_0.
  destruct (Z_lt_ge_dec n k) as [Hlt|Hge].
  - rewrite Z.shiftl_spec_low by lia. apply andb_false_r.
  - destruct (Z.eq_dec a 0) as [->|Ha0]; [rewrite Z.bits_0; reflexivity|].
    rewrite (Z.bits_above_log2 a n); [reflexivity|lia|].
    apply Z.lt_le_trans with k; [|lia].
    apply Z.log2_lt_pow2; lia.
Qed.

Lemma lor_low_shifted a b k :
  0 <= k -> 0 <= a < 2 ^ k -> Z.lor a (Z.shiftl b k) = a + b * 2 ^ k.
Proof.
  intros Hk Ha.
  rewrite <- Z.lxor_lor by (apply land_low_shifted; assumption).
  rewrite <- Z.add_nocarry_lxor by (apply land_low_shifted; assumption).
  rewrite Z.shiftl_mul_pow2 by exact Hk. reflexivity.
Qed.

Lemma bit23_of_24 s :
  0 <= s < 16777216 -> (Z.land s 8388608 =? 0) = (s <? 8388608).
Proof.
  intros Hs.
  pose proof (Z.div_mod s 8388608 ltac:(lia)) as E.
  pose proof (Z.mod_pos_bound s 8388608 ltac:(lia)) as B.
  assert (Hq : s / 8388608 = 0 \/ s / 8388608 = 1).
  { assert (0 <= s / 8388608 < 2); [|lia]. split.
    - apply Z.div_pos; lia.
    - apply Z.div_lt_upper_bound; lia. }
  set (lo := s mod 8388608) in *. set (hi := s / 8388608) in *.
  replace s with (Z.lor lo (Z.shiftl hi 23)) at 1.
  2:{ rewrite lor_low_shifted by (simpl; lia).
      change (2 ^ 23) with 8388608. lia. }
  change 8388608 with (Z.shiftl 1 23) at 1.
  rewrite Z.land_lor_distr_l.
  rewrite land_low_shifted by (simpl; lia).
  rewrite Z.lor_0_l, <- Z.shiftl_land.
  destruct Hq as [Hq|Hq]; rewrite Hq; cbn [Z.land Z.shiftl];
    [destruct (Z.ltb_spec s 8388608) | destruct (Z.ltb_spec s 8388608)];
    try reflexivity; lia.
Qed.

(** The value [assemble24] gives three bytes: their little-endian sum,
    read as a 24-bit two's complement number. *)
Lemma assemble24_value b0 b1 b2 :
  is_uint8 b0 -> is_uint8 b1 -> is_uint8 b2 ->
  Reader.assemble24 b0 b1 b2 = swrap 24 (b0 + 256 * b1 + 65536 * b2).
Proof.
  unfold is_uint8. intros H0 H1 H2. unfold Reader.assemble24.
  unfold int_or, int_and, int_shl.
  rewrite !land_255_small by assumption.
  rewrite (Z.shiftl_mul_pow2 b1 8), (Z.shiftl_mul_pow2 b2 16) by lia.
  change (2 ^ 8) with 256. change (2 ^ 16) with 65536.
  rewrite !to_int32_small by lia.
  replace (b1 * 256) with (Z.shiftl b1 8)
    by (rewrite Z.shiftl_mul_pow2 by lia; reflexivity).
  rewrite lor_low_shifted by (simpl; lia). change (2 ^ 8) with 256.
  replace (b2 * 65536) with (Z.shiftl b2 16)
    by (rewrite Z.shiftl_mul_pow2 by lia; reflexivity).
  rewrite lor_low_shifted by (simpl; lia). change (2 ^ 16) with 65536.
  set (s := b0 + b1 * 256 + b2 * 65536).
  assert (Hs : 0 <= s < 16777216) by (unfold s; lia).
  replace (b0 + 256 * b1 + 65536 * b2) with s by (unfold s; lia).
  rewrite bit23_of_24 by exact Hs.
  unfold swrap. change (2 ^ (24 - 1)) with 8388608.
  change (2 ^ 24) with 16777216.
  destruct (Z.ltb_spec s 8388608) as [Hlt|Hge]; cbn [negb].
  - rewrite Z.mod_small by lia. lia.
  - unfold to_uint32. rewrite uwrap_small by (simpl; lia).
    change 4278190080 with (Z.shiftl 255 24).
    rewrite lor_low_shifted by (simpl; lia).
    change (255 * 2 ^ 24) with 4278190080.
    unfold to_int32, swrap. change (2 ^ (32 - 1)) with 2147483648.
    change (2 ^ 32) with 4294967296.
    replace (s + 4278190080 + 2147483648)
      with (s - 16777216 + 2147483648 + 1 * 4294967296) by lia.
    rewrite Z.mod_add by lia. rewrite Z.mod_small by lia.
    replace (s + 8388608) with (s - 8388608 + 1 * 16777216) by lia.
    rewrite Z.mod_add by lia. rewrite Z.mod_small by lia. lia.
Qed.

Lemma bytes24_sum s :
  Z.land s 255 + 256 * Z.land (Z.shiftr s 8) 255
  + 65536 * Z.land (Z.shiftr s 16) 255
  = s mod 16777216.
Proof.
  change 255 with (Z.ones 8). rewrite !Z.land_ones by lia.
  rewrite !Z.shiftr_div_pow2 by lia.
  change (2 ^ 8) with 256. change (2 ^ 16) with 65536.
  replace 65536 with (256 * 256) at 2 by reflexivity.
  rewrite <- Z.div_div by lia.
  pose proof (Z.div_mod s 256 ltac:(lia)).
  pose proof (Z.mod_pos_bound s 256 ltac:(lia)).
  pose proof (Z.div_mod (s / 256) 256 ltac:(lia)).
  pose proof (Z.mod_pos_bound (s / 256) 256 ltac:(lia)).
  pose proof (Z.div_mod (s / 256 / 256) 256 ltac:(lia)).
  pose proof (Z.mod_pos_bound (s / 256 / 256) 256 ltac:(lia)).
  apply Z.mod_unique with (q := s / 256 / 256 / 256); [left; lia | lia].
Qed.

Lemma bytes24_range s : Forall is_uint8 (bytes24 s).
Proof.
  unfold bytes24, is_uint8. repeat constructor; apply land_255_range.
Qed.

End Bits24.

(** X6. Reading back the three bytes written for a sample gives the low 24
    bits of the sample, sign-extended: the sample itself when it fits 24
    bits. *)
Theorem assemble24_inverts_bytes24 (s : Z) :
  is_int24 s ->
  Reader.assemble24 (Z.land s 255) (Z.land (Z.shiftr s 8) 255)
    (Z.land (Z.shiftr s 16) 255)
  = s.
Proof.
  intros Hs. rewrite assemble24_value by apply land_255_range.
  rewrite bytes24_sum. unfold swrap, is_int24 in *.
  change (2 ^ (24 - 1)) with 8388608. change (2 ^ 24) with 16777216.
  rewrite Zplus_mod_idemp_l. rewrite Z.mod_small by lia. lia.
Qed.

Lemma assemble24_inverts_bytes24_witness :
  Reader.assemble24 (Z.land (-2) 255) (Z.land (Z.shiftr (-2) 8) 255)
    (Z.land (Z.shiftr (-2) 16) 255)
  = -2.
Proof. apply assemble24_inverts_bytes24. unfold is_int24. lia. Defined.

(** X7. Any three bytes are the bytes of the sample they assemble to: the
    24-bit decoding loses nothing either. *)
Theorem bytes24_inverts_assemble24 (b0 b1 b2 : Z) :
  is_uint8 b0 -> is_uint8 b1 -> is_uint8 b2 ->
  is_int24 (Reader.assemble24 b0 b1 b2)
  /\ bytes24 (Reader.assemble24 b0 b1 b2) = [b0; b1; b2].
Proof.
  intros H0 H1 H2. rewrite assemble24_value by assumption.
  unfold is_uint8 in *.
  set (u := b0 + 256 * b1 + 65536 * b2).
  assert (Hu : 0 <= u < 16777216) by (unfold u; lia).
  assert (Hmod : swrap 24 u mod 16777216 = u).
  { unfold swrap. change (2 ^ (24 - 1)) with 8388608.
    change (2 ^ 24) with 16777216.
    rewrite <- Zminus_mod_idemp_l, Z.mod_mod by lia.
    rewrite Zminus_mod_idemp_l.
    replace (u + 8388608 - 8388608) with u by lia.
    apply Z.mod_small. exact Hu. }
  split.
  - unfold swrap, is_int24. change (2 ^ (24 - 1)) with 8388608.
    change (2 ^ 24) with 16777216.
    pose proof (Z.mod_pos_bound (u + 8388608) 16777216 ltac:(lia)). lia.
  - unfold bytes24. set (w := swrap 24 u) in *.
    change 255 with (Z.ones 8). rewrite !Z.land_ones by lia.
    rewrite !Z.shiftr_div_pow2 by lia.
    change (2 ^ 8) with 256. change (2 ^ 16) with 65536.
    pose proof (Z.div_mod w 16777216 ltac:(lia)) as Ew.
    rewrite Hmod in Ew.
    assert (E0 : w mod 256 = b0).
    { rewrite Ew.
      replace (16777216 * (w / 16777216) + u)
        with (b0 + (65536 * (w / 16777216) + b1 + 256 * b2) * 256)
        by (unfold u; lia).
      rewrite Z.mod_add by lia. apply Z.mod_small. lia. }
    assert (E1 : (w / 256) mod 256 = b1).
    { rewrite Ew.
      replace (16777216 * (w / 16777216) + u)
        with (b0 + (65536 * (w / 16777216) + b1 + 256 * b2) * 256)
        by (unfold u; lia).
      rewrite Z.div_add by lia. rewrite Z.div_small by lia.
      replace (0 + (65536 * (w / 16777216) + b1 + 256 * b2))
        with (b1 + (256 * (w / 16777216) + b2) * 256) by lia.
      rewrite Z.mod_add by lia. apply Z.mod_small. lia. }
    assert (E2 : (w / 65536) mod 256 = b2).
    { rewrite Ew.
      replace (16777216 * (w / 16777216) + u)
        with (b0 + 256 * b1 + (256 * (w / 16777216) + b2) * 65536)
        by (unfold u; lia).
      rewrite Z.div_add by lia. rewrite Z.div_small by lia.
      replace (0 + (256 * (w / 16777216) + b2))
        with (b2 + (w / 16777216) * 256) by lia.
      rewrite Z.mod_add by lia. apply Z.mod_small. lia. }
    rewrite E0, E1, E2. reflexivity.
Qed.

Lemma bytes24_inverts_assemble24_witness :
  bytes24 (Reader.assemble24 255 255 255) = [255; 255; 255].
Proof.
  apply (bytes24_inverts_assemble24 255 255 255); unfold is_uint8; lia.
Defined.

(* ================================================================== *)
(** * Further properties of the header scan *)
(* ================================================================== *)

Section HeaderNeeds.
Import Reader.

Lemma strncmp_eq_aux_true n :
  forall a b,
    strncmp_eq_aux n a b = true ->
    Forall (fun c => c <> 0) (take n b) ->
    take n a = take n b.
Proof.
  induction n as [|n IH]; intros a b H Hb; [reflexivity|].
  cbn [strncmp_eq_aux] in H.
  destruct a as [|x a]; [discriminate H|].
  destruct b as [|y b]; [discriminate H|].
  cbn [take] in *. inversion Hb as [|? ? Hy Hb']; subst.
  destruct (Z.eqb_spec x y) as [->|]; [|discriminate H].
  destruct (Z.eqb_spec y 0) as [|_]; [contradiction|].
  f_equal. apply IH; assumption.
Qed.

(** A four-character literal is matched only by its own four bytes, all
    of them read. *)
Lemma strncmp_array4 (got : list Z) (lit : string) n :
  (length got <= n)%nat -> n = 4%nat ->
  length (chars lit) = 4%nat ->
  Forall (fun c => c <> 0) (chars lit) ->
  strncmp_eq (array4 got) lit 4 = true ->
  got = chars lit.
Proof.
  intros Hlen -> Hlit Hnz H. unfold strncmp_eq in H.
  apply strncmp_eq_aux_true in H.
  - rewrite take_app_length' in H by (symmetry; exact Hlit).
    assert (L : length (array4 got) = 4%nat).
    { unfold array4. rewrite length_take, length_app. cbn [length]. lia. }
    rewrite take_ge in H by lia.
    unfold array4 in H.
    destruct (Nat.eq_dec (length got) 4%nat) as [E|E].
    + rewrite take_app_length' in H by (symmetry; exact E). exact H.
    + exfalso.
      assert (Hz : (got ++ [0; 0; 0; 0]) !! length got = Some 0).
      { rewrite lookup_app_r by lia. rewrite Nat.sub_diag. reflexivity. }
      assert (Hz' : take 4 (got ++ [0; 0; 0; 0]) !! length got = Some 0).
      { rewrite lookup_take_lt by lia. exact Hz. }
      rewrite H in Hz'. rewrite Forall_forall in Hnz.
      apply (Hnz 0); [|reflexivity].
      eapply list_elem_of_lookup_2. exact Hz'.
  - rewrite take_app_length' by (symmetry; exact Hlit). exact Hnz.
Qed.

Lemma ifs_read_length n s got s' :
  ifs_read n s = (got, s') -> (length got <= n)%nat.
Proof.
  unfold ifs_read. destruct (in_fail s); intros [= <- <-].
  - simpl. lia.
  - rewrite length_take. lia.
Qed.

(** A read of [n] bytes that returns all of them: the stream was good
    and the bytes are the next [n] of the file. *)
Lemma ifs_read_all n s got s' :
  ifs_read n s = (got, s') -> length got = n -> (0 < n)%nat ->
  in_fail s = false /\ in_fail s' = false
  /\ in_buf s = got ++ in_buf s' /\ in_gcount s' = n.
Proof.
  unfold ifs_read. destruct (in_fail s).
  - intros [= <- <-] H. simpl in H. lia.
  - intros [= <- <-] H _. cbn [in_fail in_buf in_gcount].
    rewrite H, Nat.ltb_irrefl, take_drop. auto.
Qed.

(** A read that leaves the stream good returned all its bytes. *)
Lemma ifs_read_good n s got s' :
  ifs_read n s = (got, s') -> in_fail s' = false ->
  in_fail s = false /\ length got = n /\ in_buf s = got ++ in_buf s'.
Proof.
  unfold ifs_read. destruct (in_fail s).
  - intros [= <- <-]. discriminate.
  - intros [= <- <-]. cbn [in_fail in_buf].
    intros H. apply Nat.ltb_ge in H.
    pose proof (length_take (in_buf s) n) as L.
    rewrite take_drop. repeat split.
    rewrite length_take in *. lia.
Qed.

Lemma ifs_seekg_cur_good off s :
  in_fail (ifs_seekg_cur off s) = false -> in_fail s = false.
Proof.
  unfold ifs_seekg_cur. destruct (in_fail s) eqn:E; [|reflexivity].
  rewrite E. discriminate.
Qed.

Lemma scan_chunks_needs_bytes fuel :
  forall ff fd r r',
    scan_chunks fuel ff fd r = Returned true r' ->
    (bytes_needed ff fd <= length (in_buf (r_fileStream r)))%nat.
Proof.
  induction fuel as [|fuel IH]; intros ff fd r r' H; [discriminate H|].
  cbn [scan_chunks] in H.
  assert (Hdone : forall r0, Returned (ff && fd) r0 = Returned true r' ->
                    (bytes_needed ff fd
                     <= length (in_buf (r_fileStream r)))%nat).
  { intros r0 [= E _]. apply andb_prop in E as [-> ->].
    unfold bytes_needed. simpl. lia. }
  destruct (negb (in_fail (r_fileStream r)) && (negb ff || negb fd)) eqn:Hc;
    [|eapply Hdone; exact H].
  apply andb_prop in Hc as [Hfail _]. apply negb_true_iff in Hfail.
  destruct (ifs_read 4 (r_fileStream r)) as [id fs1] eqn:E1.
  destruct (negb (in_gcount fs1 =? 4)%nat) eqn:Eg; [eapply Hdone; exact H|].
  apply negb_false_iff, Nat.eqb_eq in Eg.
  pose proof (ifs_read_full _ _ _ _ E1 Hfail Eg) as L1.
  destruct (ifs_read 4 fs1) as [sb fs2] eqn:E2.
  destruct (strncmp_eq (array4 id) "fmt " 4).
  - destruct (ifs_read 2 fs2) as [b3 fs3] eqn:E3.
    destruct (ifs_read 2 fs3) as [b4 fs4] eqn:E4.
    destruct (ifs_read 4 fs4) as [b5 fs5] eqn:E5.
    destruct (ifs_read 4 fs5) as [b6 fs6] eqn:E6.
    destruct (ifs_read 2 fs6) as [b7 fs7] eqn:E7.
    destruct (ifs_read 2 fs7) as [b8 fs8] eqn:E8.
    destruct (assign_fmt _ _ _ _ _ _) as [c'|]; [|discriminate H].
    match type of H with
    | (if in_fail ?s then _ else _) = _ =>
        destruct (in_fail s) eqn:F9; [discriminate H|];
        assert (F8 : in_fail fs8 = false)
          by (destruct (0 <? le_combine sb - 16);
              [eapply ifs_seekg_cur_good; exact F9 | exact F9]);
        assert (L9 : (length (in_buf s) <= length (in_buf fs8))%nat)
          by (destruct (0 <? le_combine sb - 16);
              [apply ifs_seekg_cur_shrinks | lia])
    end.
    apply IH in H. clear IH. cbn [r_fileStream] in H.
    destruct (ifs_read_good _ _ _ _ E8 F8) as (F7 & G8 & B8).
    destruct (ifs_read_good _ _ _ _ E7 F7) as (F6 & G7 & B7).
    destruct (ifs_read_good _ _ _ _ E6 F6) as (F5 & G6 & B6).
    destruct (ifs_read_good _ _ _ _ E5 F5) as (F4 & G5 & B5).
    destruct (ifs_read_good _ _ _ _ E4 F4) as (F3 & G4 & B4).
    destruct (ifs_read_good _ _ _ _ E3 F3) as (F2 & G3 & B3).
    destruct (ifs_read_good _ _ _ _ E2 F2) as (_ & G2 & B2).
    apply (f_equal (@length Z)) in B2, B3, B4, B5, B6, B7, B8.
    rewrite length_app in B2, B3, B4, B5, B6, B7, B8.
    unfold bytes_needed in *. destruct ff, fd; simpl in *; lia.
  - destruct (strncmp_eq (array4 id) "data" 4).
    + destruct (in_fail fs2) eqn:F2; [discriminate H|].
      apply IH in H. clear IH. cbn [r_fileStream] in H.
      destruct (ifs_read_good _ _ _ _ E2 F2) as (_ & G2 & B2).
      apply (f_equal (@length Z)) in B2. rewrite length_app in B2.
      unfold bytes_needed in *. destruct ff, fd; simpl in *; lia.
    + pose proof (ifs_seekg_cur_shrinks (skip_amount (le_combine sb)) fs2).
      pose proof (ifs_read_shrinks _ _ _ _ E2).
      destruct (in_fail (ifs_seekg_cur _ fs2)); [discriminate H|].
      apply IH in H. unfold with_stream in H. cbn [r_fileStream] in H. lia.
Qed.

End HeaderNeeds.

(** X8. A file that opens starts with [RIFF], has [WAVE] at offset 8 and is
    at least 44 bytes long. *)
Theorem create_needs_a_full_header (fs : filesystem) (name : string)
    (content : list Z) (r : Reader.WavReader) :
  fs name = Some content ->
  Reader.create fs name = Some r ->
  take 4 content = chars "RIFF"
  /\ take 4 (drop 8 content) = chars "WAVE"
  /\ (44 <= length content)%nat.
Proof.
  intros Hfile. unfold Reader.create, Reader.open_file.
  cbn [Reader.r_config filename]. rewrite Hfile.
  unfold Reader.read_header, Reader.with_stream.
  cbn [Reader.r_fileStream Reader.r_config].
  destruct (ifs_read 4 _) as [a fs1] eqn:E1.
  destruct (strncmp_eq (array4 a) "RIFF" 4) eqn:Sa; [|discriminate].
  cbn [negb].
  destruct (ifs_read 4 fs1) as [b fs2] eqn:E2.
  destruct (ifs_read 4 fs2) as [c fs3] eqn:E3.
  destruct (strncmp_eq (array4 c) "WAVE" 4) eqn:Sc; [|discriminate].
  cbn [negb].
  destruct (Reader.scan_chunks _ _ _ _) as [|ok r'] eqn:E; [discriminate|].
  destruct ok; [|discriminate]. intros _.
  apply scan_chunks_needs_bytes in E. cbn [Reader.r_fileStream] in E.
  apply strncmp_array4 with (n := 4%nat) in Sa;
    [| eapply ifs_read_length; exact E1 | reflexivity | reflexivity
     | repeat constructor; discriminate].
  apply strncmp_array4 with (n := 4%nat) in Sc;
    [| eapply ifs_read_length; exact E3 | reflexivity | reflexivity
     | repeat constructor; discriminate].
  destruct (ifs_read_all _ _ _ _ E3) as (F2 & F3 & B3 & _);
    [rewrite Sc; reflexivity | lia |].
  destruct (ifs_read_good _ _ _ _ E2 F2) as (F1 & G2 & B2).
  destruct (ifs_read_all _ _ _ _ E1) as (_ & _ & B1 & _);
    [rewrite Sa; reflexivity | lia |].
  cbn [in_buf] in B1. rewrite B2, B3 in B1. subst a c.
  rewrite B1. repeat split.
  - replace (8%nat) with (length (chars "RIFF" ++ b))
      by (rewrite length_app, G2; reflexivity).
    rewrite (app_assoc (chars "RIFF") b), drop_app_length. reflexivity.
  - rewrite !length_app, G2. unfold bytes_needed in E. simpl in *. lia.
Qed.

Lemma create_needs_a_full_header_witness :
  exists r,
    Reader.create (single_file (wav_file 1 1 44100 16 [])) "a.wav" = Some r
    /\ (44 <= length (wav_file 1 1 44100 16 []))%nat.
Proof.
  eexists. split; [vm_compute; reflexivity|].
  match goal with
  | |- (44 <= length ?c)%nat =>
      let v := eval vm_compute in
                 (Reader.create (single_file c) "a.wav") in
      match v with
      | Some ?r =>
          assert (H : Reader.create (single_file c) "a.wav" = Some r)
            by (vm_compute; reflexivity);
          exact (proj2 (proj2 (create_needs_a_full_header
                                 (single_file c) "a.wav" c r eq_refl H)))
      end
  end.
Defined.

(* ================================================================== *)
(** * Decoding the header fields *)
(* ================================================================== *)

Section FieldValues.
Import Reader.

Lemma WavFormat_of_value f : WavFormat_of (WavFormat_value f) = Some f.
Proof. destruct f; reflexivity. Qed.

Lemma WavBitDepth_of_value d : WavBitDepth_of (WavBitDepth_value d) = Some d.
Proof. destruct d; reflexivity. Qed.

Lemma WavSampleRate_of_value sr :
  WavSampleRate_of (WavSampleRate_value sr) = Some sr.
Proof. destruct sr; reflexivity. Qed.

Lemma assign_fmt_supported c f nch sr align d :
  0 < nch -> (f = FLOAT -> d = BIT_DEPTH_32) ->
  assign_fmt c (WavFormat_value f) nch (WavSampleRate_value sr) align
    (WavBitDepth_value d)
  = Some (mkConfig (filename c) sr (to_uint8 nch) d f align (dataChunkSize c)).
Proof.
  intros Hn Hf. unfold assign_fmt.
  rewrite WavFormat_of_value, WavBitDepth_of_value, WavSampleRate_of_value.
  destruct (Z.ltb_spec 0 nch); [|lia]. cbn [negb].
  destruct f; [destruct d; reflexivity|].
  rewrite Hf by reflexivity. reflexivity.
Qed.

Lemma field_ranges f sr d :
  is_uint16 (WavFormat_value f) /\ is_uint32 (WavSampleRate_value sr)
  /\ is_uint16 (WavBitDepth_value d).
Proof.
  unfold is_uint16, is_uint32. destruct f, sr, d; simpl; lia.
Qed.

End FieldValues.

Lemma create_plain_file
    (fs : filesystem) (name : string) (riffSize : list Z) (size : Z)
    (f : WavFormat) (nch : Z) (sr : WavSampleRate) (byteRate align : Z)
    (d : WavBitDepth) (extension : list Z) (dataSize : Z) (payload : list Z) :
  fs name = Some (plain_file riffSize size f nch sr byteRate align d
                    extension dataSize payload) ->
  length riffSize = 4%nat ->
  is_uint32 size -> length extension = Z.to_nat (size - 16) ->
  0 < nch < 65536 -> is_uint32 byteRate -> is_uint16 align ->
  is_uint32 dataSize ->
  (f = FLOAT -> d = BIT_DEPTH_32) ->
  Reader.create fs name
  = Some (Reader.mkReader
            (mkConfig name sr (to_uint8 nch) d f align dataSize)
            (mkIfstream payload false 4)).
Proof.
  intros Hfile Hriff Hsize Hext Hnch Hbr Hal Hds Hfloat.
  unfold Reader.create, Reader.open_file. cbn [Reader.r_config filename].
  rewrite Hfile. unfold Reader.with_stream, plain_file.
  cbn [Reader.r_config].
  rewrite read_header_riff_wave by exact Hriff.
  cbn [default_configuration sampleRate numChannels bitDepth format
         blockAlign dataChunkSize].
  destruct (field_ranges f sr d) as (Rf & Rsr & Rd).
  match goal with
  | |- match Reader.scan_chunks (S (length ?body)) _ _ ?r with _ => _ end
       = Some ?r' =>
      assert (Hscan : Reader.scan_chunks 3 false false r
                      = Reader.Returned true r');
      [| assert (Hfuel : S (length body) = (3 + (length body - 2))%nat)]
  end.
  - rewrite scan_fmt
      by (assumption || reflexivity || (unfold is_uint16; lia)).
    rewrite assign_fmt_supported by (lia || assumption).
    cbn [filename dataChunkSize].
    assert (Hskip : (if 0 <? size - 16
                     then ifs_seekg_cur (size - 16)
                            (mkIfstream
                               (extension
                                  ++ chunk_header (chars "data") dataSize
                                  ++ payload) false 2)
                     else mkIfstream
                            (extension
                               ++ chunk_header (chars "data") dataSize
                               ++ payload) false 2)
                    = mkIfstream
                        (chunk_header (chars "data") dataSize ++ payload)
                        false 2).
    { destruct (Z.ltb_spec 0 (size - 16)).
      - apply ifs_seekg_cur_app. exact Hext.
      - destruct extension; [reflexivity|]. simpl in Hext. lia. }
    rewrite Hskip. cbn [in_fail].
    rewrite scan_data by (assumption || reflexivity).
    cbn [filename sampleRate numChannels bitDepth format blockAlign].
    apply scan_done.
  - unfold chunk_header, fmt_fields.
    rewrite !length_app, !length_le_split. cbn [length chars]. simpl. lia.
  - rewrite Hfuel, (scan_chunks_more_fuel _ _ _ _ _ _ _ Hscan). reflexivity.
Qed.

(** X9. A header made of the [fmt ] chunk and the data chunk opens, and the
    reader holds what the header says: format, sample rate, bit depth and
    block align as stored, the channel count cut to 8 bits, and the size
    of the data chunk; it stands at the first byte of the payload.  Bytes
    of the [fmt ] chunk beyond its sixteen fields are skipped by its
    declared size, without padding; a declared size below 16 still has
    the sixteen fields read. *)
Theorem create_reads_the_header_fields
    (fs : filesystem) (name : string) (riffSize : list Z) (size : Z)
    (f : WavFormat) (nch : Z) (sr : WavSampleRate) (byteRate align : Z)
    (d : WavBitDepth) (extension : list Z) (dataSize : Z) (payload : list Z) :
  fs name = Some (plain_file riffSize size f nch sr byteRate align d
                    extension dataSize payload) ->
  length riffSize = 4%nat ->
  is_uint32 size -> length extension = Z.to_nat (size - 16) ->
  0 < nch < 65536 -> is_uint32 byteRate -> is_uint16 align ->
  is_uint32 dataSize ->
  (f = FLOAT -> d = BIT_DEPTH_32) ->
  Reader.create fs name
  = Some (Reader.mkReader
            (mkConfig name sr (to_uint8 nch) d f align dataSize)
            (mkIfstream payload false 4)).
Proof.
  intros Hfile Hriff Hsize Hext Hnch Hbr Hal Hds Hfloat.
  now apply create_plain_file with (riffSize := riffSize) (size := size)
    (byteRate := byteRate) (extension := extension).
Qed.

Lemma create_reads_the_header_fields_witness :
  Reader.create
    (single_file
       (plain_file [0; 0; 0; 0] 18 PCM 2 SAMPLE_RATE_48000 192000 4
          BIT_DEPTH_16 [0; 0] 4 [1; 0; 2; 0]))
    "x.wav"
  = Some (Reader.mkReader
            (mkConfig "x.wav" SAMPLE_RATE_48000 (to_uint8 2) BIT_DEPTH_16 PCM
               4 4)
            (mkIfstream [1; 0; 2; 0] false 4)).
Proof.
  apply (create_reads_the_header_fields _ "x.wav" [0; 0; 0; 0] 18 PCM 2
           SAMPLE_RATE_48000 192000 4 BIT_DEPTH_16 [0; 0] 4 [1; 0; 2; 0]);
    try reflexivity; try (unfold is_uint32, is_uint16; lia); try lia.
  discriminate.
Defined.

(* ================================================================== *)
(** * Reads at the edges *)
(* ================================================================== *)

Section ReadEdges.
Import Reader.







End ReadEdges.





(* ================================================================== *)
(** * The file a writer leaves *)
(* ================================================================== *)

Section WrittenFile.
Import Writer.

Lemma overwrite_at_end (data bytes : list Z) :
  overwrite data (length data) bytes = data ++ bytes.
Proof.
  unfold overwrite. rewrite take_ge by lia. rewrite Nat.sub_diag.
  rewrite (drop_ge data) by lia. cbn [replicate app].
  rewrite app_nil_r. reflexivity.
Qed.

Lemma ofs_write_at_end bytes data :
  ofs_write bytes (mkOfstream true data (length data))
  = mkOfstream true (data ++ bytes) (length (data ++ bytes)).
Proof.
  unfold ofs_write. cbn [out_open out_data out_pos].
  rewrite overwrite_at_end, length_app. reflexivity.
Qed.

Lemma overwrite_middle (pre old new post : list Z) :
  length old = length new ->
  overwrite (pre ++ old ++ post) (length pre) new = pre ++ new ++ post.
Proof.
  intros H. unfold overwrite.
  rewrite take_app_length.
  replace (length pre - length (pre ++ old ++ post))%nat with 0%nat
    by (rewrite !length_app; lia).
  cbn [replicate app]. f_equal. f_equal.
  rewrite drop_app_ge by lia.
  replace (length pre + length new - length pre)%nat with (length old) by lia.
  apply drop_app_length.
Qed.

Lemma to_uint16_small z : is_uint16 z -> to_uint16 z = z.
Proof. intros H. apply uwrap_small. simpl. exact H. Qed.

(** The 44 bytes of [write_header] on a freshly opened file. *)
Lemma write_header_bytes c total :
  is_uint8 (numChannels c) ->
  m_fileStream
    (write_header (mkWriter c (mkOfstream true [] 0) total))
  = mkOfstream true (header_file c 0 0 []) 44.
Proof.
  intros Hnc. unfold is_uint8 in Hnc.
  unfold write_header, with_stream. cbn [m_config m_fileStream].
  change (mkOfstream true [] 0) with (mkOfstream true [] (length (@nil Z))).
  rewrite !ofs_write_at_end.
  destruct (field_ranges (format c) (sampleRate c) (bitDepth c))
    as (Rf & Rsr & Rd).
  rewrite !to_uint16_small by (assumption || (unfold is_uint16; lia)).
  rewrite (to_uint32_small (WavSampleRate_value (sampleRate c)))
    by assumption.
  rewrite (to_uint16_small (numChannels c * _)).
  2:{ unfold is_uint16. destruct (bitDepth c); cbn [WavBitDepth_value];
      [change (8 / 8) with 1 | change (16 / 8) with 2
       | change (24 / 8) with 3 | change (32 / 8) with 4]; lia. }
  f_equal; rewrite !length_app, !length_le_split; reflexivity.
Qed.

Lemma header_file_app c riff total payload :
  header_file c riff total payload = header_file c riff total [] ++ payload.
Proof.
  unfold header_file, plain_file, riff_wave, chunk_header, fmt_fields.
  rewrite <- !app_assoc. reflexivity.
Qed.

Lemma length_header_file c riff total payload :
  length (header_file c riff total payload) = (44 + length payload)%nat.
Proof.
  unfold header_file, plain_file, riff_wave, chunk_header, fmt_fields.
  rewrite !length_app, !length_le_split. reflexivity.
Qed.

(** What any call that returns does to the writer: it hands some buffer
    to [write_samples]. *)
Lemma write_is_write_samples T count arrays w w' :
  write T count arrays w = Ret w' ->
  exists Td buf flag, w' = write_samples Td buf flag w.
Proof.
  unfold write. destruct (negb _); [discriminate|].
  unfold write_buffer.
  assert (Hgen : forall Td flag (loop : res (list Z)),
             (buf ← loop; Ret (write_samples Td buf flag w)) = Ret w' ->
             exists Td buf flag, w' = write_samples Td buf flag w).
  { intros Td flag loop H. unfold mbind, res_mbind in H.
    destruct loop as [buf| |]; try discriminate H.
    cbn [res_bind] in H. injection H as <-. eauto. }
  destruct (format (m_config w)); [destruct (bitDepth (m_config w))|].
  - apply Hgen.
  - apply Hgen.
  - unfold write_to_pcm24. apply Hgen.
  - apply Hgen.
  - unfold write_to_float32. destruct (negb _); [discriminate|]. apply Hgen.
Qed.

Lemma create_appending c w :
  is_uint8 (numChannels c) ->
  create true c = Some w -> appending c w [].
Proof.
  intros Hnc. unfold create, open_file. cbn [negb]. intros [= <-].
  unfold with_stream. cbn [m_config m_totalFileSize].
  split; [apply write_header_state|].
  rewrite write_header_bytes by exact Hnc.
  rewrite length_header_file. reflexivity.
Qed.

Lemma write_samples_appending c w payload Td buf flag :
  appending c w payload ->
  appending c (write_samples Td buf flag w)
    (payload ++ concat (map (store Td) buf)).
Proof.
  intros [Hc Hs]. unfold write_samples. split; [exact Hc|].
  cbn [m_fileStream]. rewrite Hs, ofs_write_at_end.
  rewrite (header_file_app c 0 0 payload), <- app_assoc.
  rewrite <- header_file_app. reflexivity.
Qed.

Lemma run_writes_appending c calls :
  forall w w' payload,
    appending c w payload ->
    run_writes calls w = Ret w' ->
    exists payload', appending c w' payload'.
Proof.
  induction calls as [|call calls IH]; intros w w' payload Hw H.
  - injection H as <-. eauto.
  - cbn [run_writes] in H. unfold mbind, res_mbind in H.
    destruct (write _ _ _ w) as [w1| |] eqn:E; try discriminate H.
    cbn [res_bind] in H.
    apply write_is_write_samples in E as (Td & buf & flag & ->).
    eapply IH; [|exact H]. apply write_samples_appending. exact Hw.
Qed.

(** Closing an appending writer patches the two size fields and leaves
    every other byte, the payload included, as it is. *)
Lemma close_file_written c w payload :
  appending c w payload ->
  file_of (close_file w) = written_file c (m_totalFileSize w) payload.
Proof.
  intros [Hc Hs]. unfold close_file, file_of. rewrite Hs.
  cbn [out_open negb].
  unfold finalize_header, with_stream, ofs_close, ofs_seekp, ofs_write.
  cbn [m_fileStream m_totalFileSize out_data out_open out_pos].
  rewrite Hs. cbn [out_data out_open out_pos].
  unfold written_file, header_file, plain_file, riff_wave, chunk_header.
  rewrite <- !app_assoc.
  rewrite (overwrite_middle (chars "RIFF") (le_split 4 0))
    by (rewrite !length_le_split; reflexivity).
  match goal with
  | |- overwrite (?a ++ ?b ++ ?c ++ ?d ++ ?e ++ ?f ++ ?g ++ ?h ++ ?i
                    ++ ?rest) 40 ?new = _ =>
      replace (a ++ b ++ c ++ d ++ e ++ f ++ g ++ h ++ i ++ rest)
        with ((a ++ b ++ c ++ d ++ e ++ f ++ g ++ h) ++ i ++ rest)
        by (rewrite <- !app_assoc; reflexivity);
      replace 40%nat with (length (a ++ b ++ c ++ d ++ e ++ f ++ g ++ h))
  end.
  - rewrite overwrite_middle by (rewrite !length_le_split; reflexivity).
    rewrite <- !app_assoc. reflexivity.
  - unfold fmt_fields. rewrite !length_app, !length_le_split. reflexivity.
Qed.

End WrittenFile.

Section ReadingBack.
Import Writer.

Lemma disk_sample_bytes_depth c :
  (format c = FLOAT -> bitDepth c = BIT_DEPTH_32) ->
  disk_sample_bytes c = WavBitDepth_value (bitDepth c) / 8.
Proof.
  unfold disk_sample_bytes. intros H.
  destruct (format c); [destruct (bitDepth c); reflexivity|].
  rewrite H by reflexivity. reflexivity.
Qed.

Lemma payload_bytes_frames c calls :
  payload_bytes c calls
  = frames_written calls * (numChannels c * disk_sample_bytes c).
Proof.
  induction calls as [|call calls IH]; [reflexivity|].
  cbn [payload_bytes frames_written]. rewrite IH. lia.
Qed.

Lemma depth_bytes_positive d : 1 <= WavBitDepth_value d / 8 <= 4.
Proof. destruct d; cbv; split; discriminate. Qed.

(** The reader a closed file of this writer opens to. *)
Lemma create_written_file c total payload (fs : filesystem) name :
  0 < numChannels c < 256 ->
  (format c = FLOAT -> bitDepth c = BIT_DEPTH_32) ->
  is_uint32 total ->
  fs name = Some (written_file c total payload) ->
  Reader.create fs name
  = Some (Reader.mkReader
            (mkConfig name (sampleRate c) (numChannels c) (bitDepth c)
               (format c)
               (numChannels c * (WavBitDepth_value (bitDepth c) / 8)) total)
            (mkIfstream payload false 4)).
Proof.
  intros Hnc Hfloat Htotal Hfile.
  pose proof (depth_bytes_positive (bitDepth c)) as Hd.
  unfold written_file, header_file in Hfile.
  rewrite <- (to_uint8_small (numChannels c)) at 1 by lia.
  eapply create_plain_file; try exact Hfile;
    try reflexivity; try apply to_uint32_range;
    try (apply length_le_split); try (unfold is_uint32; lia);
    try lia; try exact Hfloat; try exact Htotal.
  unfold is_uint16. nia.
Qed.

(** The reader the file of a writer opens to after any calls. *)
Lemma written_file_reader cfg calls w0 w (fs : filesystem) name :
  create true cfg = Some w0 ->
  run_writes calls w0 = Ret w ->
  0 < numChannels cfg < 256 ->
  (format cfg = FLOAT -> bitDepth cfg = BIT_DEPTH_32) ->
  fs name = Some (file_of (close_file w)) ->
  exists payload,
    file_of (close_file w)
    = written_file cfg (to_uint32 (payload_bytes cfg calls)) payload
    /\ Reader.create fs name
       = Some (Reader.mkReader
                 (mkConfig name (sampleRate cfg) (numChannels cfg)
                    (bitDepth cfg) (format cfg)
                    (numChannels cfg * (WavBitDepth_value (bitDepth cfg) / 8))
                    (to_uint32 (payload_bytes cfg calls)))
                 (mkIfstream payload false 4)).
Proof.
  intros Hcreate Hrun Hnc Hfloat Hfile.
  pose proof (create_state _ _ _ Hcreate) as (_ & Hc0 & _ & Ht0).
  pose proof (run_writes_accounts calls w0 w
                ltac:(rewrite Ht0; unfold is_uint32; lia) Hrun)
    as (_ & _ & Htotal).
  rewrite Ht0, Hc0, Z.add_0_l in Htotal.
  apply create_appending in Hcreate; [|unfold is_uint8; lia].
  destruct (run_writes_appending cfg calls w0 w [] Hcreate Hrun)
    as [payload Hw].
  pose proof (close_file_written cfg w payload Hw) as Hclosed.
  rewrite Htotal in Hclosed. exists payload. split; [exact Hclosed|].
  rewrite Hclosed in Hfile.
  apply create_written_file; try assumption. apply to_uint32_range.
Qed.

End ReadingBack.

(** X17. A file written by this writer and closed is opened by this reader,
    which finds the sample rate, channel count, bit depth and format of
    the writer's configuration, the block align they imply, and the byte
    total of the writes as the size of the data chunk; it stands at the
    first byte after the 44-byte header. *)
Theorem written_file_reads_back
    (cfg : WavFileConfiguration) (calls : list write_call)
    (w0 w : Writer.WavWriter) (fs : filesystem) (name : string) :
  Writer.create true cfg = Some w0 ->
  run_writes calls w0 = Ret w ->
  0 < numChannels cfg < 256 ->
  (format cfg = FLOAT -> bitDepth cfg = BIT_DEPTH_32) ->
  fs name = Some (file_of (Writer.close_file w)) ->
  exists r,
    Reader.create fs name = Some r
    /\ sampleRate (Reader.r_config r) = sampleRate cfg
    /\ numChannels (Reader.r_config r) = numChannels cfg
    /\ bitDepth (Reader.r_config r) = bitDepth cfg
    /\ format (Reader.r_config r) = format cfg
    /\ blockAlign (Reader.r_config r)
       = numChannels cfg * (WavBitDepth_value (bitDepth cfg) / 8)
    /\ dataChunkSize (Reader.r_config r)
       = to_uint32 (payload_bytes cfg calls)
    /\ in_buf (Reader.r_fileStream r)
       = drop 44 (file_of (Writer.close_file w)).
Proof.
  intros Hcreate Hrun Hnc Hfloat Hfile.
  destruct (written_file_reader cfg calls w0 w fs name Hcreate Hrun Hnc
              Hfloat Hfile) as (payload & Hclosed & Hr).
  eexists. split; [exact Hr|].
  cbn [Reader.r_config Reader.r_fileStream sampleRate numChannels bitDepth
         format blockAlign dataChunkSize in_buf].
  repeat match goal with |- _ /\ _ => split end; try reflexivity.
  rewrite Hclosed. unfold written_file. rewrite header_file_app.
  rewrite drop_app_length'; [reflexivity|].
  rewrite length_header_file. reflexivity.
Qed.

Lemma written_file_reads_back_witness :
  exists w0 w r,
    Writer.create true mono24_configuration = Some w0
    /\ run_writes [mkCall T_int16 2 [[1; -2]]] w0 = Ret w
    /\ Reader.create (single_file (file_of (Writer.close_file w)))
         "mono24.wav" = Some r
    /\ dataChunkSize (Reader.r_config r) = 6.
Proof.
  let c := eval vm_compute in (Writer.create true mono24_configuration) in
  match c with
  | Some ?w0 =>
      let v := eval vm_compute in
                 (run_writes [mkCall T_int16 2 [[1; -2]]] w0) in
      match v with
      | Ret ?w =>
          assert (H1 : Writer.create true mono24_configuration = Some w0)
            by (vm_compute; reflexivity);
          assert (H2 : run_writes [mkCall T_int16 2 [[1; -2]]] w0 = Ret w)
            by (vm_compute; reflexivity);
          destruct (written_file_reads_back mono24_configuration
                      [mkCall T_int16 2 [[1; -2]]] w0 w
                      (single_file (file_of (Writer.close_file w)))
                      "mono24.wav" H1 H2 ltac:(vm_compute; split; reflexivity)
                      ltac:(discriminate) eq_refl)
            as (r & Hr & _ & _ & _ & _ & _ & Hds & _);
          exists w0, w, r;
          split; [exact H1|]; split; [exact H2|]; split; [exact Hr|];
          rewrite Hds; vm_compute; reflexivity
      end
  end.
Defined.

(** X18. The frame count a reader reports for a file written by this writer
    is the number of frames written, as long as the payload stays below
    2^32 bytes. *)
Theorem written_file_counts_frames
    (cfg : WavFileConfiguration) (calls : list write_call)
    (w0 w : Writer.WavWriter) (fs : filesystem) (name : string)
    (r : Reader.WavReader) :
  Writer.create true cfg = Some w0 ->
  run_writes calls w0 = Ret w ->
  0 < numChannels cfg < 256 ->
  (format cfg = FLOAT -> bitDepth cfg = BIT_DEPTH_32) ->
  payload_bytes cfg calls < 4294967296 ->
  fs name = Some (file_of (Writer.close_file w)) ->
  Reader.create fs name = Some r ->
  reader_num_samples r = frames_written calls
  /\ num_samples (Reader.r_config r) = frames_written calls.
Proof.
  intros Hcreate Hrun Hnc Hfloat Hsmall Hfile Hr.
  destruct (written_file_reader cfg calls w0 w fs name Hcreate Hrun Hnc
              Hfloat Hfile) as (payload & _ & Hr0).
  rewrite Hr in Hr0. injection Hr0 as ->.
  pose proof (depth_bytes_positive (bitDepth cfg)) as Hd.
  assert (Hframes : 0 <= frames_written calls).
  { clear. induction calls as [|c cs IH]; cbn [frames_written]; lia. }
  unfold reader_num_samples, num_samples.
  cbn [Reader.r_config blockAlign dataChunkSize].
  rewrite payload_bytes_frames in *.
  rewrite disk_sample_bytes_depth in * by exact Hfloat.
  set (b := numChannels cfg * (WavBitDepth_value (bitDepth cfg) / 8)) in *.
  assert (Hb : 0 < b) by (unfold b; nia).
  destruct (Z.eqb_spec b 0); [lia|].
  rewrite to_uint32_small by (unfold is_uint32; nia).
  rewrite Z.div_mul by lia. auto.
Qed.

Lemma written_file_counts_frames_witness :
  exists w0 w r,
    Writer.create true mono24_configuration = Some w0
    /\ run_writes [mkCall T_int16 2 [[1; -2]]] w0 = Ret w
    /\ Reader.create (single_file (file_of (Writer.close_file w)))
         "mono24.wav" = Some r
    /\ reader_num_samples r = 2.
Proof.
  let c := eval vm_compute in (Writer.create true mono24_configuration) in
  match c with
  | Some ?w0 =>
      let v := eval vm_compute in
                 (run_writes [mkCall T_int16 2 [[1; -2]]] w0) in
      match v with
      | Ret ?w =>
          let q := eval vm_compute in
                     (Reader.create
                        (single_file (file_of (Writer.close_file w)))
                        "mono24.wav") in
          match q with
          | Some ?r =>
              assert (H1 : Writer.create true mono24_configuration = Some w0)
                by (vm_compute; reflexivity);
              assert (H2 : run_writes [mkCall T_int16 2 [[1; -2]]] w0
                           = Ret w)
                by (vm_compute; reflexivity);
              assert (H3 : Reader.create
                             (single_file (file_of (Writer.close_file w)))
                             "mono24.wav" = Some r)
                by (vm_compute; reflexivity);
              exists w0, w, r;
              split; [exact H1|]; split; [exact H2|]; split; [exact H3|];
              exact (proj1 (written_file_counts_frames mono24_configuration
                              [mkCall T_int16 2 [[1; -2]]] w0 w
                              (single_file (file_of (Writer.close_file w)))
                              "mono24.wav" r H1 H2
                              ltac:(vm_compute; split; reflexivity)
                              ltac:(discriminate)
                              ltac:(vm_compute; reflexivity) eq_refl H3))
          end
      end
  end.
Defined.

(** X19. A call to [write] on a closed writer that returns leaves the file as
    it is, sizes in the header included: the samples are dropped, and a
    later close changes nothing. *)
Theorem write_after_close_is_dropped
    (T : SampleType) (count : nat) (arrays : list (list Z))
    (w w' : Writer.WavWriter) :
  Writer.write T count arrays (Writer.close_file w) = Ret w' ->
  file_of w' = file_of (Writer.close_file w)
  /\ Writer.close_file w' = w'.
Proof.
  intros H.
  apply write_is_write_samples in H as (Td & buf & flag & ->).
  pose proof (close_file_closed w) as Hclosed.
  assert (Hs : Writer.m_fileStream
                 (Writer.write_samples Td buf flag (Writer.close_file w))
               = Writer.m_fileStream (Writer.close_file w)).
  { unfold Writer.write_samples. cbn [Writer.m_fileStream].
    unfold ofs_write. rewrite Hclosed. reflexivity. }
  split.
  - unfold file_of. rewrite Hs. reflexivity.
  - unfold Writer.close_file at 1. rewrite Hs, Hclosed. reflexivity.
Qed.

Lemma write_after_close_is_dropped_witness :
  exists w0 w',
    Writer.create true mono24_configuration = Some w0
    /\ Writer.write T_int16 1 [[5]] (Writer.close_file w0) = Ret w'
    /\ file_of w' = file_of (Writer.close_file w0).
Proof.
  let c := eval vm_compute in (Writer.create true mono24_configuration) in
  match c with
  | Some ?w0 =>
      let v := eval vm_compute in
                 (Writer.write T_int16 1 [[5]] (Writer.close_file w0)) in
      match v with
      | Ret ?w' =>
          assert (H : Writer.write T_int16 1 [[5]] (Writer.close_file w0)
                      = Ret w')
            by (vm_compute; reflexivity);
          exists w0, w';
          split; [vm_compute; reflexivity|]; split; [exact H|];
          exact (proj1 (write_after_close_is_dropped T_int16 1 [[5]] w0 w' H))
      end
  end.
Defined.

(* ================================================================== *)
(** * Samples written in the element type of the file come back *)
(* ================================================================== *)

Section ObjectBytes.

Lemma le_combine_split_mod n v :
  le_combine (le_split n v) = v mod 2 ^ (8 * Z.of_nat n).
Proof.
  revert v. induction n as [|n IH]; intros v.
  - cbn [le_split le_combine]. rewrite Z.mod_1_r. reflexivity.
  - cbn [le_split le_combine]. rewrite IH.
    replace (8 * Z.of_nat (S n)) with (8 + 8 * Z.of_nat n) by lia.
    rewrite Z.pow_add_r by lia. change (2 ^ 8) with 256.
    rewrite Z.rem_mul_r; [reflexivity | lia |].
    apply Z.pow_pos_nonneg; lia.
Qed.

(** Storing a value of type [T] and loading it again gives the value. *)
Lemma load_store T v : in_range T v -> load T (store T v) = v.
Proof.
  unfold load, store. intros H. rewrite le_combine_split_mod.
  destruct T; cbn [sizeof in_range] in *.
  - apply Z.mod_small. exact H.
  - apply Z.mod_small. unfold is_uint8 in H. simpl. lia.
  - unfold to_int16, swrap, is_int16 in *.
    change (2 ^ (8 * Z.of_nat 2)) with 65536. change (2 ^ 16) with 65536.
    change (2 ^ (16 - 1)) with 32768.
    rewrite Zplus_mod_idemp_l. rewrite Z.mod_small by lia. lia.
  - unfold to_int32, swrap, is_int32 in *.
    change (2 ^ (8 * Z.of_nat 4)) with 4294967296.
    change (2 ^ 32) with 4294967296. change (2 ^ (32 - 1)) with 2147483648.
    rewrite Zplus_mod_idemp_l. rewrite Z.mod_small by lia. lia.
Qed.

Lemma length_store T v : length (store T v) = sizeof T.
Proof. apply length_le_split. Qed.

Lemma length_concat_store T samples :
  length (concat (map (store T) samples)) = (length samples * sizeof T)%nat.
Proof.
  induction samples as [|x samples IH]; [reflexivity|].
  cbn [map concat length]. rewrite length_app, length_store, IH. lia.
Qed.

(** Element [k] of a vector whose bytes are the stored samples. *)
Lemma element_concat_store T samples rest :
  Forall (in_range T) samples ->
  forall k, (k < length samples)%nat ->
    element T (concat (map (store T) samples) ++ rest) k = nth k samples 0.
Proof.
  induction 1 as [|x samples Hx Hall IH]; intros k Hk; [simpl in Hk; lia|].
  unfold element in *. cbn [map concat]. rewrite <- app_assoc.
  destruct k as [|k].
  - change (0 * sizeof T)%nat with 0%nat. rewrite drop_0. cbn [nth].
    rewrite take_app_length' by (symmetry; apply length_store).
    apply load_store. exact Hx.
  - cbn [nth]. rewrite <- (IH k) by (simpl in Hk; lia).
    replace (S k * sizeof T)%nat with (length (store T x) + k * sizeof T)%nat
      by (rewrite length_store; lia).
    rewrite <- drop_drop, drop_app_length. reflexivity.
Qed.

End ObjectBytes.

Section Interleaving.
Import Writer.

Lemma bind_ret {A B} (a : A) (k : A -> res B) : (Ret a ≫= k) = k a.
Proof. reflexivity. Qed.

Lemma sample_of_in_range arrays ch i :
  (ch < length arrays)%nat -> (i < length (nth ch arrays []))%nat ->
  sample_of arrays ch i = Ret (sample_at arrays ch i).
Proof.
  intros Hch Hi. unfold sample_of, sample_at, vec_get.
  destruct (arrays !! ch) as [a|] eqn:Ea.
  - unfold mbind, res_mbind. cbn [res_bind].
    rewrite (nth_lookup_Some _ _ [] _ Ea) in *.
    destruct (a !! i) as [x|] eqn:Ex.
    + rewrite (nth_lookup_Some _ _ 0 _ Ex). reflexivity.
    + apply lookup_ge_None in Ex. lia.
  - apply lookup_ge_None in Ea. lia.
Qed.

(** One frame: the inner loop fills the next [m] cells. *)
Lemma interleave_row conv f arrays nc i :
  (forall x, conv x = Ret (f x)) ->
  forall m ch0 done r,
    length done = (i * nc + ch0)%nat ->
    (ch0 + m <= length arrays)%nat ->
    (forall ch, (ch0 <= ch < ch0 + m)%nat ->
                (i < length (nth ch arrays []))%nat) ->
    for_each (seq ch0 m)
      (fun ch buf =>
         x ← sample_of arrays ch i; y ← conv x;
         vec_set buf (i * nc + ch)%nat y)
      (done ++ replicate (m + r) 0)
    = Ret (done ++ map (fun ch => f (sample_at arrays ch i)) (seq ch0 m)
             ++ replicate r 0).
Proof.
  intros Hconv. induction m as [|m IH]; intros ch0 done r Hdone Hch Hlen.
  - reflexivity.
  - cbn [seq for_each Nat.add replicate].
    rewrite sample_of_in_range by (lia || (apply Hlen; lia)).
    rewrite bind_ret, Hconv, bind_ret.
    rewrite <- Hdone, vec_set_middle, bind_ret.
    replace (done ++ f (sample_at arrays ch0 i) :: replicate (m + r) 0)
      with ((done ++ [f (sample_at arrays ch0 i)]) ++ replicate (m + r) 0)
      by (rewrite <- app_assoc; reflexivity).
    rewrite IH.
    + cbn [map]. rewrite <- app_assoc. reflexivity.
    + rewrite length_app. simpl. lia.
    + lia.
    + intros ch Hc. apply Hlen. lia.
Qed.

Lemma interleave_frame conv f arrays nc i done r :
  (forall x, conv x = Ret (f x)) ->
  length done = (i * nc)%nat ->
  (nc <= length arrays)%nat ->
  (forall ch, (ch < nc)%nat -> (i < length (nth ch arrays []))%nat) ->
  for_upto nc
    (fun ch buf =>
       x ← sample_of arrays ch i; y ← conv x;
       vec_set buf (i * nc + ch)%nat y)
    (done ++ replicate (nc + r) 0)
  = Ret (done ++ map (fun ch => f (sample_at arrays ch i)) (seq 0 nc)
           ++ replicate r 0).
Proof.
  intros Hconv Hdone Hnc Hlen. unfold for_upto.
  apply interleave_row; try assumption; try lia.
  intros ch Hc. apply Hlen. lia.
Qed.

(** All frames: the buffer ends up in frame-major order. *)
Lemma interleave_rows conv f arrays nc :
  (forall x, conv x = Ret (f x)) ->
  (nc <= length arrays)%nat ->
  forall n i0 done,
    length done = (i0 * nc)%nat ->
    (forall ch, (ch < nc)%nat -> (i0 + n <= length (nth ch arrays []))%nat) ->
    for_each (seq i0 n)
      (fun i buf =>
         for_upto nc
           (fun ch buf =>
              x ← sample_of arrays ch i; y ← conv x;
              vec_set buf (i * nc + ch)%nat y)
           buf)
      (done ++ replicate (n * nc) 0)
    = Ret (done
             ++ flat_map
                  (fun i => map (fun ch => f (sample_at arrays ch i))
                              (seq 0 nc))
                  (seq i0 n)).
Proof.
  intros Hconv Hnc. induction n as [|n IH]; intros i0 done Hdone Hlen.
  - cbn [seq for_each flat_map Nat.mul replicate]. reflexivity.
  - cbn [seq for_each flat_map].
    replace (S n * nc)%nat with (nc + n * nc)%nat by lia.
    rewrite (interleave_frame conv f arrays nc i0 done (n * nc))
      by (assumption || (intros ch Hc; specialize (Hlen ch Hc); lia)).
    rewrite bind_ret.
    rewrite app_assoc. rewrite IH.
    + rewrite <- app_assoc. reflexivity.
    + rewrite length_app, length_map, length_seq. lia.
    + intros ch Hc. specialize (Hlen ch Hc). lia.
Qed.

Lemma interleave_total conv f arrays count nc :
  (forall x, conv x = Ret (f x)) ->
  (nc <= length arrays)%nat ->
  (forall ch, (ch < nc)%nat -> (count <= length (nth ch arrays []))%nat) ->
  interleave conv arrays count nc = Ret (interleaved f arrays count nc).
Proof.
  intros Hconv Hnc Hlen. unfold interleave, for_upto, interleaved.
  apply (interleave_rows conv f arrays nc Hconv Hnc count 0 []);
    [reflexivity | exact Hlen].
Qed.

Lemma length_interleaved f arrays count nc :
  length (interleaved f arrays count nc) = (count * nc)%nat.
Proof.
  unfold interleaved.
  assert (H : forall lo,
             length
               (flat_map
                  (fun i => map (fun ch => f (sample_at arrays ch i))
                              (seq 0 nc))
                  (seq lo count))
             = (count * nc)%nat); [|apply H].
  induction count as [|count IH]; intros lo; [reflexivity|].
  cbn [seq flat_map]. rewrite length_app, length_map, length_seq, IH. lia.
Qed.

(** Cell [i * nc + ch] of the frame-major order is sample [i] of channel
    [ch]. *)
Lemma nth_interleaved f arrays nc :
  forall count lo i ch,
    (i < count)%nat -> (ch < nc)%nat ->
    nth (i * nc + ch)
      (flat_map (fun i => map (fun ch => f (sample_at arrays ch i)) (seq 0 nc))
         (seq lo count)) 0
    = f (sample_at arrays ch (lo + i)).
Proof.
  induction count as [|count IH]; intros lo i ch Hi Hch; [lia|].
  cbn [seq flat_map]. destruct i as [|i].
  - rewrite app_nth1 by (rewrite length_map, length_seq; lia).
    cbn [Nat.mul Nat.add].
    rewrite (nth_indep _ 0 (f (sample_at arrays 0 lo)))
      by (rewrite length_map, length_seq; lia).
    rewrite (map_nth (fun ch => f (sample_at arrays ch lo))).
    rewrite seq_nth by lia. rewrite Nat.add_0_r. reflexivity.
  - rewrite app_nth2 by (rewrite length_map, length_seq; lia).
    rewrite length_map, length_seq.
    replace (S i * nc + ch - nc)%nat with (i * nc + ch)%nat by lia.
    rewrite IH by lia. f_equal. f_equal. lia.
Qed.

End Interleaving.

Section RoundTrip.
Import Writer.

Lemma holds_frames_channel T count arrays ch :
  holds_frames T count arrays -> (ch < length arrays)%nat ->
  (count <= length (nth ch arrays []))%nat
  /\ Forall (in_range T) (nth ch arrays []).
Proof.
  unfold holds_frames. intros H Hch.
  destruct (lookup_lt_is_Some_2 arrays ch Hch) as [a Ha].
  rewrite (nth_lookup_Some _ _ [] _ Ha).
  exact (Forall_lookup_1 _ _ _ _ H Ha).
Qed.

Lemma sample_at_in_range T count arrays ch i :
  holds_frames T count arrays -> (ch < length arrays)%nat ->
  (i < count)%nat -> in_range T (sample_at arrays ch i).
Proof.
  intros H Hch Hi.
  destruct (holds_frames_channel T count arrays ch H Hch) as [Hlen Hall].
  unfold sample_at.
  destruct (lookup_lt_is_Some_2 (nth ch arrays []) i ltac:(lia)) as [x Hx].
  rewrite (nth_lookup_Some _ _ 0 _ Hx).
  exact (Forall_lookup_1 _ _ _ _ Hall Hx).
Qed.

Lemma interleaved_in_range T count arrays :
  holds_frames T count arrays ->
  Forall (in_range T) (interleaved (fun x => x) arrays count (length arrays)).
Proof.
  intros H. apply Forall_forall. intros x Hx.
  apply list_elem_of_In in Hx. unfold interleaved in Hx.
  apply in_flat_map in Hx as (i & Hi & Hx).
  apply in_map_iff in Hx as (ch & <- & Hch).
  apply in_seq in Hi, Hch.
  apply (sample_at_in_range T count); (assumption || lia).
Qed.

(** The converter of each non-24-bit branch for the element type of the
    file is the identity. *)
Lemma write_native T count arrays w :
  is_pcm24 (m_config w) = false ->
  (format (m_config w) = FLOAT -> bitDepth (m_config w) = BIT_DEPTH_32) ->
  T = native_type (m_config w) ->
  Z.of_nat (length arrays) = numChannels (m_config w) ->
  holds_frames T count arrays ->
  write T count arrays w
  = Ret (write_samples T
           (interleaved (fun x => x) arrays count (length arrays)) false w).
Proof.
  intros H24 Hfloat -> Hk Hframes. unfold write.
  rewrite Hk, Z.eqb_refl. cbn [negb].
  assert (Hch : channels w = length arrays) by (unfold channels; lia).
  assert (Hloop : forall conv,
             (forall x, conv x = Ret x) ->
             interleave conv arrays count (channels w)
             = Ret (interleaved (fun x => x) arrays count (length arrays))).
  { intros conv Hconv. rewrite Hch.
    apply interleave_total; [exact Hconv | lia |].
    intros ch Hc.
    apply (holds_frames_channel _ count arrays ch Hframes Hc). }
  unfold write_buffer, native_type, is_pcm24 in *.
  destruct (format (m_config w)).
  - destruct (bitDepth (m_config w)); try discriminate H24.
    + unfold write_to_pcm8. rewrite Hloop by reflexivity. reflexivity.
    + unfold write_to_pcm16. rewrite Hloop by reflexivity. reflexivity.
    + unfold write_to_pcm32. rewrite Hloop by reflexivity. reflexivity.
  - unfold write_to_float32. rewrite Hfloat by reflexivity.
    change (negb (WavBitDepth_eqb BIT_DEPTH_32 BIT_DEPTH_32)) with false.
    cbv iota. rewrite Hloop by reflexivity. reflexivity.
Qed.

Lemma map_nth_seq {B} (F : list Z -> B) (l : list (list Z)) :
  map (fun j => F (nth j l [])) (seq 0 (length l)) = map F l.
Proof.
  induction l as [|a l IH]; [reflexivity|].
  cbn [length seq map nth]. f_equal.
  rewrite <- seq_shift, map_map. exact IH.
Qed.

Lemma map_nth_take (l : list Z) count :
  (count <= length l)%nat ->
  map (fun i => nth i l 0) (seq 0 count) = take count l.
Proof.
  revert l. induction count as [|count IH]; intros l H; [reflexivity|].
  destruct l as [|x l]; [simpl in H; lia|].
  cbn [seq map nth take]. f_equal.
  rewrite <- seq_shift, map_map. apply IH. simpl in H. lia.
Qed.

(** Taking the frame-major order apart again gives the planar buffers. *)
Lemma deinterleave_interleaved arrays count :
  (forall ch, (ch < length arrays)%nat ->
              (count <= length (nth ch arrays []))%nat) ->
  Reader.deinterleave (length arrays) count
    (fun k => nth k (interleaved (fun x => x) arrays count (length arrays)) 0)
  = map (take count) arrays.
Proof.
  intros Hlen. unfold Reader.deinterleave.
  rewrite <- (map_nth_seq (take count) arrays).
  apply map_ext_in. intros j Hj. apply in_seq in Hj.
  rewrite <- map_nth_take by (apply Hlen; lia).
  apply map_ext_in. intros i Hi. apply in_seq in Hi.
  unfold interleaved.
  rewrite (nth_interleaved (fun x => x) arrays (length arrays) count 0 i j)
    by lia.
  reflexivity.
Qed.

(** A read of exactly the frames that are there. *)
Lemma read_samples_exact T count (r : Reader.WavReader) samples :
  (0 < Z.to_nat (numChannels (Reader.r_config r)))%nat ->
  in_fail (Reader.r_fileStream r) = false ->
  in_buf (Reader.r_fileStream r) = concat (map (store T) samples) ->
  length samples = (count * Z.to_nat (numChannels (Reader.r_config r)))%nat ->
  Forall (in_range T) samples ->
  exists r',
    Reader.read_samples T count r
    = Ret (Reader.deinterleave (Z.to_nat (numChannels (Reader.r_config r)))
             count (fun k => nth k samples 0), r').
Proof.
  intros Hnc Hfail Hbuf Hlen Hall.
  unfold Reader.read_samples, ifs_read. rewrite Hfail.
  set (nc := Z.to_nat (numChannels (Reader.r_config r))) in *.
  assert (Hsz : (0 < sizeof T)%nat) by (destruct T; simpl; lia).
  assert (Hbytes : length (in_buf (Reader.r_fileStream r))
                   = (count * nc * sizeof T)%nat).
  { rewrite Hbuf, length_concat_store, Hlen. reflexivity. }
  cbn [in_gcount]. rewrite take_ge by lia.
  destruct (Nat.eqb_spec nc 0); [lia|].
  rewrite Hbytes. rewrite Nat.div_mul by lia. rewrite Nat.div_mul by lia.
  eexists. f_equal. f_equal.
  unfold Reader.deinterleave.
  apply map_ext_in. intros j Hj. apply in_seq in Hj.
  apply map_ext_in. intros i Hi. apply in_seq in Hi.
  unfold Reader.filled. rewrite Hbuf.
  apply element_concat_store; [exact Hall|]. rewrite Hlen. nia.
Qed.

End RoundTrip.

(** X21. Samples written in the element type of the file and read back in
    that type are the samples written, bit for bit, for every layout but
    24-bit PCM and any number of channels from 1 to 255: one call of
    [write] for [count] frames, a close, and one [read] of [count]
    frames return the first [count] samples of every channel. *)
Theorem native_samples_round_trip
    (cfg : WavFileConfiguration) (arrays : list (list Z)) (count : nat)
    (w0 : Writer.WavWriter) :
  is_pcm24 cfg = false ->
  (format cfg = FLOAT -> bitDepth cfg = BIT_DEPTH_32) ->
  0 < numChannels cfg < 256 ->
  Z.of_nat (length arrays) = numChannels cfg ->
  holds_frames (native_type cfg) count arrays ->
  Writer.create true cfg = Some w0 ->
  exists w,
    Writer.write (native_type cfg) count arrays w0 = Ret w
    /\ (forall (fs : filesystem) (name : string),
         fs name = Some (file_of (Writer.close_file w)) ->
         exists r r',
          Reader.create fs name = Some r
          /\ Reader.read (native_type cfg) count r
             = Ret (map (take count) arrays, r')).
Proof.
  intros H24 Hfloat Hnc Hk Hframes Hcreate.
  pose proof (create_state _ _ _ Hcreate) as (_ & Hc0 & _ & _).
  apply create_appending in Hcreate; [|unfold is_uint8; lia].
  eexists. split.
  - apply write_native; rewrite ?Hc0; (assumption || reflexivity).
  - intros fs name Hfile.
    match type of Hfile with
    | context [Writer.close_file ?w] =>
        pose proof (close_file_written cfg w _
                      (write_samples_appending cfg w0 [] _ _ _ Hcreate))
          as Hclosed
    end.
    rewrite Hclosed in Hfile. cbn [app] in Hfile.
    apply create_written_file in Hfile;
      [| exact Hnc | exact Hfloat
       | unfold Writer.write_samples; cbn [Writer.m_totalFileSize];
         apply to_uint32_range].
    eexists.
    match type of Hfile with
    | _ = Some ?r =>
        assert (Hcfg : native_type (Reader.r_config r) = native_type cfg)
          by reflexivity;
        assert (Hr24 : is_pcm24 (Reader.r_config r) = false) by exact H24;
        assert (Hrnc : Z.to_nat (numChannels (Reader.r_config r))
                       = length arrays)
          by (cbn [Reader.r_config numChannels]; lia);
        destruct (read_samples_exact (native_type cfg) count r
                    (interleaved (fun x => x) arrays count (length arrays)))
          as [r' Hread]
    end.
    + lia.
    + reflexivity.
    + reflexivity.
    + rewrite length_interleaved, Hrnc. reflexivity.
    + apply interleaved_in_range. exact Hframes.
    + exists r'. split; [exact Hfile|].
      rewrite <- Hcfg at 1. rewrite read_native_unconverted by exact Hr24.
      rewrite Hcfg, Hread, Hrnc.
      rewrite deinterleave_interleaved; [reflexivity|].
      intros ch Hch.
      apply (holds_frames_channel _ count arrays ch Hframes Hch).
Qed.

Lemma native_samples_round_trip_witness :
  exists w0 w r r',
    Writer.create true stereo16_configuration = Some w0
    /\ Writer.write T_int16 2 [[1; -2; 9]; [3; 4; 9]] w0 = Ret w
    /\ Reader.create (single_file (file_of (Writer.close_file w)))
         "stereo16.wav" = Some r
    /\ Reader.read T_int16 2 r = Ret ([[1; -2]; [3; 4]], r').
Proof.
  let c := eval vm_compute in (Writer.create true stereo16_configuration) in
  match c with
  | Some ?w0 =>
      assert (H0 : Writer.create true stereo16_configuration = Some w0)
        by (vm_compute; reflexivity);
      destruct (native_samples_round_trip stereo16_configuration
                  [[1; -2; 9]; [3; 4; 9]] 2 w0 eq_refl ltac:(discriminate)
                  ltac:(vm_compute; split; reflexivity) eq_refl)
        as (w & Hw & Hback);
      [ repeat constructor; vm_compute; intuition discriminate
      | exact H0
      | destruct (Hback (single_file (file_of (Writer.close_file w)))
                    "stereo16.wav"%string eq_refl)
          as (r & r' & Hr & Hread);
        exists w0, w, r, r';
        split; [exact H0|]; split; [exact Hw|]; split; [exact Hr|];
        exact Hread ]
  end.
Defined.

(* ================================================================== *)
(** * The writer converts by the table and stores frame after frame *)
(* ================================================================== *)

Section WrittenOrder.
Import Writer.

Lemma to_pcm8_matrix T : to_pcm8 T = matrix T T_uint8.
Proof. destruct T; reflexivity. Qed.

Lemma to_pcm16_matrix T : to_pcm16 T = matrix T T_int16.
Proof. destruct T; reflexivity. Qed.

Lemma to_pcm32_matrix T : to_pcm32 T = matrix T T_int32.
Proof. destruct T; reflexivity. Qed.

Lemma to_float32_matrix T : to_float32 T = matrix T T_float.
Proof. destruct T; reflexivity. Qed.

(** The entries of the table that cast no float to an integer are total. *)
Lemma matrix_total S T :
  S <> T_float \/ T = T_float ->
  exists f, forall x, matrix S T x = Ret (f x).
Proof.
  intros H.
  destruct S, T; try (destruct H as [H|H]; [congruence|discriminate H]);
    eexists; intros x; reflexivity.
Qed.

Lemma nth_interleaved_0 f arrays count nc i ch :
  (i < count)%nat -> (ch < nc)%nat ->
  nth (i * nc + ch) (interleaved f arrays count nc) 0
  = f (sample_at arrays ch i).
Proof.
  intros Hi Hch. unfold interleaved.
  rewrite (nth_interleaved f arrays nc count 0 i ch Hi Hch).
  reflexivity.
Qed.

End WrittenOrder.

(** X20. Outside 24-bit PCM, and as long as no float has to be cast to an
    integer, [write] returns for buffers that hold [count] frames: it
    appends objects of the element type of the file, [count] times the
    number of channels of them, and the object at place
    [i * channels + ch] is the table's conversion of sample [i] of
    channel [ch]. *)
Theorem write_stores_frames_in_order
    (T : SampleType) (count : nat) (arrays : list (list Z))
    (w : Writer.WavWriter) :
  is_pcm24 (Writer.m_config w) = false ->
  (format (Writer.m_config w) = FLOAT ->
   bitDepth (Writer.m_config w) = BIT_DEPTH_32) ->
  T <> T_float \/ format (Writer.m_config w) = FLOAT ->
  Z.of_nat (length arrays) = numChannels (Writer.m_config w) ->
  Forall (fun a => (count <= length a)%nat) arrays ->
  exists samples,
    Writer.write T count arrays w
    = Ret (Writer.write_samples (native_type (Writer.m_config w)) samples
             false w)
    /\ length samples = (count * length arrays)%nat
    /\ (forall i ch,
         (i < count)%nat -> (ch < length arrays)%nat ->
         matrix T (native_type (Writer.m_config w)) (sample_at arrays ch i)
         = Ret (nth (i * length arrays + ch) samples 0)).
Proof.
  intros H24 Hfloat HT Hk Hframes.
  destruct (matrix_total T (native_type (Writer.m_config w))) as [f Hf].
  { destruct HT as [HT|HT]; [left; exact HT|right].
    unfold native_type. rewrite HT. reflexivity. }
  exists (interleaved f arrays count (length arrays)).
  split; [|split].
  - unfold Writer.write. rewrite Hk, Z.eqb_refl. cbn [negb].
    assert (Hch : Writer.channels w = length arrays)
      by (unfold Writer.channels; lia).
    assert (Hloop : Writer.interleave
                      (matrix T (native_type (Writer.m_config w)))
                      arrays count (Writer.channels w)
                    = Ret (interleaved f arrays count (length arrays))).
    { rewrite Hch. apply interleave_total; [exact Hf | lia |].
      intros ch Hc.
      destruct (nth_lookup_or_length arrays ch []) as [Hl|Hl]; [|lia].
      rewrite Forall_lookup in Hframes. exact (Hframes ch _ Hl). }
    unfold Writer.write_buffer. unfold native_type, is_pcm24 in *.
    destruct (format (Writer.m_config w)).
    + destruct (bitDepth (Writer.m_config w)); try discriminate H24.
      * unfold Writer.write_to_pcm8. rewrite to_pcm8_matrix, Hloop.
        reflexivity.
      * unfold Writer.write_to_pcm16. rewrite to_pcm16_matrix, Hloop.
        reflexivity.
      * unfold Writer.write_to_pcm32. rewrite to_pcm32_matrix, Hloop.
        reflexivity.
    + unfold Writer.write_to_float32. rewrite Hfloat by reflexivity.
      change (negb (WavBitDepth_eqb BIT_DEPTH_32 BIT_DEPTH_32)) with false.
      cbv iota. rewrite to_float32_matrix, Hloop. reflexivity.
  - apply length_interleaved.
  - intros i ch Hi Hc. rewrite Hf. f_equal. symmetry.
    apply nth_interleaved_0; assumption.
Qed.

Lemma write_stores_frames_in_order_witness :
  exists w samples,
    Writer.create true stereo16_configuration = Some w
    /\ Writer.write T_int32 2 [[65536; -65536]; [131072; 0]] w
       = Ret (Writer.write_samples T_int16 samples false w)
    /\ length samples = 4%nat
    /\ Ret (convert_int32_to_int16 (-65536)) = Ret (nth 2 samples 0).
Proof.
  let c := eval vm_compute in (Writer.create true stereo16_configuration) in
  match c with
  | Some ?w =>
      assert (H0 : Writer.create true stereo16_configuration = Some w)
        by (vm_compute; reflexivity);
      destruct (write_stores_frames_in_order T_int32 2
                  [[65536; -65536]; [131072; 0]] w eq_refl
                  ltac:(discriminate) ltac:(left; discriminate) eq_refl)
        as (samples & Hw & Hlen & Hat);
      [ repeat constructor
      | exists w, samples;
        split; [exact H0|]; split; [exact Hw|]; split; [exact Hlen|];
        exact (Hat 1%nat 0%nat ltac:(lia) ltac:(simpl; lia)) ]
  end.
Defined.

(* ================================================================== *)
(** * The integer conversions keep the order of samples *)
(* ================================================================== *)

Section Order.

Lemma shiftr_le x y n : 0 <= n -> x <= y -> Z.shiftr x n <= Z.shiftr y n.
Proof.
  intros Hn H. rewrite !Z.shiftr_div_pow2 by exact Hn.
  apply Z.div_le_mono; [apply Z.pow_pos_nonneg; lia | exact H].
Qed.

Lemma shiftl_le x y n : 0 <= n -> x <= y -> Z.shiftl x n <= Z.shiftl y n.
Proof.
  intros Hn H. rewrite !Z.shiftl_mul_pow2 by exact Hn.
  apply Z.mul_le_mono_nonneg_r; [apply Z.pow_nonneg; lia | exact H].
Qed.

End Order.

(** X3. No integer conversion reverses two samples: a larger input never
    gives a smaller output, so the wrap-around of the casts is never
    reached inside the range of the source type. *)
Theorem integer_conversions_keep_order (x y : Z) :
  x <= y ->
  (is_int16 x -> is_int16 y ->
   convert_int16_to_uint8 x <= convert_int16_to_uint8 y
   /\ convert_int16_to_int24 x <= convert_int16_to_int24 y
   /\ convert_int16_to_int32 x <= convert_int16_to_int32 y)
  /\ (is_int32 x -> is_int32 y ->
      convert_int32_to_uint8 x <= convert_int32_to_uint8 y
      /\ convert_int32_to_int16 x <= convert_int32_to_int16 y
      /\ convert_int32_to_int24 x <= convert_int32_to_int24 y)
  /\ (is_uint8 x -> is_uint8 y ->
      convert_uint8_to_int16 x <= convert_uint8_to_int16 y
      /\ convert_uint8_to_int24 x <= convert_uint8_to_int24 y
      /\ convert_uint8_to_int32 x <= convert_uint8_to_int32 y).
Proof.
  intros Hxy. split; [|split]; intros Hx Hy.
  - rewrite !int16_to_uint8_formula, !int16_to_int24_formula,
      !int16_to_int32_formula by assumption.
    unfold Formula.int16_to_uint8, Formula.int16_to_int24,
      Formula.int16_to_int32, is_int16 in *.
    assert (-128 <= Z.shiftr x 8 < 128) by (apply shiftr_bounds; simpl; lia).
    assert (-128 <= Z.shiftr y 8 < 128) by (apply shiftr_bounds; simpl; lia).
    rewrite !land_255_small by lia.
    pose proof (shiftr_le x y 8 ltac:(lia) Hxy).
    pose proof (shiftl_le x y 8 ltac:(lia) Hxy).
    pose proof (shiftl_le x y 16 ltac:(lia) Hxy).
    repeat split; lia.
  - rewrite !int32_to_uint8_formula, !int32_to_int16_formula,
      !int32_to_int24_formula by assumption.
    unfold Formula.int32_to_uint8, Formula.int32_to_int16,
      Formula.int32_to_int24, is_int32 in *.
    assert (-128 <= Z.shiftr x 24 < 128) by (apply shiftr_bounds; simpl; lia).
    assert (-128 <= Z.shiftr y 24 < 128) by (apply shiftr_bounds; simpl; lia).
    rewrite !land_255_small by lia.
    pose proof (shiftr_le x y 24 ltac:(lia) Hxy).
    pose proof (shiftr_le x y 16 ltac:(lia) Hxy).
    pose proof (shiftr_le x y 8 ltac:(lia) Hxy).
    repeat split; lia.
  - rewrite !uint8_to_int16_formula, !uint8_to_int24_formula,
      !uint8_to_int32_formula by assumption.
    unfold Formula.uint8_to_int16, Formula.uint8_to_int24,
      Formula.uint8_to_int32, is_uint8 in *.
    pose proof (shiftl_le (x - 128) (y - 128) 24 ltac:(lia) ltac:(lia)).
    repeat split; lia.
Qed.

Lemma integer_conversions_keep_order_witness :
  convert_int16_to_uint8 (-1) <= convert_int16_to_uint8 0
  /\ convert_int32_to_int16 (-65537) <= convert_int32_to_int16 65536
  /\ convert_uint8_to_int32 0 <= convert_uint8_to_int32 255.
Proof.
  destruct (integer_conversions_keep_order (-1) 0 ltac:(lia))
    as (H16 & _ & _).
  destruct (integer_conversions_keep_order (-65537) 65536 ltac:(lia))
    as (_ & H32 & _).
  destruct (integer_conversions_keep_order 0 255 ltac:(lia))
    as (_ & _ & H8).
  split; [|split].
  - apply H16; unfold is_int16; lia.
  - apply H32; unfold is_int32; lia.
  - apply H8; unfold is_uint8; lia.
Defined.

(* ================================================================== *)
(** * Instances of the statements on the header scan and on 24-bit PCM *)
(* ================================================================== *)

Lemma skip_amount_rounds_up_witness :
  Reader.skip_amount 17 = 17 + 17 mod 2 /\ Reader.skip_amount 18 = 18 + 18 mod 2.
Proof.
  split.
  - apply (skip_amount_rounds_up 17). lia.
  - apply (skip_amount_rounds_up 18). lia.
Defined.

Lemma pcm24_index_packed_iff_witness :
  (Writer.pcm24_index 2 0 1 0 = packed_offset 2 0 1 0
   <-> 2%nat = 1%nat \/ (0%nat = 0%nat /\ 1%nat = 0%nat /\ 0%nat = 0%nat))
  /\ Writer.pcm24_index 2 0 1 0 <> packed_offset 2 0 1 0.
Proof.
  pose proof (pcm24_index_packed_iff 2 0 1 0 ltac:(lia)) as H.
  split; [exact H|].
  intros E. apply H in E. lia.
Defined.

Lemma create_skips_other_chunks_witness :
  Reader.create
    (single_file
       (riff_wave [0; 0; 0; 0]
          ++ concat (map scanned_bytes [Skipped (chars "LIST") 3 [1; 2; 3; 0]])
          ++ chunk_header (chars "fmt ") 16
          ++ fmt_fields 1 2 44100 176400 4 16
          ++ concat (map scanned_bytes [Skipped (chars "JUNK") 0 []])
          ++ chunk_header (chars "data") 4 ++ [1; 0; 2; 0]))
    "a.wav"
  = Some (Reader.mkReader
            (mkConfig "a.wav" SAMPLE_RATE_44100 2 BIT_DEPTH_16 PCM 4 4)
            (mkIfstream [1; 0; 2; 0] false 4)).
Proof.
  apply (create_skips_other_chunks _ "a.wav" [0; 0; 0; 0]
           [Skipped (chars "LIST") 3 [1; 2; 3; 0]]
           [Skipped (chars "JUNK") 0 []]
           1 2 44100 176400 4 16 4 [1; 0; 2; 0]
           (mkConfig "a.wav" SAMPLE_RATE_44100 2 BIT_DEPTH_16 PCM 4 0));
    try reflexivity;
    try (repeat constructor; vm_compute; intuition discriminate);
    try (unfold is_uint16, is_uint32; lia).
Defined.

Lemma create_float_is_32bit_witness :
  exists r,
    Reader.create (single_file (wav_file 3 1 44100 32 [0; 0; 128; 63]))
      "a.wav" = Some r
    /\ float_is_32bit (Reader.r_config r).
Proof.
  let c := eval vm_compute in
    (Reader.create (single_file (wav_file 3 1 44100 32 [0; 0; 128; 63]))
       "a.wav") in
  match c with
  | Some ?r =>
      assert (H0 : Reader.create
                     (single_file (wav_file 3 1 44100 32 [0; 0; 128; 63]))
                     "a.wav" = Some r)
        by (vm_compute; reflexivity);
      exists r; split;
      [ exact H0 | exact (create_float_is_32bit _ _ r H0) ]
  end.
Defined.

Lemma read_returns_available_frames_witness :
  exists r out r',
    Reader.create
      (single_file (wav_file 1 2 44100 16 [1; 0; 2; 0; 3; 0; 4; 0; 5; 0]))
      "a.wav" = Some r
    /\ Reader.read T_float 5 r = Ret (out, r')
    /\ length out = 2%nat
    /\ Forall (fun ch => length ch = 2%nat) out.
Proof.
  let c := eval vm_compute in
    (Reader.create
       (single_file (wav_file 1 2 44100 16 [1; 0; 2; 0; 3; 0; 4; 0; 5; 0]))
       "a.wav") in
  match c with
  | Some ?r =>
      assert (H0 : Reader.create
                     (single_file
                        (wav_file 1 2 44100 16 [1; 0; 2; 0; 3; 0; 4; 0; 5; 0]))
                     "a.wav" = Some r)
        by (vm_compute; reflexivity);
      destruct (read_returns_available_frames T_float 5 r eq_refl
                  ltac:(left; discriminate) ltac:(vm_compute; reflexivity)
                  eq_refl ltac:(vm_compute; discriminate))
        as (out & r' & Hread & Hlen & Hall);
      exists r, out, r';
      split; [exact H0|]; split; [exact Hread|]; split;
      [exact Hlen | exact Hall]
  end.
Defined.

Lemma write_to_pcm24_never_returns_witness :
  exists w,
    Writer.create true stereo24_configuration = Some w
    /\ forall w',
        Writer.write_to_pcm24 T_int16 [[1]; [2]] 1 w <> Ret w'.
Proof.
  let c := eval vm_compute in (Writer.create true stereo24_configuration) in
  match c with
  | Some ?w =>
      exists w; split; [vm_compute; reflexivity|];
      intros w';
      apply (write_to_pcm24_never_returns T_int16 [[1]; [2]] 1 w w');
      vm_compute; lia
  end.
Defined.
